(** * Lightshot gallery downloader: the download pipeline, embedded and verified

    A shallow embedding of the TypeScript sources

      - [src/shared/throttler.ts]            (module [Throttler])
      - [src/background/index.ts]            (module [Background])
      - [src/domain/lightshotClient.ts]      (module [LightshotClient])
      - [src/background/downloadService.ts]  (module [DownloadService])

    Promises and callbacks become explicit events: what the event loop does
    between two suspension points is one atomic transition, and the order in
    which pending promises settle is chosen by the environment.

    The embedding comes first, module by module, then the environments used
    as examples, then the properties, in the order limiter, background
    handler, metadata collector, retrying fetcher, orchestrator. *)

From Stdlib Require Import ZArith QArith Qround Lia.
From stdpp Require Import base list strings pretty.

Local Open Scope Z_scope.

(* ===================================================================== *)
(** * src/shared/throttler.ts *)
(* ===================================================================== *)

Module Throttler.
Section WithTask.

(** The closures [run] pushed on the queue.  A unit of work is known to the
    limiter only through its identity.  Its [taskFn] returns a promise, as
    the type [Task<T>] says and as the [async] functions handed over by
    [downloadService.ts] do: it does not throw before it returns. *)
Context {Task : Type} `{EqDecision Task}.

(** The variables captured by the closures of [createThrottler]. *)
Record state := State {
  maxConcurrency : Z;
  activeCount : Z;
  queue : list Task;
}.

(** [createThrottler]: throws (here [None]) unless the argument is a
    positive integer.  [Number.isInteger] holds of every [Z]. *)
Definition createThrottler (maxConcurrency : Z) : option state :=
  if maxConcurrency <? 1 then None
  else Some (State maxConcurrency 0 []).

(** [next]: the new state and the task it called, if any. *)
Definition next (s : state) : state * option Task :=
  if activeCount s >=? maxConcurrency s then (s, None)
  else
    match queue s with
    | [] => (s, None)
    | task :: rest =>
        (State (maxConcurrency s) (activeCount s + 1) rest, Some task)
    end.

(** The executor of the promise built by [enqueue]: [queue.push(run)]
    then [next()]. *)
Definition enqueue (run : Task) (s : state) : state * option Task :=
  next (State (maxConcurrency s) (activeCount s) (queue s ++ [run])).

(** The [finally] callback of a unit: [activeCount -= 1] then [next()].
    It runs once the promise returned by [taskFn()] has settled, whether
    fulfilled or rejected. *)
Definition release (s : state) : state * option Task :=
  next (State (maxConcurrency s) (activeCount s - 1) (queue s)).

(** ** The limiter with its environment

    [executing] lists the units whose [taskFn] has been called and whose
    [finally] callback has not run yet; [started] and [submitted] log the
    calls of [task()] and of [enqueue] in order.  None of the three is
    read by the code. *)
Record sys := Sys {
  thr : state;
  executing : list Task;
  started : list Task;
  submitted : list Task;
}.

Inductive event :=
| Submit (t : Task)   (* enqueue(taskFn) *)
| Settle (t : Task).  (* the promise of a started unit settles *)

Definition init (s : state) : sys := Sys s [] [] [].

Definition launched (o : option Task) : list Task :=
  match o with Some t => [t] | None => [] end.

Fixpoint remove_first (t : Task) (l : list Task) : list Task :=
  match l with
  | [] => []
  | x :: l' => if decide (x = t) then l' else x :: remove_first t l'
  end.

Definition exec (e : event) (s : sys) : option sys :=
  match e with
  | Submit t =>
      let '(th, o) := enqueue t (thr s) in
      Some (Sys th (executing s ++ launched o) (started s ++ launched o)
                (submitted s ++ [t]))
  | Settle t =>
      if decide (t ∈ executing s) then
        let '(th, o) := release (thr s) in
        Some (Sys th (remove_first t (executing s) ++ launched o)
                  (started s ++ launched o) (submitted s))
      else None
  end.

Fixpoint run_events (evs : list event) (s : sys) : option sys :=
  match evs with
  | [] => Some s
  | e :: evs' =>
      match exec e s with
      | Some s' => run_events evs' s'
      | None => None
      end
  end.

Definition submits (evs : list event) : list Task :=
  omap (fun e => match e with Submit t => Some t | Settle _ => None end) evs.

(** What holds of every reachable state. *)
Record invariant (s : sys) : Prop := {
  inv_count : activeCount (thr s) = Z.of_nat (length (executing s));
  inv_bound : activeCount (thr s) <= maxConcurrency (thr s);
  inv_fifo : started s ++ queue (thr s) = submitted s;
  inv_busy : queue (thr s) <> [] -> activeCount (thr s) = maxConcurrency (thr s);
}.

End WithTask.
Arguments state : clear implicits.
Arguments sys : clear implicits.
Arguments event : clear implicits.
End Throttler.

(* ===================================================================== *)
(** * JavaScript numbers and values, as far as the sources use them *)
(* ===================================================================== *)

Module Js.

(** An IEEE double as the code observes it.  Every finite double is a
    rational; [Math.floor], [Math.min], [Math.max] and the comparisons are
    exact on doubles, so nothing is rounded below.  The sign of zero is not
    kept: no operation used here tells the two zeros apart. *)
Inductive number :=
| NaN
| PosInfinity
| NegInfinity
| Finite (q : Q).

Definition of_Z (z : Z) : number := Finite (inject_Z z).

Definition Number_isFinite (n : number) : bool :=
  match n with Finite _ => true | _ => false end.

Definition Math_floor (n : number) : number :=
  match n with
  | Finite q => Finite (inject_Z (Qfloor q))
  | _ => n
  end.

Definition Math_max (a b : number) : number :=
  match a, b with
  | NaN, _ | _, NaN => NaN
  | PosInfinity, _ | _, PosInfinity => PosInfinity
  | NegInfinity, x | x, NegInfinity => x
  | Finite p, Finite q => if Qle_bool p q then b else a
  end.

Definition Math_min (a b : number) : number :=
  match a, b with
  | NaN, _ | _, NaN => NaN
  | NegInfinity, _ | _, NegInfinity => NegInfinity
  | PosInfinity, x | x, PosInfinity => x
  | Finite p, Finite q => if Qle_bool p q then a else b
  end.

(** [a < b] *)
Definition lt (a b : number) : bool :=
  match a, b with
  | NaN, _ | _, NaN => false
  | _, NegInfinity => false
  | NegInfinity, _ => true
  | PosInfinity, _ => false
  | Finite _, PosInfinity => true
  | Finite p, Finite q => negb (Qle_bool q p)
  end.

(** [a === b] on numbers *)
Definition strict_eq (a b : number) : bool :=
  match a, b with
  | PosInfinity, PosInfinity | NegInfinity, NegInfinity => true
  | Finite p, Finite q => Qeq_bool p q
  | _, _ => false
  end.

(** A thrown value.  The sources throw [Error]s, their own subclass
    [NonRetryableError], and the [DOMException] named [AbortError];
    [retryable] is the property of that name, when the object has one. *)
Inductive ErrorClass := PlainError | NonRetryableError | AbortError.

Record Error := {
  error_class : ErrorClass;
  message : string;
  retryable : option bool;
}.

(** [new Error(message)] *)
Definition new_Error (message : string) : Error :=
  {| error_class := PlainError; message := message; retryable := None |}.

(** [a ?? b] on a value that may be [undefined] or [null] *)
Definition nullish {A} (a b : option A) : option A :=
  match a with Some _ => a | None => b end.

Section Values.
(** The values a message field of type [unknown] can hold.  Messages
    cross the extension port as JSON, so there are no symbols and no
    bigints; an absent field reads as [Undefined]. *)
Context {Object : Type}.

Inductive value :=
| Undefined
| Null
| Bool (b : bool)
| Num (n : number)
| Str (s : string)
| Obj (o : Object).

(** [Number(value)] on strings and on objects (arrays included) follows
    the numeric-literal grammar and [ToPrimitive]; both are taken from
    the engine. *)
Context (StringToNumber : string -> number) (ObjectToNumber : Object -> number).

Definition Number (v : value) : number :=
  match v with
  | Undefined => NaN
  | Null => of_Z 0
  | Bool true => of_Z 1
  | Bool false => of_Z 0
  | Num n => n
  | Str s => StringToNumber s
  | Obj o => ObjectToNumber o
  end.

(** [Boolean(value)] *)
Definition Boolean (v : value) : bool :=
  match v with
  | Undefined | Null => false
  | Bool b => b
  | Num NaN => false
  | Num (Finite q) => negb (Qeq_bool q 0)
  | Num _ => true
  | Str s => negb (String.eqb s "")
  | Obj _ => true
  end.
End Values.
Arguments value : clear implicits.

End Js.

(* ===================================================================== *)
(** * src/background/index.ts *)
(* ===================================================================== *)

Module Background.
Import Js.

Definition DEFAULT_CONCURRENCY : number := of_Z 4.
Definition DEFAULT_RETRY_ATTEMPTS : number := of_Z 3.
Definition DEFAULT_RETRY_BASE_DELAY_MS : number := of_Z 500.
Definition DEFAULT_SEQUENTIAL_THROTTLE_MS : number := of_Z 150.
Definition MAX_THROTTLE_MS : number := of_Z 5000.

Section Handler.
Context {Object Screens : Type}.
Context (StringToNumber : string -> number) (ObjectToNumber : Object -> number).

Local Abbreviation Number := (Js.Number StringToNumber ObjectToNumber).

(** [type DownloadMessage] *)
Record DownloadMessage := {
  concurrency : value Object;
  sequential : value Object;
  throttleMs : value Object;
  screens : option Screens;
}.

Definition normalizeConcurrency (v : value Object) : number :=
  let parsed := Number v in
  if negb (Number_isFinite parsed) then DEFAULT_CONCURRENCY
  else Math_min (of_Z 10) (Math_max (of_Z 1) (Math_floor parsed)).

Definition normalizeThrottle (v : value Object) : number :=
  let parsed := Number v in
  if negb (Number_isFinite parsed) || lt parsed (of_Z 0) then of_Z 0
  else Math_min (Math_floor parsed) MAX_THROTTLE_MS.

(** The argument [startDownload] passes to [downloadService.run] (the
    signal and the port apart). *)
Record RunArguments := {
  run_concurrency : number;
  run_retryAttempts : number;
  run_retryBaseDelayMs : number;
  run_throttleDelayMs : number;
  run_screens : option Screens;
}.

Inductive Started :=
| AlreadyRunning (message : string)   (* posted as an [error] message *)
| Run (args : RunArguments).

(** [startDownload]; [activeTask] tells whether a run is under way. *)
Definition startDownload (activeTask : bool) (options : DownloadMessage) : Started :=
  if activeTask then AlreadyRunning "A download is already running."
  else
    let isSequential := Boolean (sequential options) in
    let normalizedConcurrency := normalizeConcurrency (concurrency options) in
    let concurrency := if isSequential then of_Z 1 else normalizedConcurrency in
    let throttleMs := normalizeThrottle (throttleMs options) in
    let throttleDelayMs :=
      if strict_eq concurrency (of_Z 1)
      then Math_max throttleMs DEFAULT_SEQUENTIAL_THROTTLE_MS
      else throttleMs in
    Run {| run_concurrency := concurrency;
           run_retryAttempts := DEFAULT_RETRY_ATTEMPTS;
           run_retryBaseDelayMs := DEFAULT_RETRY_BASE_DELAY_MS;
           run_throttleDelayMs := throttleDelayMs;
           run_screens := screens options |}.

(** The claim's reading of the two normalisations, on integers. *)
Definition clamp (lo hi x : Z) : Z := Z.min hi (Z.max lo x).

Definition expected_concurrency (v : value Object) : Z :=
  match Number v with
  | Finite q => clamp 1 10 (Qfloor q)
  | _ => 4
  end.

Definition expected_throttle (v : value Object) : Z :=
  match Number v with
  | Finite q => if Qle_bool 0 q then Z.min (Qfloor q) 5000 else 0
  | _ => 0
  end.
End Handler.

End Background.

(* ===================================================================== *)
(** * src/domain/lightshotClient.ts *)
(* ===================================================================== *)

Module LightshotClient.
Import Js.
Local Infix "??" := nullish (at level 67, right associativity).

Definition DEFAULT_BATCH_SIZE : Z := 20.

(** [type LightshotScreenPayload]; [payload_date] is the [date] key when
    [typeof screen.date === 'string']. *)
Record LightshotScreenPayload := {
  payload_id36 : string;
  payload_url : string;
  payload_date : option string;
}.

(** [type LightshotResponse], from the inside out.  A field that is
    absent, [undefined] or [null] is [None]: [??] and [?.] treat the three
    alike. *)
Record ResultData := {
  data_screens : option (list LightshotScreenPayload);
  data_items : option (list LightshotScreenPayload);
  data_next_id36 : option string;
  data_next_cursor : option string;
  data_next_token : option string;
  data_next : option string;
}.

Record Result := {
  result_success : option bool;
  result_screens : option (list LightshotScreenPayload);
  result_items : option (list LightshotScreenPayload);
  result_next_id36 : option string;
  result_next_cursor : option string;
  result_next_token : option string;
  result_next : option string;
  result_message : option string;
  result_data : option ResultData;
}.

Record ErrorField := {
  error_message : option string;
  error_code : option Z;
}.

Record LightshotResponse := {
  json_success : option bool;
  json_result : option Result;
  json_error : option ErrorField;
  json_screens : option (list LightshotScreenPayload);
  json_items : option (list LightshotScreenPayload);
  json_next_id36 : option string;
  json_next_cursor : option string;
  json_next_token : option string;
  json_next : option string;
}.

(** The object literal [{}] *)
Definition empty_result : Result :=
  {| result_success := None; result_screens := None; result_items := None;
     result_next_id36 := None; result_next_cursor := None;
     result_next_token := None; result_next := None;
     result_message := None; result_data := None |}.

(** [interface ScreenMeta] (the optional fields are never written) *)
Record ScreenMeta := {
  id36 : string;
  url : string;
  date : string;
}.

(** [interface FetchScreensResult] *)
Record FetchScreensResult := {
  screens : list ScreenMeta;
  nextCursor : option string;
}.

(** The [params] of the JSON-RPC request: [start_id36] is the number [0]
    for the cursor ['0'] and the cursor itself otherwise. *)
Inductive StartId := StartZero | StartAt (cursor : string).

Record Params := {
  count : Z;
  start_id36 : StartId;
}.

(** What [fetchImpl] resolves with: [ok], [status], and what
    [response.json()] settles with. *)
Record Response := {
  ok : bool;
  status : Z;
  json : Error + LightshotResponse;
}.

(** [const result = json.result ?? {}] *)
Definition result_of (json : LightshotResponse) : Result :=
  default empty_result (json_result json).

Definition candidateScreens (json : LightshotResponse) : list LightshotScreenPayload :=
  let result := result_of json in
  default []
    (result_screens result ??
     result_items result ??
     (result_data result ≫= data_screens) ??
     (result_data result ≫= data_items) ??
     json_screens json ??
     json_items json).

Definition success (json : LightshotResponse) : option bool :=
  result_success (result_of json) ?? json_success json.

Definition continuation (json : LightshotResponse) : option string :=
  let result := result_of json in
  result_next_id36 result ??
  result_next_cursor result ??
  result_next_token result ??
  result_next result ??
  (result_data result ≫= data_next_id36) ??
  (result_data result ≫= data_next_cursor) ??
  (result_data result ≫= data_next_token) ??
  (result_data result ≫= data_next) ??
  json_next_id36 json ??
  json_next_cursor json ??
  json_next_token json ??
  json_next json.

(** ** The claims' readings of the page normalisation *)

(** The claim's probing order: the direct field first, then the one under
    [result], then the one under [result.data]. *)
Definition claimed_candidateScreens (json : LightshotResponse)
  : list LightshotScreenPayload :=
  let result := result_of json in
  default []
    (json_screens json ?? json_items json ??
     result_screens result ?? result_items result ??
     (result_data result ≫= data_screens) ?? (result_data result ≫= data_items)).

Definition claimed_continuation (json : LightshotResponse) : option string :=
  let result := result_of json in
  json_next_id36 json ?? json_next_cursor json ??
  json_next_token json ?? json_next json ??
  result_next_id36 result ?? result_next_cursor result ??
  result_next_token result ?? result_next result ??
  (result_data result ≫= data_next_id36) ?? (result_data result ≫= data_next_cursor) ??
  (result_data result ≫= data_next_token) ?? (result_data result ≫= data_next).

(** The candidates of one nesting level, in the order the code reads
    them within a level. *)
Definition items_under_result (json : LightshotResponse) :=
  result_screens (result_of json) ?? result_items (result_of json).
Definition items_under_data (json : LightshotResponse) :=
  (result_data (result_of json) ≫= data_screens)
    ?? (result_data (result_of json) ≫= data_items).
Definition items_direct (json : LightshotResponse) :=
  json_screens json ?? json_items json.

Definition cursor_under_result (json : LightshotResponse) :=
  let result := result_of json in
  result_next_id36 result ?? result_next_cursor result ??
  result_next_token result ?? result_next result.
Definition cursor_under_data (json : LightshotResponse) :=
  let data := result_data (result_of json) in
  (data ≫= data_next_id36) ?? (data ≫= data_next_cursor) ??
  (data ≫= data_next_token) ?? (data ≫= data_next).
Definition cursor_direct (json : LightshotResponse) :=
  json_next_id36 json ?? json_next_cursor json ??
  json_next_token json ?? json_next json.


Section Client.
(** [fetchImpl]: the reply to the [n]-th request made through this
    client, which may depend on everything sent so far; a rejected
    promise is [inl].  [today] is [new Date().toLocaleDateString()]. *)
Context (fetchImpl : nat -> Params -> Error + Response) (today : string).

Definition toScreenMeta (screen : LightshotScreenPayload) : ScreenMeta :=
  {| id36 := payload_id36 screen;
     url := payload_url screen;
     date := default today (payload_date screen) |}.

(** The part of [fetchPage] that follows [await response.json()]. *)
Definition readPage (json : LightshotResponse) : Error + FetchScreensResult :=
  let result := result_of json in
  let candidateScreens := candidateScreens json in
  let success := success json in
  if bool_decide (success = Some false) && bool_decide (length candidateScreens = 0%nat)
  then inr {| screens := []; nextCursor := None |}
  else if bool_decide (success = Some false)
  then
    let message :=
      default "Unexpected Lightshot response"
        (result_message result ?? (json_error json ≫= error_message)) in
    inl (new_Error message)
  else
    inr {| screens := toScreenMeta <$> candidateScreens;
           nextCursor := continuation json |}.

Definition fetchPage (n : nat) (cursor : string) (batchSize : Z)
  : Error + FetchScreensResult :=
  let params :=
    {| count := batchSize;
       start_id36 := if String.eqb cursor "0" then StartZero else StartAt cursor |} in
  match fetchImpl n params with
  | inl rejected => inl rejected
  | inr response =>
      if negb (ok response)
      then inl (new_Error ("Lightshot API returned " +:+ pretty (status response)))
      else
        match json response with
        | inl rejected => inl rejected
        | inr json => readPage json
        end
  end.

(** [signal?.aborted] at the head of the [n]-th iteration; [None] is a
    call without a signal. *)
Context (signal : option (nat -> bool)).

Definition aborted (n : nat) : bool :=
  match signal with Some s => s n | None => false end.

(** [!nextCursor]: absent or the empty string *)
Definition truthy (cursor : option string) : option string :=
  match cursor with
  | Some c => if String.eqb c "" then None else Some c
  | None => None
  end.

(** The [while] loop of [getAllScreens], entered for the [n]-th time with
    the local variables [cursor] and [allScreens].  The loop need not
    end (a server may hand out fresh cursors for ever), hence the fuel:
    [None] is "still running after [fuel] iterations".  The result holds
    the number of requests made and what the promise settles with. *)
Fixpoint getAllScreens_loop (fuel n : nat) (batchSize : Z) (cursor : string)
    (allScreens : list ScreenMeta) : option (nat * (Error + list ScreenMeta)) :=
  match fuel with
  | O => None
  | S fuel =>
      if aborted n then Some (n, inr allScreens)
      else
        match fetchPage n cursor batchSize with
        | inl thrown => Some (S n, inl thrown)
        | inr page =>
            if bool_decide (length (screens page) = 0%nat)
            then Some (S n, inr allScreens)
            else
              let allScreens := allScreens ++ screens page in
              match truthy (nextCursor page) with
              | None =>
                  match last (screens page) with
                  | None => Some (S n, inr allScreens)
                  | Some last =>
                      if String.eqb (id36 last) cursor
                      then Some (S n, inr allScreens)
                      else getAllScreens_loop fuel (S n) batchSize (id36 last) allScreens
                  end
              | Some nextCursor =>
                  if String.eqb nextCursor cursor
                  then Some (S n, inr allScreens)
                  else getAllScreens_loop fuel (S n) batchSize nextCursor allScreens
              end
        end
  end.

Definition getAllScreens (fuel : nat) (batchSize : Z)
  : option (nat * (Error + list ScreenMeta)) :=
  getAllScreens_loop fuel 0 batchSize "0" [].

(** ** The claim's account of one iteration

    The four stop conditions in the order the specification lists them,
    and the cursor the next iteration starts from when none holds. *)
Inductive StopReason :=
| Cancelled          (* cancellation has been signalled *)
| EmptyPage          (* the page has zero items *)
| LastIdIsCursor     (* no continuation cursor, last id = current cursor *)
| CursorRepeats.     (* the continuation cursor = current cursor *)

Definition verdict (isAborted : bool) (cursor : string) (page : FetchScreensResult)
  : StopReason + string :=
  if isAborted then inl Cancelled
  else if bool_decide (screens page = []) then inl EmptyPage
  else
    match truthy (nextCursor page) with
    | None =>
        match last (screens page) with
        | Some l => if decide (id36 l = cursor) then inl LastIdIsCursor else inr (id36 l)
        | None => inl LastIdIsCursor
        end
    | Some c => if decide (c = cursor) then inl CursorRepeats else inr c
    end.

(** [iterates n cursor all]: the loop is entered for the [n]-th time with
    these values of [cursor] and [allScreens], no earlier iteration
    having met a stop condition or a failed request. *)
Inductive iterates (batchSize : Z) : nat -> string -> list ScreenMeta -> Prop :=
| iterates_first : iterates batchSize 0 "0" []
| iterates_next n cursor all page cursor' :
    iterates batchSize n cursor all ->
    fetchPage n cursor batchSize = inr page ->
    verdict (aborted n) cursor page = inr cursor' ->
    iterates batchSize (S n) cursor' (all ++ screens page).
End Client.

End LightshotClient.

(* ===================================================================== *)
(** * src/background/downloadService.ts *)
(* ===================================================================== *)

Module DownloadService.
Import Js.
Export LightshotClient (ScreenMeta, id36, url, date).

Inductive Level := info | warn.

(** [type PortMessage], one constructor per payload interface. *)
Inductive PortMessage :=
| ProgressPayload (completed total : Z) (currentId : string) (succeeded failed : Z)
| LogPayload (level : Level) (message : string)
| StatusPayload (message : string)
| StartPayload (total concurrency : Z)
| DonePayload (total failed : Z) (downloadId processed succeeded : option Z)
| ErrorPayload (message : string)
| CancelledPayload.

Definition DEFAULT_FILENAME : string := "lightshot-gallery.zip".
Definition LARGE_GALLERY_THRESHOLD : Z := 800.
Definition MIN_SEQUENTIAL_THROTTLE_MS : Z := 150.

(** [class NonRetryableError extends Error { retryable = false }] *)
Definition new_NonRetryableError (message : string) : Error :=
  {| error_class := NonRetryableError; message := message; retryable := Some false |}.

(** [new DOMException('Aborted', 'AbortError')] *)
Definition new_AbortError : Error :=
  {| error_class := AbortError; message := "Aborted"; retryable := None |}.

(** A parsed JSON document ([details: unknown]). *)
#[warnings="-register-all"]
Inductive Json :=
| JNull
| JBool (b : bool)
| JNumber (n : Q)
| JString (s : string)
| JArray (items : list Json)
| JObject (members : list (string * Json)).

(** [object.key]; [JSON.parse] keeps the last of several members of one
    name. *)
Definition member (key : string) (members : list (string * Json)) : option Json :=
  snd <$> last (filter (fun m => m.1 = key) members).

(** [typeof details === 'object' && details ? details.code : undefined];
    [None] stands for [undefined]. *)
Definition code_of (details : option Json) : option Json :=
  match details with
  | Some (JObject members) => member "code" members
  | _ => None
  end.

(** [code === 'account_trouble'] *)
Definition is_account_trouble (code : option Json) : bool :=
  match code with
  | Some (JString s) => String.eqb s "account_trouble"
  | _ => false
  end.

Definition ArrayBuffer := list Byte.byte.

(** What [boundFetch] resolves with: [ok], [status], the document
    [response.clone().json()] resolves with ([None] when it rejects), and
    what [response.arrayBuffer()] settles with. *)
Record Response := {
  ok : bool;
  status : Z;
  json : option Json;
  arrayBuffer : Error + ArrayBuffer;
}.

(** [interface DownloadOptions], the signal and the port apart.  The
    numbers are integers: [index.ts] passes nothing else. *)
Record DownloadOptions := {
  concurrency : Z;
  retryAttempts : Z;
  retryBaseDelayMs : Z;
  throttleDelayMs : Z;
  screens : option (list ScreenMeta);
}.

(** What one call of [downloadWithRetry] does to the outside, in order. *)
Inductive Effect :=
| Fetch (url : string)                                  (* boundFetch(url, ...) *)
| ZipFile (name : string) (data : ArrayBuffer) (date : option Z) (* zip.file(...) *)
| Delay (ms : Z)                                        (* delay(ms, signal) *)
| Send (payload : PortMessage).                         (* this.send(port, ...) *)

Inductive Completion :=
| Returns (success : bool)
| Throws (thrown : Error).

Section Item.
(** The environment of one call of [downloadWithRetry]:
    - [boundFetch url k]: what the request of attempt [k] settles with;
    - [signal n]: [signal.aborted] once the call has been suspended [n]
      times;
    - [abortReason]: [signal.reason], thrown by [throwIfAborted];
    - [Date_parse]: the time value of [new Date(value)], [None] for
      [NaN]. *)
Context (boundFetch : string -> Z -> Error + Response)
        (signal : nat -> bool)
        (abortReason : Error)
        (Date_parse : string -> option Z).

Definition parseLightshotDate (value : string) : option Z :=
  if String.eqb value "" then None else Date_parse value.

(** [await delay(ms, signal)] begun after [n] suspensions: the rejection,
    if any, and the number of suspensions afterwards.  A listener added
    to a signal that has already fired is never called, so the timer
    then runs to its end. *)
Definition delay (ms : Z) (n : nat) : option Error * nat :=
  if ms <=? 0 then (None, n)
  else if signal n then (None, S n)
  else if signal (S n) then (Some new_AbortError, S n)
  else (None, S n).

Context (retryAttempts retryBaseDelayMs throttleDelayMs : Z) (screen : ScreenMeta).

Definition failed_to_fetch (status : Z) : string :=
  "Failed to fetch " +:+ id36 screen +:+ " (" +:+ pretty status +:+ ")".

Definition cannot_serve : string :=
  "Lightshot cannot serve " +:+ id36 screen
    +:+ ": upstream returned account trouble (image missing on server).".

(** The [try] block of one attempt. *)
Definition try_block (attempt : Z) (n : nat) : Completion * list Effect * nat :=
  if signal n then (Throws abortReason, [], n)
  else
    match boundFetch (url screen) attempt with
    | inl rejected => (Throws rejected, [Fetch (url screen)], S n)
    | inr response =>
        if negb (ok response) then
          if status response =? 403 then
            let code := code_of (json response) in
            if is_account_trouble code
            then (Throws (new_NonRetryableError cannot_serve),
                  [Fetch (url screen)], S (S n))
            else (Throws (new_Error (failed_to_fetch (status response))),
                  [Fetch (url screen)], S (S n))
          else (Throws (new_Error (failed_to_fetch (status response))),
                [Fetch (url screen)], S n)
        else
          match arrayBuffer response with
          | inl rejected => (Throws rejected, [Fetch (url screen)], S (S n))
          | inr buffer =>
              let stored :=
                ZipFile ("screenshot_" +:+ id36 screen +:+ ".png") buffer
                        (parseLightshotDate (date screen)) in
              if throttleDelayMs >? 0 then
                match delay throttleDelayMs (S (S n)) with
                | (Some rejected, n') =>
                    (Throws rejected,
                     [Fetch (url screen); stored; Delay throttleDelayMs], n')
                | (None, n') =>
                    (Returns true,
                     [Fetch (url screen); stored; Delay throttleDelayMs], n')
                end
              else (Returns true, [Fetch (url screen); stored], S (S n))
          end
    end.

(** [error instanceof NonRetryableError || error.retryable === false] *)
Definition nonRetryable (e : Error) : bool :=
  match error_class e, retryable e with
  | NonRetryableError, _ => true
  | _, Some false => true
  | _, _ => false
  end.

Definition retry_message (attempt : Z) (e : Error) : string :=
  "Retry " +:+ pretty attempt +:+ "/" +:+ pretty retryAttempts +:+ " for "
    +:+ id36 screen +:+ ": " +:+ message e.

Definition final_message (e : Error) : string :=
  "Final failure for " +:+ id36 screen +:+ ": " +:+ message e.

(** The [for] loop entered with [attempt], [remaining] being the number
    of iterations [attempt <= retryAttempts] still allows. *)
Fixpoint attempts (remaining : nat) (attempt : Z) (n : nat)
  : Completion * list Effect * nat :=
  match remaining with
  | O => (Returns false, [], n)
  | S remaining =>
      match try_block attempt n with
      | (Returns b, effects, n') => (Returns b, effects, n')
      | (Throws e, effects, n') =>
          if signal n' then (Throws e, effects, n')
          else if (attempt <? retryAttempts) && negb (nonRetryable e) then
            let backoffTime := retryBaseDelayMs * 2 ^ (attempt - 1) in
            let retry :=
              [Send (LogPayload warn (retry_message attempt e)); Delay backoffTime] in
            match delay backoffTime n' with
            | (Some rejected, n'') => (Throws rejected, effects ++ retry, n'')
            | (None, n'') =>
                let '(c, rest, n3) := attempts remaining (attempt + 1) n'' in
                (c, effects ++ retry ++ rest, n3)
            end
          else
            (Returns false,
             effects ++ [Send (LogPayload warn (final_message e))], n')
      end
  end.

Definition downloadWithRetry : Completion * list Effect * nat :=
  attempts (Z.to_nat retryAttempts) 1 0.

(** ** How the claims read one attempt *)

(** The outcome of attempt [k] as the [catch] block sees it when the
    signal is quiet: [None] for a download, [Some e] for the error. *)
Definition attempt_error (k : Z) : option Error :=
  match boundFetch (url screen) k with
  | inl rejected => Some rejected
  | inr response =>
      if negb (ok response) then
        if (status response =? 403) && is_account_trouble (code_of (json response))
        then Some (new_NonRetryableError cannot_serve)
        else Some (new_Error (failed_to_fetch (status response)))
      else
        match arrayBuffer response with
        | inl rejected => Some rejected
        | inr _ => None
        end
  end.

Definition succeeds (k : Z) : Prop := attempt_error k = None.

Definition fails_retryably (k : Z) : Prop :=
  exists e, attempt_error k = Some e /\ nonRetryable e = false.

(** The requests and the waits of a list of effects, in order. *)
Inductive Timing := Request | Wait (ms : Z).

Definition timing (effects : list Effect) : list Timing :=
  omap (fun e => match e with
                 | Fetch _ => Some Request
                 | Delay ms => Some (Wait ms)
                 | _ => None
                 end) effects.

Definition requests (effects : list Effect) : nat :=
  length (omap (fun e => match e with Fetch u => Some u | _ => None end) effects).

(** [k] failed attempts starting with [attempt], each followed by its
    backoff. *)
Fixpoint backoffs (k : nat) (attempt : Z) : list Timing :=
  match k with
  | O => []
  | S k => Request :: Wait (retryBaseDelayMs * 2 ^ (attempt - 1))
             :: backoffs k (attempt + 1)
  end.

Definition throttle_wait : list Timing :=
  if throttleDelayMs >? 0 then [Wait throttleDelayMs] else [].
End Item.

(** ** One run *)

Section Run.
(** The environment of a run: the image server, [signal.reason], and
    the date parser. *)
Context (boundFetch : string -> Z -> Error + Response)
        (abortReason : Error)
        (Date_parse : string -> option Z).

(** A unit of work handed to the limiter, one per screen, known by the
    index of its screen. *)
Inductive UnitPhase :=
| Queued       (* in the limiter's queue *)
| Running (todo : list Effect) (completion : Completion)
               (* inside [downloadWithRetry]: what it has yet to do *)
| Throwing     (* started under an aborted signal: [throwIfAborted] threw *)
| Fulfilled
| Rejected.

Inductive Ending := Completed | NothingToDo | Failed | WasCancelled.

Inductive Main :=
| AwaitingUnits            (* await Promise.all(...) *)
| Packaging                (* await zip.generateAsync(...) *)
| HandingOff               (* await this.triggerDownload(dataUrl) *)
| Returned (how : Ending). (* run() is over *)

(** The bindings of [run] that are never assigned after the download
    has begun. *)
Record Locals := {
  args : DownloadOptions;            (* the parameters of [run] *)
  resolvedScreens : list ScreenMeta;
  effectiveConcurrency : Z;
  effectiveThrottle : Z;
}.

Record RunState := {
  locals : Locals;
  throttler : Throttler.state nat;   (* idle and without capacity until created *)
  units : list UnitPhase;
  rejection : option Error;          (* what [Promise.all] rejects with *)
  processed : Z;
  succeeded : Z;
  failed : Z;
  zip : list (string * ArrayBuffer * option Z);
  port : list PortMessage;           (* everything posted, oldest first *)
  aborted : bool;                    (* signal.aborted *)
  main : Main;
}.

Definition set_throttler (th : Throttler.state nat) (s : RunState) : RunState :=
  {| locals := locals s; throttler := th; units := units s;
     rejection := rejection s; processed := processed s;
     succeeded := succeeded s; failed := failed s; zip := zip s;
     port := port s; aborted := aborted s; main := main s |}.

Definition set_units (us : list UnitPhase) (s : RunState) : RunState :=
  {| locals := locals s; throttler := throttler s; units := us;
     rejection := rejection s; processed := processed s;
     succeeded := succeeded s; failed := failed s; zip := zip s;
     port := port s; aborted := aborted s; main := main s |}.

Definition set_rejection (r : option Error) (s : RunState) : RunState :=
  {| locals := locals s; throttler := throttler s; units := units s;
     rejection := r; processed := processed s;
     succeeded := succeeded s; failed := failed s; zip := zip s;
     port := port s; aborted := aborted s; main := main s |}.

Definition set_counters (p su f : Z) (s : RunState) : RunState :=
  {| locals := locals s; throttler := throttler s; units := units s;
     rejection := rejection s; processed := p;
     succeeded := su; failed := f; zip := zip s;
     port := port s; aborted := aborted s; main := main s |}.

Definition set_zip (z : list (string * ArrayBuffer * option Z)) (s : RunState) : RunState :=
  {| locals := locals s; throttler := throttler s; units := units s;
     rejection := rejection s; processed := processed s;
     succeeded := succeeded s; failed := failed s; zip := z;
     port := port s; aborted := aborted s; main := main s |}.

Definition set_port (p : list PortMessage) (s : RunState) : RunState :=
  {| locals := locals s; throttler := throttler s; units := units s;
     rejection := rejection s; processed := processed s;
     succeeded := succeeded s; failed := failed s; zip := zip s;
     port := p; aborted := aborted s; main := main s |}.

Definition set_aborted (a : bool) (s : RunState) : RunState :=
  {| locals := locals s; throttler := throttler s; units := units s;
     rejection := rejection s; processed := processed s;
     succeeded := succeeded s; failed := failed s; zip := zip s;
     port := port s; aborted := a; main := main s |}.

Definition set_main (m : Main) (s : RunState) : RunState :=
  {| locals := locals s; throttler := throttler s; units := units s;
     rejection := rejection s; processed := processed s;
     succeeded := succeeded s; failed := failed s; zip := zip s;
     port := port s; aborted := aborted s; main := m |}.

(** [this.send(port, payload)] *)
Definition send (payload : PortMessage) (s : RunState) : RunState :=
  set_port (port s ++ [payload]) s.

Definition total (s : RunState) : Z :=
  Z.of_nat (length (resolvedScreens (locals s))).

Definition emitProgress (currentId : string) (s : RunState) : RunState :=
  send (ProgressPayload (processed s) (total s) currentId (succeeded s) (failed s)) s.

(** The [catch] of [run]. *)
Definition run_catch (e : Error) (s : RunState) : RunState :=
  if aborted s then
    set_main (Returned WasCancelled)
      (send CancelledPayload (send (StatusPayload "Download cancelled.") s))
  else
    set_main (Returned Failed) (send (ErrorPayload (message e)) s).

(** What [downloadWithRetry] does for [screen] while the signal stays
    quiet. *)
Definition script (l : Locals) (screen : ScreenMeta) : UnitPhase :=
  let '(completion, effects, _) :=
    downloadWithRetry boundFetch (fun _ => false) abortReason Date_parse
      (retryAttempts (args l)) (retryBaseDelayMs (args l))
      (effectiveThrottle l) screen in
  Running effects completion.

(** [task()]: the unit's function runs up to its first [await]. *)
Definition start_unit (i : nat) (s : RunState) : RunState :=
  match resolvedScreens (locals s) !! i with
  | Some screen =>
      set_units (<[i := if aborted s then Throwing else script (locals s) screen]>
                   (units s)) s
  | None => s
  end.

Definition launch (o : option nat) (s : RunState) : RunState :=
  match o with Some i => start_unit i s | None => s end.

(** [throttler(async () => ...)] for the screen of index [i]. *)
Definition submit (s : RunState) (i : nat) : RunState :=
  let '(th, o) := Throttler.enqueue i (throttler s) in
  launch o (set_throttler th (set_units (units s ++ [Queued]) s)).

(** The [finally] callback the limiter hung on a unit. *)
Definition settle (s : RunState) : RunState :=
  let '(th, o) := Throttler.release (throttler s) in
  launch o (set_throttler th s).

Definition perform (e : Effect) (s : RunState) : RunState :=
  match e with
  | Send payload => send payload s
  | ZipFile name data date => set_zip (zip s ++ [(name, data, date)]) s
  | Fetch _ | Delay _ => s
  end.

(** The unit's function after [await this.downloadWithRetry(...)]. *)
Definition complete (screen : ScreenMeta) (success : bool) (s : RunState) : RunState :=
  if success then
    emitProgress (id36 screen)
      (set_counters (processed s + 1) (succeeded s + 1) (failed s) s)
  else
    emitProgress (id36 screen)
      (send (LogPayload warn
               ("Giving up on " +:+ id36 screen +:+ " after "
                  +:+ pretty (retryAttempts (args (locals s))) +:+ " attempts."))
         (set_counters (processed s + 1) (succeeded s) (failed s + 1) s)).

Definition reject_unit (i : nat) (e : Error) (s : RunState) : RunState :=
  set_rejection (Js.nullish (rejection s) (Some e))
    (set_units (<[i := Rejected]> (units s)) s).

Definition all_fulfilled (s : RunState) : bool :=
  forallb (fun u => match u with Fulfilled => true | _ => false end) (units s).

(** What the event loop can do next.  Once the signal is aborted a
    started unit rejects at its next suspension as a rule, yet it may
    also go on (a timer armed after the abort runs to its end, a request
    may have been answered already): both are transitions here.  The
    [finally] callback of the limiter runs a few microtasks after the
    unit's function has returned; it reads and writes the limiter only,
    and callbacks of several units commute, so it is taken together with
    the end of its unit. *)
Inductive Label :=
| Abort                                (* controller.abort() *)
| Resume (i : nat)                     (* unit [i] goes on to its next effect, or to its end *)
| Reject (i : nat)                     (* unit [i] meets the aborted signal *)
| AllSettled                           (* the continuation of [await Promise.all] *)
| Generated (rejected : option Error)  (* zip.generateAsync settles *)
| Downloaded (result : string + option Z).
                                       (* the callback of chrome.downloads.download:
                                          [lastError.message] or the download id *)

Definition transition (l : Label) (s : RunState) : option RunState :=
  match l with
  | Abort => Some (set_aborted true s)
  | Resume i =>
      match units s !! i, resolvedScreens (locals s) !! i with
      | Some (Running (e :: todo) c), _ =>
          Some (set_units (<[i := Running todo c]> (units s)) (perform e s))
      | Some (Running [] (Returns success)), Some screen =>
          let s := complete screen success s in
          Some (settle (set_units (<[i := Fulfilled]> (units s)) s))
      | Some (Running [] (Throws e)), _ => Some (settle (reject_unit i e s))
      | _, _ => None
      end
  | Reject i =>
      match units s !! i with
      | Some (Running _ _) =>
          if aborted s then Some (settle (reject_unit i abortReason s)) else None
      | Some Throwing => Some (settle (reject_unit i abortReason s))
      | _ => None
      end
  | AllSettled =>
      match main s, rejection s with
      | AwaitingUnits, Some e => Some (run_catch e s)
      | AwaitingUnits, None =>
          if all_fulfilled s then
            if aborted s then Some (run_catch abortReason s)
            else Some (set_main Packaging
                         (send (StatusPayload "Packaging ZIP archive...") s))
          else None
      | _, _ => None
      end
  | Generated r =>
      match main s, r with
      | Packaging, None => Some (set_main HandingOff s)
      | Packaging, Some e => Some (run_catch e s)
      | _, _ => None
      end
  | Downloaded r =>
      match main s, r with
      | HandingOff, inr downloadId =>
          Some (set_main (Returned Completed)
                  (send (DonePayload (succeeded s) (failed s) downloadId
                           (Some (processed s)) (Some (succeeded s))) s))
      | HandingOff, inl message =>
          Some (set_main (Returned Failed) (send (ErrorPayload message) s))
      | _, _ => None
      end
  end.

Fixpoint run_labels (ls : list Label) (s : RunState) : option RunState :=
  match ls with
  | [] => Some s
  | l :: ls =>
      match transition l s with
      | Some s' => run_labels ls s'
      | None => None
      end
  end.

(** [downloadScreens] up to [await Promise.all(...)]. *)
Definition downloadScreens (s : RunState) : RunState :=
  match Throttler.createThrottler (effectiveConcurrency (locals s)) with
  | None => run_catch (new_Error "maxConcurrency must be a positive integer") s
  | Some th =>
      let s :=
        send (StatusPayload ("Downloading " +:+ pretty (total s) +:+ " screenshot(s)..."))
          (set_throttler th s) in
      foldl submit s (seq 0 (length (resolvedScreens (locals s))))
  end.

Definition large_gallery_notice (count : Z) : string :=
  "Large gallery detected (" +:+ pretty count
    +:+ " screenshots). Switching to sequential mode for stability.".

(** The state of a run that has posted [posted] and done nothing else. *)
Definition fresh (l : Locals) (posted : list PortMessage) (a : bool) (m : Main)
  : RunState :=
  {| locals := l; throttler := Throttler.State 0 0 []; units := [];
     rejection := None; processed := 0; succeeded := 0; failed := 0;
     zip := []; port := posted; aborted := a; main := m |}.

(** [run] up to its first suspension inside [downloadScreens], or to its
    end when it gets there first.  [collected] is what
    [this.client.getAllScreens(undefined, signal)] settles with, looked
    at only when the caller supplies no screens; [abortedSince] is
    [signal.aborted] during the stretch of [run] that follows, which is
    not suspended before the units are submitted (it is [false] for a
    caller that has just made the controller, as [index.ts] does, and
    supplies the screens). *)
Definition run (o : DownloadOptions) (collected : Error + list ScreenMeta)
    (abortedSince : bool) : RunState :=
  let a := abortedSince in
  let collecting :=
    match screens o with
    | Some _ => []
    | None => [StatusPayload "Collecting gallery metadata..."]
    end in
  match match screens o with Some l => inr l | None => collected end with
  | inl thrown =>
      run_catch thrown
        (fresh (Build_Locals o [] (concurrency o) (throttleDelayMs o))
           collecting a AwaitingUnits)
  | inr resolvedScreens =>
      if bool_decide (length resolvedScreens = 0%nat) then
        fresh (Build_Locals o resolvedScreens (concurrency o) (throttleDelayMs o))
          (collecting ++ [StatusPayload "No screenshots found in your gallery.";
                          DonePayload 0 0 None None None])
          a (Returned NothingToDo)
      else
        let large :=
          (Z.of_nat (length resolvedScreens) >=? LARGE_GALLERY_THRESHOLD)
          && (concurrency o >? 1) in
        let effectiveConcurrency := if large then 1 else concurrency o in
        let effectiveThrottle :=
          if large then Z.max (throttleDelayMs o) MIN_SEQUENTIAL_THROTTLE_MS
          else throttleDelayMs o in
        let downgrade :=
          if large then
            [StatusPayload (large_gallery_notice (Z.of_nat (length resolvedScreens)))]
          else [] in
        let throttled :=
          if effectiveThrottle >? 0 then
            [LogPayload info ("Throttle delay set to " +:+ pretty effectiveThrottle
                                +:+ " ms between downloads.")]
          else [] in
        downloadScreens
          (fresh (Build_Locals o resolvedScreens effectiveConcurrency effectiveThrottle)
             (collecting ++ downgrade ++ throttled
                ++ [StartPayload (Z.of_nat (length resolvedScreens)) effectiveConcurrency])
             a AwaitingUnits)
  end.
End Run.

(** ** What the claims count *)

(** The number of units that have run to their end. *)
Definition weight (u : UnitPhase) : Z :=
  match u with Fulfilled => 1 | _ => 0 end.

Fixpoint tally (us : list UnitPhase) : Z :=
  match us with
  | [] => 0
  | u :: us => weight u + tally us
  end.

Definition is_done (m : PortMessage) : bool :=
  match m with DonePayload _ _ _ _ _ => true | _ => false end.

(** The effects of [downloadWithRetry] on the port are log lines. *)
Definition logs_only (e : Effect) : Prop :=
  match e with
  | Send (LogPayload _ _) => True
  | Send _ => False
  | _ => True
  end.

(** A progress message agrees with the counters of [s]. *)
Definition reports (s : RunState) (m : PortMessage) : Prop :=
  match m with
  | ProgressPayload completed _ _ succeeded' failed' =>
      completed = processed s /\ succeeded' = succeeded s /\ failed' = failed s
  | _ => True
  end.

(** A progress message whose own counts add up. *)
Definition adds_up (m : PortMessage) : Prop :=
  match m with
  | ProgressPayload completed _ _ succeeded' failed' => completed = succeeded' + failed'
  | _ => True
  end.

(** [Promise.all] has resolved and the signal was found quiet. *)
Definition all_settled (s : RunState) : Prop :=
  main s = Packaging \/ main s = HandingOff \/ main s = Returned Completed.

(** The limiter's queue holds the indices from some [a] on, and their
    units are the ones not yet started. *)
Definition queue_shape (q : list nat) (us : list UnitPhase) : Prop :=
  exists a : nat,
    (a <= length us)%nat
    /\ q = seq a (length us - a)
    /\ forall j, (a <= j < length us)%nat -> us !! j = Some Queued.

(** What holds of a run at every moment, the submission loop included. *)
Record core_invariant (s : RunState) : Prop := {
  core_sum : processed s = succeeded s + failed s;
  core_tally : processed s = tally (units s);
  core_queue : queue_shape (Throttler.queue (throttler s)) (units s);
  core_scripts :
    forall i todo c, units s !! i = Some (Running todo c) -> Forall logs_only todo;
}.

(** [s'] differs from [s] in the units and the limiter at most. *)
Definition same_frame (s s' : RunState) : Prop :=
  locals s' = locals s /\ port s' = port s /\ main s' = main s
  /\ aborted s' = aborted s /\ rejection s' = rejection s
  /\ processed s' = processed s /\ succeeded s' = succeeded s
  /\ failed s' = failed s.

(** What holds besides once [run] has reached its first suspension. *)
Record run_invariant (s : RunState) : Prop := {
  run_core : core_invariant s;
  run_units :
    match main s with
    | Returned NothingToDo | Returned Failed | Returned WasCancelled => True
    | _ => length (units s) = length (resolvedScreens (locals s))
    end;
  run_settled : all_settled s -> all_fulfilled s = true;
  run_port :
    match main s with
    | Returned Completed =>
        exists before downloadId,
          port s = before ++ [DonePayload (succeeded s) (failed s) downloadId
                                (Some (processed s)) (Some (succeeded s))]
          /\ Forall (fun m => is_done m = false) before
    | Returned NothingToDo => True
    | _ => Forall (fun m => is_done m = false) (port s)
    end;
}.

End DownloadService.

(* ===================================================================== *)
(** * Concrete environments *)
(* ===================================================================== *)

Module CollectorScenario.
Import Js LightshotClient.

Definition shot (id : string) : LightshotScreenPayload :=
  {| payload_id36 := id; payload_url := "https://image.prntscr.com/" +:+ id;
     payload_date := Some "2024-01-01" |}.

Definition bare : LightshotResponse :=
  {| json_success := None; json_result := None; json_error := None;
     json_screens := None; json_items := None; json_next_id36 := None;
     json_next_cursor := None; json_next_token := None; json_next := None |}.

(** [{ "result": { "success": false, "screens": [ a ] } }] *)
Definition refused_with_items : LightshotResponse :=
  {| json_success := None;
     json_result := Some
       {| result_success := Some false; result_screens := Some [shot "a"];
          result_items := None; result_next_id36 := None;
          result_next_cursor := None; result_next_token := None;
          result_next := None; result_message := None; result_data := None |};
     json_error := None; json_screens := None; json_items := None;
     json_next_id36 := None; json_next_cursor := None;
     json_next_token := None; json_next := None |}.

(** [{ "success": false }] *)
Definition refused_empty : LightshotResponse :=
  {| json_success := Some false; json_result := None; json_error := None;
     json_screens := None; json_items := None; json_next_id36 := None;
     json_next_cursor := None; json_next_token := None; json_next := None |}.

(** [{ "screens": [ top ], "next": "t",
       "result": { "screens": [ inner ], "next": "r" } }] *)
Definition both_levels : LightshotResponse :=
  {| json_success := None;
     json_result := Some
       {| result_success := None; result_screens := Some [shot "inner"];
          result_items := None; result_next_id36 := None;
          result_next_cursor := None; result_next_token := None;
          result_next := Some "r"; result_message := None; result_data := None |};
     json_error := None; json_screens := Some [shot "top"]; json_items := None;
     json_next_id36 := None; json_next_cursor := None;
     json_next_token := None; json_next := Some "t" |}.

Definition replies (json : LightshotResponse) : nat -> Params -> Error + Response :=
  fun _ _ => inr {| ok := true; status := 200; json := inr json |}.

(** A listing of two screens without continuation cursor: the first
    request gets both, the one that starts at ["b"] gets none. *)
Definition two_screens : nat -> Params -> Error + Response :=
  fun _ params =>
    inr {| ok := true; status := 200;
           json := inr
             match start_id36 params with
             | StartZero =>
                 {| json_success := Some true; json_result := None; json_error := None;
                    json_screens := Some [shot "a"; shot "b"]; json_items := None;
                    json_next_id36 := None; json_next_cursor := None;
                    json_next_token := None; json_next := None |}
             | StartAt _ => bare
             end |}.
End CollectorScenario.

Module DownloadScenario.
Import Js DownloadService.

Definition shot (id : string) : ScreenMeta :=
  {| id36 := id; url := "https://image.prntscr.com/" +:+ id; date := "" |}.

(** 403 with [{ "code": "account_trouble" }] *)
Definition missing : Response :=
  {| ok := false; status := 403;
     json := Some (JObject [("code", JString "account_trouble")]);
     arrayBuffer := inr [] |}.

Definition unavailable : Response :=
  {| ok := false; status := 503; json := None; arrayBuffer := inr [] |}.

Definition image : Response :=
  {| ok := true; status := 200; json := None; arrayBuffer := inr [] |}.

(** The screen ["gone"] is missing upstream; ["slow"] is served at the
    third attempt; every other screen is served at once. *)
Definition server (url : string) (attempt : Z) : Error + Response :=
  if String.eqb url "https://image.prntscr.com/gone" then inr missing
  else if String.eqb url "https://image.prntscr.com/slow"
       then (if attempt <? 3 then inr unavailable else inr image)
  else inr image.

Definition no_dates (value : string) : option Z := None.

Definition options (concurrency : Z) (screens : list ScreenMeta) : DownloadOptions :=
  {| concurrency := concurrency; retryAttempts := 3; retryBaseDelayMs := 500;
     throttleDelayMs := 0; screens := Some screens |}.

(** One screen, its unit resumed until it ends, then the archive made
    and handed over. *)
Definition one_unit (effects : nat) (downloadId : option Z) : list Label :=
  replicate (S effects) (Resume 0) ++ [AllSettled; Generated None; Downloaded (inr downloadId)].

(** A run over the one screen ["ok"], served at once. *)
Definition served_run : option RunState :=
  run_labels server new_AbortError no_dates (one_unit 2 (Some 7))
    (run server new_AbortError no_dates (options 2 [shot "ok"]) (inr []) false).

(** A run over the one screen ["gone"], missing upstream. *)
Definition missing_run : option RunState :=
  run_labels server new_AbortError no_dates (one_unit 2 (Some 7))
    (run server new_AbortError no_dates (options 2 [shot "gone"]) (inr []) false).

(** A run over no screen at all. *)
Definition empty_run : RunState :=
  run server new_AbortError no_dates (options 2 []) (inr []) false.
End DownloadScenario.

(* ===================================================================== *)
(** * Further code of the same files, and what is observed of it *)
(* ===================================================================== *)

Module ThrottlerTrace.
Section WithTask.
Context {Task : Type} `{EqDecision Task}.

(** The units whose promise has settled, in the order they did. *)
Definition settles (evs : list (Throttler.event Task)) : list Task :=
  omap (fun e => match e with
                 | Throttler.Settle t => Some t
                 | Throttler.Submit _ => None
                 end) evs.
End WithTask.
End ThrottlerTrace.

(** ** src/background/index.ts: the port listener *)

Module BackgroundPort.
Import Js Background.

Section Listener.
Context {Object Screens : Type}.
Context (StringToNumber : string -> number) (ObjectToNumber : Object -> number).

(** A message as the [switch (message?.type)] tells them apart. *)
Inductive Message :=
| Download (options : @DownloadMessage Object Screens)
| Cancel
| Other.

(** What can happen on a connected port. *)
Inductive Event :=
| OnMessage (m : Message)
| OnDisconnect
| Settled (rejected : option string).
    (* the promise of [downloadService.run] settles; [Some message] when
       it rejects with an [Error] of that message *)

(** What the listener does to the outside. *)
Inductive Action :=
| PostError (message : string)
| CallRun (args : @RunArguments Screens).

(** The two variables of the [onConnect] closure: [controller] holds
    [signal.aborted] of the controller, if there is one.  [inFlight]
    counts the calls of [run] that have not settled; the code does not
    read it. *)
Record state := {
  controller : option bool;
  activeTask : bool;
  inFlight : nat;
}.

Definition initial : state :=
  {| controller := None; activeTask := false; inFlight := 0 |}.

(** [cleanup] *)
Definition cleanup (s : state) : state :=
  {| controller := None; activeTask := false; inFlight := inFlight s |}.

(** [startDownload] *)
Definition startDownload (options : DownloadMessage) (s : state)
  : state * list Action :=
  match Background.startDownload StringToNumber ObjectToNumber (activeTask s) options with
  | AlreadyRunning message => (s, [PostError message])
  | Run args =>
      ({| controller := Some false; activeTask := true; inFlight := S (inFlight s) |},
       [CallRun args])
  end.

(** [cancelDownload] *)
Definition cancelDownload (s : state) : state :=
  match controller s with
  | None => s
  | Some _ =>
      {| controller := Some true; activeTask := activeTask s; inFlight := inFlight s |}
  end.

(** One event; [None] when no call of [run] is there to settle. *)
Definition handle (e : Event) (s : state) : option (state * list Action) :=
  match e with
  | OnMessage (Download options) => Some (startDownload options s)
  | OnMessage Cancel => Some (cancelDownload s, [])
  | OnMessage Other => Some (s, [])
  | OnDisconnect => Some (cancelDownload s, [])
  | Settled rejected =>
      match inFlight s with
      | O => None
      | S n =>
          let posted :=
            match rejected, controller s with
            | Some message, Some true => []
            | Some message, _ => [PostError message]
            | None, _ => []
            end in
          Some (cleanup {| controller := controller s; activeTask := activeTask s;
                           inFlight := n |}, posted)
      end
  end.

Fixpoint handle_all (evs : list Event) (s : state) : option (state * list Action) :=
  match evs with
  | [] => Some (s, [])
  | e :: evs =>
      match handle e s with
      | Some (s', out) =>
          match handle_all evs s' with
          | Some (s'', out') => Some (s'', out ++ out')
          | None => None
          end
      | None => None
      end
  end.

(** The calls of [run] among the actions, and the settlements among
    the events. *)
Definition calls (out : list Action) : list RunArguments :=
  omap (fun a => match a with CallRun args => Some args | PostError _ => None end) out.

Definition settlements (evs : list Event) : list (option string) :=
  omap (fun e => match e with Settled r => Some r | _ => None end) evs.

(** What holds between two events. *)
Definition listener_invariant (s : state) : Prop :=
  (inFlight s <= 1)%nat
  /\ activeTask s = bool_decide (inFlight s = 1%nat)
  /\ (controller s = None <-> inFlight s = 0%nat).
End Listener.
End BackgroundPort.

(** ** The control panel and the content script (callers of the background
    listener): how a request is made *)

Module Panel.
Import Js.

Definition DEFAULT_CONCURRENCY : number := of_Z 4.
Definition DEFAULT_THROTTLE_MS : number := of_Z 150.
Definition MAX_THROTTLE_MS : number := of_Z 5000.

(** [interface DownloadRequest] *)
Record DownloadRequest := {
  concurrency : number;
  sequential : bool;
  throttleMs : number;
}.

Section Inputs.
(** [Number(input.value)] on the text of an input element. *)
Context (StringToNumber : string -> number).

Definition getConcurrencyValue (concurrencyInput : string) : number :=
  let value := StringToNumber concurrencyInput in
  if negb (Number_isFinite value) then DEFAULT_CONCURRENCY
  else Math_min (of_Z 10) (Math_max (of_Z 1) (Math_floor value)).

Definition getThrottleValue (throttleInput : string) : number :=
  let value := StringToNumber throttleInput in
  if negb (Number_isFinite value) || lt value (of_Z 0) then of_Z 0
  else Math_min (Math_floor value) MAX_THROTTLE_MS.

(** [getDownloadRequest], from the state of the three inputs. *)
Definition getDownloadRequest (sequentialChecked : bool)
    (concurrencyInput throttleInput : string) : DownloadRequest :=
  let sequential := sequentialChecked in
  let concurrency := if sequential then of_Z 1 else getConcurrencyValue concurrencyInput in
  let throttleMs := getThrottleValue throttleInput in
  {| concurrency := concurrency; sequential := sequential; throttleMs := throttleMs |}.
End Inputs.

(** The [download] message the content script posts for a request. *)
Definition download_message {Object Screens : Type} (request : DownloadRequest)
    (screens : Screens) : @Background.DownloadMessage Object Screens :=
  {| Background.concurrency := Num (concurrency request);
     Background.sequential := Bool (sequential request);
     Background.throttleMs := Num (throttleMs request);
     Background.screens := Some screens |}.
End Panel.

(** ** A listing that never ends *)

Module EndlessScenario.
Import Js LightshotClient.

(** A server that answers every request with one screen and a cursor
    that differs from the one it was asked with: ["y"] after ["x"],
    ["x"] otherwise. *)
Definition endless : nat -> Params -> Error + Response :=
  fun _ params =>
    inr {| ok := true; status := 200;
           json := inr
             {| json_success := Some true; json_result := None; json_error := None;
                json_screens := Some [CollectorScenario.shot "a"]; json_items := None;
                json_next_id36 := None;
                json_next_cursor :=
                  Some match start_id36 params with
                       | StartAt cursor => if String.eqb cursor "x" then "y" else "x"
                       | StartZero => "x"
                       end;
                json_next_token := None; json_next := None |} |}.
End EndlessScenario.

(** ** What one call of [downloadWithRetry] leaves behind *)

Module FetcherTrace.
Import Js DownloadService.

(** The files stored in the archive, the messages posted, and the time
    asked of [delay], by a list of effects. *)
Definition zipped (effects : list Effect) : list (string * ArrayBuffer * option Z) :=
  omap (fun e => match e with
                 | ZipFile name data date => Some (name, data, date)
                 | _ => None
                 end) effects.

Definition logged (effects : list Effect) : list PortMessage :=
  omap (fun e => match e with Send payload => Some payload | _ => None end) effects.

Definition waited (effects : list Effect) : Z :=
  foldr (fun e total => match e with Delay ms => ms + total | _ => total end) 0 effects.

Section Item.
Context (boundFetch : string -> Z -> Error + Response)
        (retryAttempts retryBaseDelayMs : Z) (screen : ScreenMeta).

(** [k] attempts from [attempt] on that fail and are retried: the
    request, the warning and the backoff of each. *)
Fixpoint retries (k : nat) (attempt : Z) : list Effect :=
  match k with
  | O => []
  | S k =>
      match attempt_error boundFetch screen attempt with
      | Some e =>
          [Fetch (url screen);
           Send (LogPayload warn (retry_message retryAttempts screen attempt e));
           Delay (retryBaseDelayMs * 2 ^ (attempt - 1))]
      | None => []
      end ++ retries k (attempt + 1)
  end.

(** [buffer] is the body of an ok response to the request of attempt
    [k]. *)
Definition served (k : Z) (buffer : ArrayBuffer) : Prop :=
  exists response,
    boundFetch (url screen) k = inr response
    /\ ok response = true /\ arrayBuffer response = inr buffer.

(** The file a download of [screen] stores. *)
Definition stored (Date_parse : string -> option Z) (buffer : ArrayBuffer)
  : string * ArrayBuffer * option Z :=
  ("screenshot_" +:+ id36 screen +:+ ".png", buffer,
   parseLightshotDate Date_parse (date screen)).
End Item.
End FetcherTrace.

(** ** What a run leaves behind *)

Module RunTrace.
Import Js DownloadService FetcherTrace.

Definition sum_of (w : UnitPhase -> Z) (us : list UnitPhase) : Z :=
  foldr (fun u total => w u + total) 0 us.

(** A unit inside its function: started by the limiter, not settled. *)
Definition busy (u : UnitPhase) : Z :=
  match u with Running _ _ | Throwing => 1 | _ => 0 end.

Definition in_flight (us : list UnitPhase) : Z := sum_of busy us.

(** The files a unit has stored in the archive and not yet counted as a
    success. *)
Definition owed (u : UnitPhase) : Z :=
  match u with
  | Running todo (Returns true) => 1 - Z.of_nat (length (zipped todo))
  | _ => 0
  end.

Definition rejected (u : UnitPhase) : Z :=
  match u with Rejected => 1 | _ => 0 end.

(** A unit that will return [true] has one file to store or has stored
    it; any other has none to store. *)
Definition zip_ok (u : UnitPhase) : Prop :=
  match u with
  | Running todo (Returns true) => (length (zipped todo) <= 1)%nat
  | Running todo _ => zipped todo = []
  | _ => True
  end.

(** The [completed] fields of the [progress] messages, in order. *)
Definition completions (posted : list PortMessage) : list Z :=
  omap (fun m => match m with
                 | ProgressPayload completed _ _ _ _ => Some completed
                 | _ => None
                 end) posted.

Definition count_up (n : Z) : list Z := Z.of_nat <$> seq 1 (Z.to_nat n).

(** A [progress] message carries this [total]. *)
Definition of_total (total : Z) (m : PortMessage) : Prop :=
  match m with
  | ProgressPayload _ total' _ _ _ => total' = total
  | _ => True
  end.

(** The messages that end a run for the content script. *)
Definition terminals (posted : list PortMessage) : list PortMessage :=
  omap (fun m => match m with
                 | DonePayload _ _ _ _ _ | ErrorPayload _ | CancelledPayload => Some m
                 | _ => None
                 end) posted.

(** The message that goes with each way [run] ends. *)
Definition ends (how : Ending) (m : PortMessage) : Prop :=
  match how, m with
  | Completed, DonePayload _ _ _ (Some _) (Some _) => True
  | NothingToDo, DonePayload total failed None None None => total = 0 /\ failed = 0
  | Failed, ErrorPayload _ => True
  | WasCancelled, CancelledPayload => True
  | _, _ => False
  end.

(** The limiter and the units: [activeCount] is the number of units
    inside their function, [behind] more while a unit that has come to
    its end has not yet given its slot back. *)
Record limiter_ok (behind : Z) (s : RunState) : Prop := {
  limiter_active : Throttler.activeCount (throttler s) = in_flight (units s) + behind;
  limiter_bound : Throttler.activeCount (throttler s) <= Throttler.maxConcurrency (throttler s);
  limiter_capacity :
    units s = []
    \/ Throttler.maxConcurrency (throttler s) = effectiveConcurrency (locals s);
  limiter_length : (length (units s) <= length (resolvedScreens (locals s)))%nat;
  limiter_prefix :
    forall j u, units s !! j = Some u ->
      (u = Queued
       <-> (length (units s) - length (Throttler.queue (throttler s)) <= j)%nat);
}.

(** The archive, the counters and the port. *)
Record ledger_ok (s : RunState) : Prop := {
  ledger_zip_ok : Forall zip_ok (units s);
  ledger_zip :
    succeeded s + sum_of owed (units s) <= Z.of_nat (length (zip s))
    /\ Z.of_nat (length (zip s))
       <= succeeded s + sum_of owed (units s) + sum_of rejected (units s);
  ledger_counts : 0 <= succeeded s /\ 0 <= failed s /\ 0 <= processed s;
  ledger_progress : completions (port s) = count_up (processed s);
  ledger_totals : Forall (of_total (total s)) (port s);
  ledger_terminal :
    match main s with
    | Returned how => exists m, terminals (port s) = [m] /\ ends how m
    | _ => terminals (port s) = []
    end;
}.

Definition trace_invariant (s : RunState) : Prop :=
  limiter_ok 0 s /\ ledger_ok s.

(** The unit keeps away from the server: it has not been started, or
    was started only to throw. *)
Definition held_back (u : UnitPhase) : Prop :=
  u = Queued \/ u = Throwing \/ u = Rejected.

(** ** The content script's reading of a [done] message *)

(** The [done] case of [handleMessage]:
    [processed = message.processed ?? message.total ?? 0],
    [succeeded = message.succeeded ?? message.total ?? processed - (message.failed ?? 0)],
    [failed = message.failed ?? 0].  The fields [total] and [failed] are
    present in every [done] message the background posts. *)
Definition read_done (m : PortMessage) : option (Z * Z * Z) :=
  match m with
  | DonePayload total failed _ processed succeeded =>
      let processed' := default 0 (nullish processed (Some total)) in
      let succeeded' :=
        default (processed' - default 0 (Some failed))
          (nullish succeeded (Some total)) in
      let failed' := default 0 (Some failed) in
      Some (processed', succeeded', failed')
  | _ => None
  end.
End RunTrace.

(** ** A run that is cancelled *)

Module CancelScenario.
Import Js DownloadService.

(** Three screens, two at a time.  The first unit has made its request
    when the signal is aborted; the third still waits in the queue. *)
Definition three : DownloadOptions :=
  DownloadScenario.options 2
    [DownloadScenario.shot "a"; DownloadScenario.shot "b"; DownloadScenario.shot "c"].

Definition cancelled : list Label := [Resume 0; Abort].

(** The three units meet the aborted signal one after the other, then
    [Promise.all] is found rejected. *)
Definition wound_up : list Label := [Reject 0; Reject 1; Reject 2; AllSettled].
End CancelScenario.

(** ** src/background/downloadService.ts: [encodeToBase64] and [delay] *)

Module Base64.
(** [const chunkSize = 0x8000] *)
Definition chunkSize : nat := Z.to_nat 32768.

(** [String.fromCharCode(...chunk)]: one code unit per byte. *)
Definition fromCharCode (chunk : list Byte.byte) : string :=
  String.string_of_list_byte chunk.

(** [bytes.subarray(begin, end)] *)
Definition subarray (bytes : list Byte.byte) (first last : nat) : list Byte.byte :=
  take (last - first) (drop first bytes).

Section Encode.
(** [btoa], of a binary string. *)
Context (btoa : string -> string).

(** The [for] loop entered with [offset] and [binary]; [None] when the
    fuel runs out before the loop ends. *)
Fixpoint encode_loop (fuel : nat) (bytes : list Byte.byte) (offset : nat)
    (binary : string) : option string :=
  match fuel with
  | O => None
  | S fuel =>
      if (offset <? length bytes)%nat then
        let chunk := subarray bytes offset (offset + chunkSize) in
        encode_loop fuel bytes (offset + chunkSize) (binary +:+ fromCharCode chunk)
      else Some binary
  end.

Definition encodeToBase64 (fuel : nat) (bytes : list Byte.byte) : option string :=
  btoa <$> encode_loop fuel bytes 0 "".
End Encode.
End Base64.

Module Delay.
Import Js.

Inductive Settlement := Resolves | Rejects (e : Error).

(** The promise made by [delay(ms, signal)] with what its executor set
    up: the variable [settled], whether the timeout is pending, whether
    [onAbort] is registered on the signal, and what the promise has
    settled with. *)
Record state := {
  settled : bool;
  timer : bool;
  listener : bool;
  promise : option Settlement;
}.

(** [resolve] and [reject] do nothing to a promise that has settled. *)
Definition settle (v : Settlement) (p : option Settlement) : option Settlement :=
  match p with Some _ => p | None => Some v end.

(** The executor. *)
Definition delay (ms : Z) : state :=
  if ms <=? 0 then
    {| settled := false; timer := false; listener := false; promise := Some Resolves |}
  else
    {| settled := false; timer := true; listener := true; promise := None |}.

(** The timeout runs out, or the signal dispatches [abort]. *)
Inductive Event := Timeout | AbortEvent.

(** The callback of the event; [None] when there is none to call: the
    timeout was cleared or has fired, the listener was removed or has
    been called ([once: true]). *)
Definition step (e : Event) (s : state) : option state :=
  match e with
  | Timeout =>
      if timer s then
        if settled s then
          Some {| settled := true; timer := false; listener := listener s;
                  promise := promise s |}
        else
          Some {| settled := true; timer := false; listener := false;
                  promise := settle Resolves (promise s) |}
      else None
  | AbortEvent =>
      if listener s then
        if settled s then
          Some {| settled := true; timer := timer s; listener := false;
                  promise := promise s |}
        else
          Some {| settled := true; timer := false; listener := false;
                  promise := settle (Rejects DownloadService.new_AbortError) (promise s) |}
      else None
  end.

Fixpoint steps (evs : list Event) (s : state) : option state :=
  match evs with
  | [] => Some s
  | e :: evs =>
      match step e s with
      | Some s' => steps evs s'
      | None => None
      end
  end.
End Delay.
(* ===================================================================== *)
(** * The concurrency limiter *)
(* ===================================================================== *)

Section ThrottlerFacts.
Import Throttler.
Context {Task : Type} `{EqDecision Task}.
Implicit Types (s : sys Task) (e : event Task) (t : Task).

Lemma remove_first_length t l :
  t ∈ l -> length l = S (length (remove_first t l)).
Proof.
  induction l as [|x l IH]; intros Hin.
  - by apply elem_of_nil in Hin.
  - cbn. destruct (decide (x = t)) as [->|Hne]; [done|].
    apply elem_of_cons in Hin as [->|Hin]; [done|].
    cbn. by rewrite <- IH.
Qed.

Lemma invariant_init N (s0 : state Task) : createThrottler N = Some s0 -> invariant (init s0).
Proof.
  unfold createThrottler. destruct (N <? 1) eqn:HN; [done|].
  intros [= <-]. apply Z.ltb_ge in HN.
  split; cbn; try done. lia.
Qed.

Lemma max_init N (s0 : state Task) : createThrottler N = Some s0 -> maxConcurrency s0 = N.
Proof.
  unfold createThrottler. destruct (N <? 1); [done|]. by intros [= <-].
Qed.

Lemma exec_max e s s' :
  exec e s = Some s' -> maxConcurrency (thr s') = maxConcurrency (thr s).
Proof.
  destruct e as [t|t]; cbn.
  - unfold enqueue, next; cbn.
    destruct (activeCount (thr s) >=? maxConcurrency (thr s)).
    + by intros [= <-].
    + destruct (queue (thr s) ++ [t]); by intros [= <-].
  - destruct (decide (t ∈ executing s)); [|done].
    unfold release, next; cbn.
    destruct (activeCount (thr s) - 1 >=? maxConcurrency (thr s)).
    + by intros [= <-].
    + destruct (queue (thr s)); by intros [= <-].
Qed.

Lemma exec_submitted e s s' :
  exec e s = Some s' ->
  submitted s' = submitted s ++ submits [e].
Proof.
  destruct e as [t|t]; cbn.
  - destruct (enqueue t (thr s)). by intros [= <-].
  - destruct (decide (t ∈ executing s)); [|done].
    destruct (release (thr s)). intros [= <-]. cbn. by rewrite app_nil_r.
Qed.

Lemma invariant_exec e s s' :
  invariant s -> exec e s = Some s' -> invariant s'.
Proof.
  destruct s as [[m a q] ex st sub].
  intros [Hc Hb Hf Hq] He; cbn in *.
  destruct e as [t|t]; cbn in He.
  - unfold enqueue, next in He; cbn in He.
    destruct (a >=? m) eqn:Hfull.
    + injection He as <-. apply Z.geb_le in Hfull.
      split; cbn; rewrite ?app_nil_r; try done.
      * rewrite <- Hf. by rewrite app_assoc.
      * intros _. lia.
    + rewrite Z.geb_leb in Hfull. apply Z.leb_gt in Hfull.
      assert (Hempty : q = []).
      { destruct q; [done|]. assert (a = m) by by apply Hq. lia. }
      subst q. cbn in He. injection He as <-.
      rewrite app_nil_r in Hf.
      split; cbn.
      * rewrite length_app; cbn. lia.
      * lia.
      * rewrite app_nil_r. by rewrite Hf.
      * done.
  - destruct (decide (t ∈ ex)) as [Hin|]; [|done].
    apply remove_first_length in Hin.
    unfold release, next in He; cbn in He.
    destruct (a - 1 >=? m) eqn:Hfull.
    { apply Z.geb_le in Hfull. lia. }
    destruct q as [|u q]; injection He as <-.
    + rewrite app_nil_r in Hf.
      split; cbn; rewrite ?app_nil_r; try done; lia.
    + assert (a = m) by by apply Hq.
      split; cbn.
      * rewrite length_app; cbn. lia.
      * lia.
      * rewrite <- Hf. by rewrite <- app_assoc.
      * intros _. lia.
Qed.

Lemma invariant_run evs : forall s s',
  invariant s -> run_events evs s = Some s' ->
  invariant s'
  /\ maxConcurrency (thr s') = maxConcurrency (thr s)
  /\ submitted s' = submitted s ++ submits evs.
Proof.
  induction evs as [|e evs IH]; intros s s' Hinv Hrun; cbn in Hrun.
  - injection Hrun as <-. by rewrite app_nil_r.
  - destruct (exec e s) as [s1|] eqn:He; [|done].
    destruct (IH s1 s' (invariant_exec _ _ _ Hinv He) Hrun) as (Hi & Hm & Hs).
    split; [done|]. split.
    + rewrite Hm. by eapply exec_max.
    + rewrite Hs, (exec_submitted _ _ _ He). rewrite <- app_assoc. f_equal.
      destruct e; cbn; done.
Qed.

Lemma exec_settle t s s' :
  invariant s -> exec (Settle t) s = Some s' ->
  t ∈ executing s
  /\ executing s' = remove_first t (executing s) ++ take 1 (queue (thr s))
  /\ started s' = started s ++ take 1 (queue (thr s))
  /\ queue (thr s') = drop 1 (queue (thr s)).
Proof.
  destruct s as [[m a q] ex st sub].
  intros [Hc Hb Hf Hq]; cbn in *.
  destruct (decide (t ∈ ex)) as [Hin|]; [|done].
  pose proof (remove_first_length _ _ Hin) as Hlen.
  unfold release, next; cbn.
  destruct (a - 1 >=? m) eqn:Hfull.
  { apply Z.geb_le in Hfull. lia. }
  destruct q as [|u q]; intros [= <-]; cbn; by rewrite ?take_0.
Qed.

Lemma exec_submit t s s' :
  exec (Submit t) s = Some s' ->
  exists adm, executing s' = executing s ++ adm.
Proof.
  cbn. destruct (enqueue t (thr s)) as [th o]. intros [= <-]. cbn. eauto.
Qed.

(** C1.  For every capacity [N >= 1] and every sequence of submissions
    and settlements, the limiter made by [createThrottler N] has at most
    [N] units executing, as many as [activeCount] says; the units started
    so far followed by the queue are the submissions in their order, so
    queued units start first come, first served; nothing waits while a slot
    is free; a submission releases no slot; and the settling of a unit
    frees its slot and at once starts the head of the queue, if there is
    one. *)
Theorem throttler_bounded_fifo (N : Z) (evs : list (event Task))
    (s0 : state Task) s :
  1 <= N ->
  createThrottler N = Some s0 ->
  run_events evs (init s0) = Some s ->
  (Z.of_nat (length (executing s)) <= N
   /\ activeCount (thr s) = Z.of_nat (length (executing s)))
  /\ started s ++ queue (thr s) = submits evs
  /\ (queue (thr s) <> [] -> Z.of_nat (length (executing s)) = N)
  /\ forall e s', exec e s = Some s' ->
       match e with
       | Submit t => exists adm, executing s' = executing s ++ adm
       | Settle t =>
           t ∈ executing s
           /\ executing s' = remove_first t (executing s) ++ take 1 (queue (thr s))
           /\ started s' = started s ++ take 1 (queue (thr s))
           /\ queue (thr s') = drop 1 (queue (thr s))
       end.
Proof.
  intros _ Hnew Hrun.
  destruct (invariant_run evs _ _ (invariant_init _ _ Hnew) Hrun) as (Hinv & Hmax & Hsub).
  cbn in Hmax, Hsub. rewrite (max_init _ _ Hnew) in Hmax.
  pose proof Hinv as [Hc Hb Hf Hq]. rewrite Hmax in Hb, Hq.
  repeat split.
  - lia.
  - done.
  - by rewrite Hf.
  - intros Hne. rewrite <- Hc. by apply Hq.
  - intros [t|t] s' He.
    + by eapply exec_submit.
    + by eapply exec_settle.
Qed.
End ThrottlerFacts.

(** Capacity 2, three submissions, then the first unit settles: the third
    unit waited and is started by the settlement. *)
Lemma throttler_bounded_fifo_witness :
  let evs := [Throttler.Submit 1%nat; Throttler.Submit 2%nat;
              Throttler.Submit 3%nat; Throttler.Settle 1%nat] in
  exists s,
    Throttler.run_events evs (Throttler.init (Throttler.State 2 0 [])) = Some s
    /\ Throttler.executing s = [2%nat; 3%nat]
    /\ Z.of_nat (length (Throttler.executing s)) <= 2
    /\ Throttler.started s ++ Throttler.queue (Throttler.thr s) = [1%nat; 2%nat; 3%nat].
Proof.
  intros evs.
  exists (Throttler.Sys (Throttler.State 2 2 []) [2%nat; 3%nat]
            [1%nat; 2%nat; 3%nat] [1%nat; 2%nat; 3%nat]).
  split; [reflexivity|]. split; [reflexivity|].
  pose proof (throttler_bounded_fifo 2 evs (Throttler.State 2 0 []) _
                ltac:(lia) eq_refl eq_refl) as ((Hb & _) & Hf & _).
  split; [exact Hb | exact Hf].
Defined.

(* ===================================================================== *)
(** * The background handler *)
(* ===================================================================== *)

Section NumberFacts.
Import Js.

Lemma Qle_bool_inject_Z (a b : Z) :
  Qle_bool (inject_Z a) (inject_Z b) = (a <=? b).
Proof. unfold Qle_bool, inject_Z; cbn. by rewrite !Z.mul_1_r. Qed.

Lemma Qeq_bool_inject_Z (a b : Z) :
  Qeq_bool (inject_Z a) (inject_Z b) = (a =? b).
Proof. unfold Qeq_bool, inject_Z; cbn. by rewrite !Z.mul_1_r. Qed.

Lemma Math_max_of_Z (a b : Z) : Math_max (of_Z a) (of_Z b) = of_Z (Z.max a b).
Proof.
  unfold Math_max, of_Z. rewrite Qle_bool_inject_Z.
  destruct (a <=? b) eqn:Hab.
  - apply Z.leb_le in Hab. by rewrite Z.max_r.
  - apply Z.leb_gt in Hab. rewrite Z.max_l; [done|lia].
Qed.

Lemma Math_min_of_Z (a b : Z) : Math_min (of_Z a) (of_Z b) = of_Z (Z.min a b).
Proof.
  unfold Math_min, of_Z. rewrite Qle_bool_inject_Z.
  destruct (a <=? b) eqn:Hab.
  - apply Z.leb_le in Hab. by rewrite Z.min_l.
  - apply Z.leb_gt in Hab. rewrite Z.min_r; [done|lia].
Qed.

Lemma strict_eq_of_Z (a b : Z) : strict_eq (of_Z a) (of_Z b) = (a =? b).
Proof. apply Qeq_bool_inject_Z. Qed.

Lemma Qfloor_nonneg (q : Q) : Qle_bool 0 q = true -> 0 <= Qfloor q.
Proof.
  intros Hq. apply Qle_bool_iff in Hq.
  change 0 with (Qfloor 0). by apply Qfloor_resp_le.
Qed.
End NumberFacts.

Section BackgroundFacts.
Import Js Background.
Context {Object Screens : Type}.
Context (StringToNumber : string -> number) (ObjectToNumber : Object -> number).

Local Abbreviation message := (@DownloadMessage Object Screens).
Local Abbreviation Number := (Js.Number StringToNumber ObjectToNumber).
Local Abbreviation normalizeConcurrency :=
  (Background.normalizeConcurrency StringToNumber ObjectToNumber).
Local Abbreviation normalizeThrottle :=
  (Background.normalizeThrottle StringToNumber ObjectToNumber).
Local Abbreviation expected_concurrency :=
  (Background.expected_concurrency StringToNumber ObjectToNumber).
Local Abbreviation expected_throttle :=
  (Background.expected_throttle StringToNumber ObjectToNumber).

Lemma normalizeConcurrency_spec (v : value Object) :
  normalizeConcurrency v = of_Z (expected_concurrency v)
  /\ 1 <= expected_concurrency v <= 10.
Proof.
  unfold Background.normalizeConcurrency, Background.expected_concurrency.
  destruct (Number v) as [| | |q]; cbv [Number_isFinite negb Math_floor];
    try (split; [done|lia]).
  change (Finite (inject_Z ?z)) with (of_Z z).
  rewrite Math_max_of_Z, Math_min_of_Z. unfold clamp. split; [done|lia].
Qed.

Lemma normalizeThrottle_spec (v : value Object) :
  normalizeThrottle v = of_Z (expected_throttle v)
  /\ 0 <= expected_throttle v <= 5000.
Proof.
  unfold Background.normalizeThrottle, Background.expected_throttle.
  destruct (Number v) as [| | |q];
    cbv [Number_isFinite negb Math_floor orb lt of_Z];
    try (split; [done|lia]).
  change (inject_Z 0) with (0%Q).
  destruct (Qle_bool 0 q) eqn:Hq.
  - change (Finite (inject_Z ?z)) with (of_Z z). unfold MAX_THROTTLE_MS.
    rewrite Math_min_of_Z. apply Qfloor_nonneg in Hq. split; [done|lia].
  - split; [done|lia].
Qed.

(** C10.  Whatever the [concurrency], [sequential] and [throttleMs]
    fields of a [download] message hold, [startDownload] (no run being
    under way) calls [run] with an integer concurrency between 1 and 10
    and an integer throttle delay between 0 and 5000 ms.  The normalised
    concurrency is 4 when [Number(value)] is not finite and its floor
    clamped to [1, 10] otherwise; the normalised throttle is 0 when
    [Number(value)] is not finite or negative and its floor capped at 5000
    otherwise; a truthy [sequential] makes the concurrency 1; and when the
    concurrency passed on is 1 the throttle passed on is the larger of
    the normalised throttle and 150. *)
Theorem startDownload_in_range (options : message) :
  exists (args : RunArguments) (c t : Z),
    startDownload StringToNumber ObjectToNumber false options = Run args
    /\ run_concurrency args = of_Z c /\ 1 <= c <= 10
    /\ run_throttleDelayMs args = of_Z t /\ 0 <= t <= 5000
    /\ normalizeConcurrency (concurrency options)
       = of_Z (match Number (concurrency options) with
               | Finite q => Z.min 10 (Z.max 1 (Qfloor q))
               | _ => 4
               end)
    /\ normalizeThrottle (throttleMs options)
       = of_Z (match Number (throttleMs options) with
               | Finite q => if Qle_bool 0 q then Z.min (Qfloor q) 5000 else 0
               | _ => 0
               end)
    /\ c = (if Boolean (sequential options) then 1
            else expected_concurrency (concurrency options))
    /\ t = (if bool_decide (Boolean (sequential options) = true \/ c = 1)
            then Z.max (expected_throttle (throttleMs options)) 150
            else expected_throttle (throttleMs options))
    /\ (Boolean (sequential options) = true \/ c = 1 -> 150 <= t).
Proof.
  destruct (normalizeConcurrency_spec (concurrency options)) as [Hc Hcr].
  destruct (normalizeThrottle_spec (throttleMs options)) as [Ht Htr].
  set (c := if Boolean (sequential options) then 1
            else expected_concurrency (concurrency options)).
  set (t0 := expected_throttle (throttleMs options)) in *.
  set (t := if c =? 1 then Z.max t0 150 else t0).
  assert (Hconc : (if Boolean (sequential options) then of_Z 1
                   else normalizeConcurrency (concurrency options)) = of_Z c).
  { unfold c. by destruct (Boolean (sequential options)). }
  assert (Hdec : bool_decide (Boolean (sequential options) = true \/ c = 1) = (c =? 1)).
  { destruct (Z.eqb_spec c 1) as [Hc1|Hc1].
    - apply bool_decide_eq_true. by right.
    - apply bool_decide_eq_false. intros [Hs|]; [|done].
      apply Hc1. unfold c. by rewrite Hs. }
  eexists _, c, t. split; [reflexivity|]. cbn.
  rewrite Hconc, Ht, strict_eq_of_Z. unfold DEFAULT_SEQUENTIAL_THROTTLE_MS.
  rewrite Math_max_of_Z. fold t0.
  split; [done|]. split.
  { unfold c. destruct (Boolean (sequential options)); lia. }
  split; [unfold t; by destruct (c =? 1)|].
  split; [unfold t; destruct (c =? 1); lia|].
  split; [exact Hc|]. split; [reflexivity|]. split; [done|].
  split; [by rewrite Hdec|].
  intros Hor. unfold t.
  assert (c = 1) as ->; [|cbn; lia].
  destruct Hor as [Hs|]; [|done]. unfold c. by rewrite Hs.
Qed.
End BackgroundFacts.

(* ===================================================================== *)
(** * The metadata collector *)
(* ===================================================================== *)


Section CollectorFacts.
Import Js LightshotClient.
Local Infix "??" := nullish (at level 67, right associativity).

Lemma nullish_assoc {A} (a b c : option A) : (a ?? b) ?? c = a ?? b ?? c.
Proof. by destruct a. Qed.

Lemma candidateScreens_levels json :
  candidateScreens json
  = default [] (items_under_result json ?? items_under_data json ?? items_direct json).
Proof.
  unfold candidateScreens, items_under_result, items_under_data, items_direct.
  by rewrite !nullish_assoc.
Qed.

Lemma continuation_levels json :
  continuation json
  = cursor_under_result json ?? cursor_under_data json ?? cursor_direct json.
Proof.
  unfold continuation, cursor_under_result, cursor_under_data, cursor_direct.
  cbn zeta. by rewrite !nullish_assoc.
Qed.

(** C7, as the code has it.  Among the candidate fields the ones nested
    under [result] come first, then the ones under [result.data], and the
    direct (top-level) ones last; within a level [screens] comes before
    [items] and [next_id36] before [next_cursor], [next_token] and
    [next].  The same order of levels holds for the item list and for the
    continuation cursor, and a page read from a reply that is not
    refused carries exactly these two selections. *)
Theorem fetchPage_probes_result_first fetchImpl today n cursor batchSize
    response json :
  fetchImpl n {| count := batchSize;
                 start_id36 := if String.eqb cursor "0" then StartZero
                               else StartAt cursor |} = inr response ->
  ok response = true ->
  LightshotClient.json response = inr json ->
  success json <> Some false ->
  let items :=
    match items_under_result json, items_under_data json, items_direct json with
    | Some l, _, _ => l
    | None, Some l, _ => l
    | None, None, Some l => l
    | None, None, None => []
    end in
  let next :=
    match cursor_under_result json, cursor_under_data json, cursor_direct json with
    | Some c, _, _ => Some c
    | None, Some c, _ => Some c
    | None, None, o => o
    end in
  candidateScreens json = items
  /\ continuation json = next
  /\ fetchPage fetchImpl today n cursor batchSize
     = inr {| screens := toScreenMeta today <$> items; nextCursor := next |}.
Proof.
  intros Hreply Hok Hjson Hsucc items next.
  assert (Hitems : candidateScreens json = items).
  { rewrite candidateScreens_levels. unfold items.
    by destruct (items_under_result json), (items_under_data json),
                (items_direct json). }
  assert (Hnext : continuation json = next).
  { rewrite continuation_levels. unfold next.
    by destruct (cursor_under_result json), (cursor_under_data json). }
  split; [done|]. split; [done|].
  unfold fetchPage. rewrite Hreply, Hok, Hjson. cbn.
  unfold readPage. rewrite Hitems, Hnext.
  rewrite (bool_decide_eq_false_2 _ Hsucc). done.
Qed.

Lemma fetchPage_probes_result_first_witness :
  let page := fetchPage (CollectorScenario.replies CollectorScenario.both_levels)
                "today" 0 "0" 20 in
  page = inr {| screens := [toScreenMeta "today" (CollectorScenario.shot "inner")];
                nextCursor := Some "r" |}.
Proof.
  intros page.
  destruct (fetchPage_probes_result_first
              (CollectorScenario.replies CollectorScenario.both_levels)
              "today" 0%nat "0" 20 _ CollectorScenario.both_levels
              eq_refl eq_refl eq_refl ltac:(discriminate)) as (_ & _ & Hpage).
  exact Hpage.
Defined.

(** C7 as the claim states it fails: with a list both at the top level
    and under [result], the page holds the one under [result], and
    likewise for the cursor. *)
Lemma fetchPage_direct_first_counterexample :
  ~ (forall json, candidateScreens json = claimed_candidateScreens json
                  /\ continuation json = claimed_continuation json).
Proof.
  intros Hclaim.
  destruct (Hclaim CollectorScenario.both_levels) as [Hitems _].
  vm_compute in Hitems. discriminate Hitems.
Qed.

(** C6, as the code has it.  When the success flag of a reply is
    explicitly [false]: with no item in the normalised list the page is
    empty and has no cursor, and no error is raised; with items present
    [fetchPage] throws an [Error] whose message is [result.message], else
    [error.message], else ["Unexpected Lightshot response"]. *)
Theorem fetchPage_refused fetchImpl today n cursor batchSize response json :
  fetchImpl n {| count := batchSize;
                 start_id36 := if String.eqb cursor "0" then StartZero
                               else StartAt cursor |} = inr response ->
  ok response = true ->
  LightshotClient.json response = inr json ->
  success json = Some false ->
  (candidateScreens json = [] ->
     fetchPage fetchImpl today n cursor batchSize
     = inr {| screens := []; nextCursor := None |})
  /\ (candidateScreens json <> [] ->
        fetchPage fetchImpl today n cursor batchSize
        = inl (new_Error
                 (default "Unexpected Lightshot response"
                    (result_message (result_of json)
                       ?? (json_error json ≫= error_message))))).
Proof.
  intros Hreply Hok Hjson Hsucc.
  unfold fetchPage. rewrite Hreply, Hok, Hjson. cbn.
  unfold readPage. rewrite Hsucc. rewrite bool_decide_eq_true_2 by done.
  split.
  - intros ->. done.
  - intros Hne. rewrite bool_decide_eq_false_2; [done|].
    by destruct (candidateScreens json).
Qed.

Lemma fetchPage_refused_witness :
  fetchPage (CollectorScenario.replies CollectorScenario.refused_empty)
    "today" 0 "0" 20 = inr {| screens := []; nextCursor := None |}
  /\ fetchPage (CollectorScenario.replies CollectorScenario.refused_with_items)
       "today" 0 "0" 20 = inl (new_Error "Unexpected Lightshot response").
Proof.
  split.
  - apply (fetchPage_refused
             (CollectorScenario.replies CollectorScenario.refused_empty)
             "today" 0%nat "0" 20 _ CollectorScenario.refused_empty
             eq_refl eq_refl eq_refl eq_refl).
    reflexivity.
  - apply (fetchPage_refused
             (CollectorScenario.replies CollectorScenario.refused_with_items)
             "today" 0%nat "0" 20 _ CollectorScenario.refused_with_items
             eq_refl eq_refl eq_refl eq_refl).
    discriminate.
Defined.

(** C6 as the claim states it fails: a reply refused with one item in it
    is not turned into a page. *)
Lemma fetchPage_refused_counterexample :
  success CollectorScenario.refused_with_items = Some false
  /\ candidateScreens CollectorScenario.refused_with_items <> []
  /\ ~ exists page,
         fetchPage (CollectorScenario.replies CollectorScenario.refused_with_items)
           "today" 0 "0" 20 = inr page.
Proof.
  split; [reflexivity|]. split; [discriminate|].
  intros [page Hpage]. vm_compute in Hpage. discriminate Hpage.
Qed.

Section Loop.
Context (fetchImpl : nat -> Params -> Error + Response) (today : string)
        (signal : option (nat -> bool)) (batchSize : Z).

Local Abbreviation loop := (getAllScreens_loop fetchImpl today signal).
Local Abbreviation page_of := (fun n cursor => fetchPage fetchImpl today n cursor batchSize).

(** An iteration that meets no stop condition hands over to the next. *)
Lemma loop_continues fuel n cursor all page cursor' :
  page_of n cursor = inr page ->
  verdict (aborted signal n) cursor page = inr cursor' ->
  loop (S fuel) n batchSize cursor all
  = loop fuel (S n) batchSize cursor' (all ++ screens page).
Proof.
  intros Hpage Hv. cbn [getAllScreens_loop]. unfold verdict in Hv.
  destruct (aborted signal n); [done|]. rewrite Hpage.
  destruct (screens page) as [|x l] eqn:Hs; [done|].
  rewrite bool_decide_eq_false_2 in Hv by done.
  rewrite bool_decide_eq_false_2 by done.
  destruct (truthy (nextCursor page)) as [c|].
  - destruct (decide (c = cursor)) as [|Hne]; [done|].
    injection Hv as <-. apply String.eqb_neq in Hne. by rewrite Hne.
  - destruct (last (x :: l)) as [z|]; [|done].
    destruct (decide (id36 z = cursor)) as [|Hne]; [done|].
    injection Hv as <-. apply String.eqb_neq in Hne. by rewrite Hne.
Qed.

Lemma loop_reaches n cursor all :
  iterates fetchImpl today signal batchSize n cursor all ->
  forall fuel,
    getAllScreens fetchImpl today signal (n + fuel) batchSize
    = loop fuel n batchSize cursor all.
Proof.
  induction 1 as [|n cursor all page cursor' Hit IH Hpage Hv]; intros fuel.
  - done.
  - rewrite <- (loop_continues _ _ _ _ _ _ Hpage Hv).
    rewrite <- IH. f_equal. lia.
Qed.

(** C5.  Let the loop of [getAllScreens] be entered for the [n]-th time
    with [cursor] and the items [all] gathered so far, no earlier
    iteration having stopped.  Then, given fuel for that iteration:
    - if cancellation has been signalled, the call returns [all] without
      a further request and without error;
    - otherwise, if the fetched page is empty, it returns [all];
    - otherwise the items of the page are appended, and
      - with no continuation cursor (absent or empty), it returns if the
        id of the page's last item is the current cursor, and enters the
        next iteration with that id as cursor if not;
      - with a continuation cursor, it returns if that is the current
        cursor, and enters the next iteration with it if not. *)
Theorem getAllScreens_stops n cursor all fuel :
  iterates fetchImpl today signal batchSize n cursor all ->
  (n < fuel)%nat ->
  let result := getAllScreens fetchImpl today signal fuel batchSize in
  let goes_on next all' :=
    iterates fetchImpl today signal batchSize (S n) next all'
    /\ result = loop (fuel - S n) (S n) batchSize next all' in
  (aborted signal n = true -> result = Some (n, inr all))
  /\ (aborted signal n = false ->
      forall page, page_of n cursor = inr page ->
        (screens page = [] -> result = Some (S n, inr all))
        /\ (screens page <> [] ->
            match truthy (nextCursor page), last (screens page) with
            | None, None => False
            | None, Some l =>
                if decide (id36 l = cursor)
                then result = Some (S n, inr (all ++ screens page))
                else goes_on (id36 l) (all ++ screens page)
            | Some next, _ =>
                if decide (next = cursor)
                then result = Some (S n, inr (all ++ screens page))
                else goes_on next (all ++ screens page)
            end)).
Proof.
  intros Hit Hfuel result goes_on.
  assert (Hres : result = loop (S (fuel - S n)) n batchSize cursor all).
  { unfold result. rewrite <- (loop_reaches _ _ _ Hit). f_equal. lia. }
  split.
  - intros Hab. rewrite Hres. cbn [getAllScreens_loop]. by rewrite Hab.
  - intros Hab page Hpage. split.
    + intros Hempty. rewrite Hres. cbn [getAllScreens_loop].
      rewrite Hab, Hpage, Hempty. done.
    + intros Hne.
      assert (Hlast : is_Some (last (screens page))).
      { destruct (screens page) as [|x l] eqn:E; [done|].
        rewrite last_cons. destruct (last l); eauto. }
      destruct Hlast as [z Hz]. rewrite Hz.
      assert (Hlen : bool_decide (length (screens page) = 0%nat) = false).
      { apply bool_decide_eq_false_2. by destruct (screens page). }
      assert (Hgo : forall next,
                verdict (aborted signal n) cursor page = inr next ->
                goes_on next (all ++ screens page)).
      { intros next Hv. split.
        - by eapply iterates_next.
        - rewrite Hres. by eapply loop_continues. }
      destruct (truthy (nextCursor page)) as [c|] eqn:Hc.
      * destruct (decide (c = cursor)) as [->|Hnc].
        -- rewrite Hres. cbn [getAllScreens_loop].
           rewrite Hab, Hpage, Hlen, Hc, String.eqb_refl. done.
        -- apply Hgo. unfold verdict. rewrite Hab, Hc.
           rewrite bool_decide_eq_false_2 by done.
           by destruct (decide (c = cursor)).
      * destruct (decide (id36 z = cursor)) as [Heq|Hnc].
        -- rewrite Hres. cbn [getAllScreens_loop].
           rewrite Hab, Hpage, Hlen, Hc, Hz, Heq, String.eqb_refl. done.
        -- apply Hgo. unfold verdict. rewrite Hab, Hc, Hz.
           rewrite bool_decide_eq_false_2 by done.
           by destruct (decide (id36 z = cursor)).
Qed.
End Loop.

(** Two screens and no continuation cursor: the second iteration starts
    at the id of the last screen, gets an empty page, and the call returns
    the two screens after two requests. *)
Lemma getAllScreens_stops_witness :
  getAllScreens CollectorScenario.two_screens "today" None 5 20
  = Some (2%nat, inr [toScreenMeta "today" (CollectorScenario.shot "a");
                      toScreenMeta "today" (CollectorScenario.shot "b")]).
Proof.
  assert (Hit : iterates CollectorScenario.two_screens "today" None 20 1 "b"
                  ([] ++ [toScreenMeta "today" (CollectorScenario.shot "a");
                          toScreenMeta "today" (CollectorScenario.shot "b")])).
  { eapply (iterates_next _ _ _ _ 0 "0" []
              {| screens := [toScreenMeta "today" (CollectorScenario.shot "a");
                             toScreenMeta "today" (CollectorScenario.shot "b")];
                 nextCursor := None |}).
    - apply iterates_first.
    - reflexivity.
    - reflexivity. }
  destruct (getAllScreens_stops CollectorScenario.two_screens "today" None 20
              1 "b" _ 5 Hit ltac:(lia)) as [_ Hgo].
  destruct (Hgo eq_refl {| screens := []; nextCursor := None |} eq_refl)
    as [Hempty _].
  exact (Hempty eq_refl).
Defined.
End CollectorFacts.

(* ===================================================================== *)
(** * The retrying fetcher *)
(* ===================================================================== *)

Section FetcherFacts.
Import Js DownloadService.
Context (boundFetch : string -> Z -> Error + Response)
        (signal : nat -> bool)
        (abortReason : Error)
        (Date_parse : string -> option Z)
        (R base throttle : Z) (screen : ScreenMeta).

Local Abbreviation try_block :=
  (DownloadService.try_block boundFetch signal abortReason Date_parse throttle screen).
Local Abbreviation attempts :=
  (DownloadService.attempts boundFetch signal abortReason Date_parse R base throttle screen).
Local Abbreviation attempt_error := (DownloadService.attempt_error boundFetch screen).
Local Abbreviation succeeds := (DownloadService.succeeds boundFetch screen).
Local Abbreviation fails_retryably := (DownloadService.fails_retryably boundFetch screen).
Local Abbreviation backoffs := (DownloadService.backoffs base).

Lemma timing_app (a b : list Effect) : timing (a ++ b) = timing a ++ timing b.
Proof. apply omap_app. Qed.

Lemma requests_app (a b : list Effect) :
  requests (a ++ b) = (requests a + requests b)%nat.
Proof. unfold requests. by rewrite omap_app, length_app. Qed.

Lemma requests_timing (a : list Effect) :
  requests a = length (omap (fun t => match t with Request => Some () | _ => None end)
                         (timing a)).
Proof.
  unfold requests, timing. induction a as [|[] a IH]; cbn; try done.
  by rewrite IH.
Qed.

(** Every attempt makes at most one request, cancelled or not. *)
Lemma try_block_requests attempt n :
  (requests (try_block attempt n).1.2 <= 1)%nat.
Proof.
  unfold DownloadService.try_block.
  destruct (signal n); [cbn; lia|].
  destruct (boundFetch (url screen) attempt) as [e|r]; [cbn; lia|].
  destruct (negb (ok r)).
  - destruct (status r =? 403); [|cbn; lia].
    destruct (is_account_trouble _); cbn; lia.
  - destruct (arrayBuffer r); [cbn; lia|].
    destruct (throttle >? 0); [|cbn; lia].
    destruct (delay signal throttle (S (S n))) as [[?|] ?]; cbn; lia.
Qed.

Lemma attempts_requests remaining : forall attempt n,
  (requests (attempts remaining attempt n).1.2 <= remaining)%nat.
Proof.
  induction remaining as [|remaining IH]; intros attempt n; [cbn; lia|].
  cbn [DownloadService.attempts].
  pose proof (try_block_requests attempt n) as Hone.
  destruct (try_block attempt n) as [[[b|e] effects] n'];
    cbn [fst snd] in Hone |- *; [lia|].
  destruct (signal n'); [cbn [fst snd]; lia|].
  destruct ((attempt <? R) && negb (nonRetryable e)).
  - destruct (delay signal _ n') as [[rej|] n''].
    + cbn [fst snd]. rewrite requests_app. cbn. lia.
    + specialize (IH (attempt + 1) n'').
      destruct (attempts remaining (attempt + 1) n'') as [[c rest] n3].
      cbn [fst snd] in IH |- *. rewrite !requests_app. cbn. lia.
  - cbn [fst snd]. rewrite requests_app. cbn. lia.
Qed.

Section Quiet.
Hypothesis quiet : forall n, signal n = false.

Lemma delay_quiet ms n : exists n', delay signal ms n = (None, n').
Proof.
  unfold delay. destruct (ms <=? 0); [eauto|]. rewrite !quiet. eauto.
Qed.

Lemma try_block_quiet attempt n :
  exists effects n',
    try_block attempt n
    = (match attempt_error attempt with
       | Some e => Throws e
       | None => Returns true
       end, effects, n')
    /\ timing effects
       = Request :: match attempt_error attempt with
                    | Some _ => []
                    | None => throttle_wait throttle
                    end.
Proof.
  unfold DownloadService.try_block, DownloadService.attempt_error, throttle_wait.
  rewrite quiet.
  destruct (boundFetch (url screen) attempt) as [e|r]; [by eexists _, _|].
  destruct (negb (ok r)).
  - destruct (status r =? 403); [|by eexists _, _].
    destruct (is_account_trouble _); by eexists _, _.
  - destruct (arrayBuffer r); [by eexists _, _|].
    destruct (throttle >? 0); [|by eexists _, _].
    destruct (delay_quiet throttle (S (S n))) as [n' ->]. by eexists _, _.
Qed.

(** A retryable failure with attempts left: the backoff, then the next
    attempt. *)
Lemma attempts_retry remaining attempt n e :
  attempt_error attempt = Some e -> nonRetryable e = false -> attempt < R ->
  exists effects n',
    attempts (S remaining) attempt n
    = ((attempts remaining (attempt + 1) n').1.1,
       effects ++ (attempts remaining (attempt + 1) n').1.2,
       (attempts remaining (attempt + 1) n').2)
    /\ timing effects = [Request; Wait (base * 2 ^ (attempt - 1))].
Proof.
  intros He Hre Hlt. cbn [DownloadService.attempts].
  destruct (try_block_quiet attempt n) as (effects & n' & -> & Ht).
  rewrite He in Ht |- *. rewrite quiet, Hre.
  apply Z.ltb_lt in Hlt. rewrite Hlt. cbn [andb negb].
  destruct (delay_quiet (base * 2 ^ (attempt - 1)) n') as [n'' ->].
  destruct (attempts remaining (attempt + 1) n'') as [[c rest] n3] eqn:Hrest.
  eexists (effects ++ [_; _]), n''. rewrite Hrest. cbn. split.
  - by rewrite <- app_assoc.
  - rewrite timing_app, Ht. done.
Qed.

(** [k] retryable failures in a row, attempts being left after each. *)
Lemma attempts_failures k : forall remaining attempt n,
  (forall j, attempt <= j < attempt + Z.of_nat k -> fails_retryably j) ->
  attempt + Z.of_nat k <= R ->
  exists effects n',
    attempts (k + remaining) attempt n
    = ((attempts remaining (attempt + Z.of_nat k) n').1.1,
       effects ++ (attempts remaining (attempt + Z.of_nat k) n').1.2,
       (attempts remaining (attempt + Z.of_nat k) n').2)
    /\ timing effects = backoffs k attempt.
Proof.
  induction k as [|k IH]; intros remaining attempt n Hfail Hle.
  - exists [], n. rewrite Z.add_0_r. cbn. by destruct (attempts remaining attempt n) as [[??]?].
  - destruct (Hfail attempt ltac:(lia)) as (e & He & Hre).
    destruct (attempts_retry (k + remaining) attempt n e He Hre ltac:(lia))
      as (effects & n' & Hstep & Ht).
    destruct (IH remaining (attempt + 1) n') as (effects' & n'' & Hrest & Ht').
    { intros j Hj. apply Hfail. lia. }
    { lia. }
    replace (attempt + 1 + Z.of_nat k) with (attempt + Z.of_nat (S k)) in Hrest by lia.
    exists (effects ++ effects'), n''.
    change (S k + remaining)%nat with (S (k + remaining)).
    rewrite Hstep, Hrest. cbn [fst snd]. split.
    + by rewrite <- app_assoc.
    + rewrite timing_app, Ht, Ht'. done.
Qed.

End Quiet.

Lemma backoffs_requests k : forall attempt,
  length (omap (fun t => match t with Request => Some () | _ => None end)
            (backoffs k attempt)) = k.
Proof. induction k as [|k IH]; intros attempt; cbn; [done|]. by rewrite IH. Qed.

Lemma timing_requests_backoffs (effects : list Effect) k attempt tail m :
  timing effects = backoffs k attempt ++ Request :: tail ->
  length (omap (fun t => match t with Request => Some () | _ => None end) tail) = m ->
  requests effects = S (k + m).
Proof.
  intros Ht <-. rewrite requests_timing, Ht, omap_app, length_app. cbn.
  rewrite backoffs_requests. lia.
Qed.

(** C3.  With [retryAttempts >= 1], [downloadWithRetry] makes at most
    [retryAttempts] requests, whatever the server and the signal do.  With
    no cancellation:
    - if attempts [1 .. k-1] fail retryably and attempt [k <= retryAttempts]
      succeeds, it returns [true] after exactly [k] requests, having
      waited [retryBaseDelayMs * 2^(j-1)] after each failed attempt [j]
      and before attempt [j+1] (and the throttle delay, if positive, after
      the download);
    - if all [retryAttempts] attempts fail retryably, it returns [false]
      after [retryAttempts] requests, with the same waits between them
      and none after the last. *)
Theorem downloadWithRetry_retries :
  1 <= R ->
  let outcome :=
    downloadWithRetry boundFetch signal abortReason Date_parse R base throttle screen in
  (requests outcome.1.2 <= Z.to_nat R)%nat
  /\ ((forall n, signal n = false) ->
      (forall k, 1 <= k <= R ->
         (forall j, 1 <= j < k -> fails_retryably j) ->
         succeeds k ->
         outcome.1.1 = Returns true
         /\ requests outcome.1.2 = Z.to_nat k
         /\ timing outcome.1.2
            = backoffs (Z.to_nat (k - 1)) 1 ++ Request :: throttle_wait throttle)
      /\ ((forall j, 1 <= j <= R -> fails_retryably j) ->
          outcome.1.1 = Returns false
          /\ requests outcome.1.2 = Z.to_nat R
          /\ timing outcome.1.2 = backoffs (Z.to_nat (R - 1)) 1 ++ [Request])).
Proof.
  intros HR outcome. split; [apply attempts_requests|].
  intros quiet. split.
  - intros k Hk Hfail Hok.
    destruct (attempts_failures quiet (Z.to_nat (k - 1)) (S (Z.to_nat (R - k))) 1 0)
      as (effects & n' & Hrun & Ht).
    { intros j Hj. apply Hfail. lia. }
    { lia. }
    replace (Z.to_nat (k - 1) + S (Z.to_nat (R - k)))%nat with (Z.to_nat R) in Hrun by lia.
    replace (1 + Z.of_nat (Z.to_nat (k - 1))) with k in Hrun by lia.
    assert (Hlast : exists effects' n'',
               attempts (S (Z.to_nat (R - k))) k n' = (Returns true, effects', n'')
               /\ timing effects' = Request :: throttle_wait throttle).
    { cbn [DownloadService.attempts].
      destruct (try_block_quiet quiet k n') as (effects' & n'' & -> & Ht').
      unfold DownloadService.succeeds in Hok. rewrite Hok in Ht' |- *. eauto. }
    destruct Hlast as (effects' & n'' & Hlast & Ht').
    rewrite Hlast in Hrun. cbn [fst snd] in Hrun.
    assert (Htiming : timing outcome.1.2
              = backoffs (Z.to_nat (k - 1)) 1 ++ Request :: throttle_wait throttle).
    { unfold outcome, downloadWithRetry. rewrite Hrun. cbn [fst snd].
      by rewrite timing_app, Ht, Ht'. }
    split; [unfold outcome, downloadWithRetry; by rewrite Hrun|].
    split; [|done].
    rewrite (timing_requests_backoffs _ _ _ _ 0%nat Htiming); [lia|].
    unfold throttle_wait. by destruct (throttle >? 0).
  - intros Hfail.
    destruct (attempts_failures quiet (Z.to_nat (R - 1)) 1 1 0)
      as (effects & n' & Hrun & Ht).
    { intros j Hj. apply Hfail. lia. }
    { lia. }
    replace (Z.to_nat (R - 1) + 1)%nat with (Z.to_nat R) in Hrun by lia.
    replace (1 + Z.of_nat (Z.to_nat (R - 1))) with R in Hrun by lia.
    assert (Hlast : exists effects' n'',
               attempts 1 R n' = (Returns false, effects', n'')
               /\ timing effects' = [Request]).
    { cbn [DownloadService.attempts].
      destruct (try_block_quiet quiet R n') as (effects' & n'' & -> & Ht').
      destruct (Hfail R ltac:(lia)) as (e & He & _).
      rewrite He in Ht' |- *. rewrite quiet, Z.ltb_irrefl. cbn [andb].
      eexists _, _. split; [reflexivity|]. by rewrite timing_app, Ht'. }
    destruct Hlast as (effects' & n'' & Hlast & Ht').
    rewrite Hlast in Hrun. cbn [fst snd] in Hrun.
    assert (Htiming : timing outcome.1.2 = backoffs (Z.to_nat (R - 1)) 1 ++ [Request]).
    { unfold outcome, downloadWithRetry. rewrite Hrun. cbn [fst snd].
      by rewrite timing_app, Ht, Ht'. }
    split; [unfold outcome, downloadWithRetry; by rewrite Hrun|].
    split; [|done].
    rewrite (timing_requests_backoffs _ _ _ _ 0%nat Htiming); [lia|done].
Qed.

(** A first request answered with status 403 and a JSON object whose
    [code] is ["account_trouble"] ends the call at once: one request, no
    backoff, one warning that names the cause, which differs from the one
    logged when retries run out on a failed response. *)
Lemma downloadWithRetry_account_trouble response :
  1 <= R ->
  (forall n, signal n = false) ->
  boundFetch (url screen) 1 = inr response ->
  ok response = false ->
  status response = 403 ->
  is_account_trouble (code_of (json response)) = true ->
  (downloadWithRetry boundFetch signal abortReason Date_parse R base throttle screen).1
  = (Returns false,
     [Fetch (url screen);
      Send (LogPayload warn
              ("Final failure for " +:+ id36 screen +:+ ": Lightshot cannot serve "
                 +:+ id36 screen
                 +:+ ": upstream returned account trouble (image missing on server)."))])
  /\ forall status',
       final_message screen (new_NonRetryableError (cannot_serve screen))
       <> final_message screen (new_Error (failed_to_fetch screen status')).
Proof.
  intros HR quiet Hreply Hok Hstatus Hcode. split.
  - unfold downloadWithRetry.
    destruct (Z.to_nat R) as [|remaining] eqn:HRn; [lia|].
    cbn [DownloadService.attempts]. unfold DownloadService.try_block.
    rewrite quiet, Hreply, Hok, Hstatus, Hcode. cbn [negb Z.eqb Pos.eqb].
    rewrite quiet. cbn. rewrite andb_false_r. done.
  - intros status' Heq.
    unfold final_message in Heq. cbn [message new_NonRetryableError new_Error] in Heq.
    do 3 apply (inj (String.app _)) in Heq.
    unfold cannot_serve, failed_to_fetch in Heq.
    cbv [String.append] in Heq. discriminate Heq.
Qed.
End FetcherFacts.

(** Served at the third attempt: two backoffs of 500 and 1000 ms, then the
    throttle delay. *)
Lemma downloadWithRetry_retries_witness :
  let Request := DownloadService.Request in
  let Wait := DownloadService.Wait in
  DownloadService.timing
    (DownloadService.downloadWithRetry DownloadScenario.server (fun _ => false)
            DownloadService.new_AbortError DownloadScenario.no_dates
            3 500 150 (DownloadScenario.shot "slow")).1.2
  = [Request; Wait 500; Request; Wait 1000; Request; Wait 150].
Proof.
  intros Request Wait.
  destruct (downloadWithRetry_retries DownloadScenario.server (fun _ => false)
              DownloadService.new_AbortError DownloadScenario.no_dates
              3 500 150 (DownloadScenario.shot "slow") ltac:(lia)) as [_ Hquiet].
  destruct (Hquiet (fun _ => eq_refl)) as [Hserved _].
  destruct (Hserved 3 ltac:(lia)) as (_ & _ & Htiming).
  - intros j Hj. assert (j = 1 \/ j = 2) as [-> | ->] by lia.
    + eexists. split; reflexivity.
    + eexists. split; reflexivity.
  - reflexivity.
  - exact Htiming.
Defined.

(* ===================================================================== *)
(** * The orchestrator *)
(* ===================================================================== *)

Section UnitLists.
Import DownloadService.
Implicit Types (us : list UnitPhase) (u p : UnitPhase).

Lemma tally_app us vs : tally (us ++ vs) = tally us + tally vs.
Proof. induction us as [|u us IH]; cbn; lia. Qed.

Lemma tally_insert us : forall i u p,
  us !! i = Some u -> tally (<[i := p]> us) = tally us - weight u + weight p.
Proof.
  induction us as [|x us IH]; intros [|i] u p Hi; cbn in *; try done.
  - injection Hi as ->. lia.
  - rewrite (IH _ _ _ Hi). lia.
Qed.

Lemma forallb_fulfilled_tally us :
  forallb (fun u => match u with Fulfilled => true | _ => false end) us = true ->
  tally us = Z.of_nat (length us).
Proof.
  induction us as [|[] us IH]; cbn; try done. intros H. rewrite IH by done. lia.
Qed.

Lemma forallb_fulfilled_lookup us i u :
  forallb (fun u => match u with Fulfilled => true | _ => false end) us = true ->
  us !! i = Some u -> u = Fulfilled.
Proof.
  revert i. induction us as [|x us IH]; intros [|i] Hall Hi; cbn in *; try done.
  - injection Hi as ->. by destruct u.
  - apply (IH i); [|done]. by destruct x.
Qed.

Lemma queue_shape_nil : queue_shape [] [].
Proof. exists 0%nat. cbn. split; [lia|]. split; [done|]. intros j Hj. lia. Qed.

Lemma queue_shape_insert q us i u p :
  queue_shape q us -> us !! i = Some u -> u <> Queued ->
  queue_shape q (<[i := p]> us).
Proof.
  intros (a & Ha & Hq & Hrest) Hi Hu. exists a.
  rewrite length_insert. split; [done|]. split; [done|].
  intros j Hj. destruct (decide (i = j)) as [->|Hij].
  - rewrite (Hrest j Hj) in Hi. by injection Hi as <-.
  - rewrite list_lookup_insert_ne by done. by apply Hrest.
Qed.

Lemma queue_shape_push q us :
  queue_shape q us -> queue_shape (q ++ [length us]) (us ++ [Queued]).
Proof.
  intros (a & Ha & Hq & Hrest). exists a.
  rewrite length_app. cbn. split; [lia|]. split.
  - replace (length us + 1 - a)%nat with (S (length us - a)) by lia.
    rewrite seq_S, Hq. do 2 f_equal. lia.
  - intros j Hj. destruct (decide (j < length us)%nat) as [Hlt|Hge].
    + rewrite lookup_app_l by done. apply Hrest. lia.
    + replace j with (length us + 0)%nat by lia.
      by rewrite lookup_app_r, Nat.add_comm, Nat.add_sub by lia.
Qed.

Lemma queue_shape_pop j rest us :
  queue_shape (j :: rest) us ->
  us !! j = Some Queued
  /\ queue_shape rest us
  /\ forall p, weight p = 0 -> queue_shape rest (<[j := p]> us)
                               /\ tally (<[j := p]> us) = tally us.
Proof.
  intros (a & Ha & Hq & Hrest).
  destruct (length us - a)%nat as [|n] eqn:Hn; [done|].
  cbn in Hq. injection Hq as -> ->.
  assert (Hj : us !! a = Some Queued) by (apply Hrest; lia).
  assert (Hshape : queue_shape (seq (S a) n) us).
  { exists (S a). split; [lia|]. split; [f_equal; lia|].
    intros j Hj'. apply Hrest. lia. }
  split; [done|]. split; [done|].
  intros p Hp. split.
  - exists (S a). rewrite length_insert. split; [lia|]. split; [f_equal; lia|].
    intros j Hj'. rewrite list_lookup_insert_ne by lia. apply Hrest. lia.
  - rewrite (tally_insert _ _ _ _ Hj), Hp. cbn. lia.
Qed.
End UnitLists.

Section RunFacts.
Import Js DownloadService.
Context (boundFetch : string -> Z -> Error + Response)
        (abortReason : Error)
        (Date_parse : string -> option Z).

Local Abbreviation script := (DownloadService.script boundFetch abortReason Date_parse).
Local Abbreviation start_unit := (DownloadService.start_unit boundFetch abortReason Date_parse).
Local Abbreviation launch := (DownloadService.launch boundFetch abortReason Date_parse).
Local Abbreviation submit := (DownloadService.submit boundFetch abortReason Date_parse).
Local Abbreviation settle := (DownloadService.settle boundFetch abortReason Date_parse).
Local Abbreviation transition := (DownloadService.transition boundFetch abortReason Date_parse).
Local Abbreviation run_labels := (DownloadService.run_labels boundFetch abortReason Date_parse).
Local Abbreviation downloadScreens :=
  (DownloadService.downloadScreens boundFetch abortReason Date_parse).
Local Abbreviation run := (DownloadService.run boundFetch abortReason Date_parse).

(** *** The scripts of the units *)

Lemma try_block_logs signal throttle screen attempt n :
  Forall logs_only
    (try_block boundFetch signal abortReason Date_parse throttle screen attempt n).1.2.
Proof.
  unfold try_block.
  destruct (signal n); [by constructor|].
  destruct (boundFetch (url screen) attempt) as [e|r]; [by repeat constructor|].
  destruct (negb (ok r)).
  - destruct (status r =? 403); [|by repeat constructor].
    destruct (is_account_trouble _); by repeat constructor.
  - destruct (arrayBuffer r); [by repeat constructor|].
    destruct (throttle >? 0); [|by repeat constructor].
    destruct (delay signal throttle (S (S n))) as [[?|] ?]; by repeat constructor.
Qed.

Lemma attempts_logs signal R base throttle screen remaining : forall attempt n,
  Forall logs_only
    (attempts boundFetch signal abortReason Date_parse R base throttle screen
       remaining attempt n).1.2.
Proof.
  induction remaining as [|remaining IH]; intros attempt n; [by constructor|].
  cbn [attempts].
  pose proof (try_block_logs signal throttle screen attempt n) as Htry.
  destruct (try_block _ _ _ _ _ _ attempt n) as [[[b|e] effects] n'];
    cbn [fst snd] in Htry |- *; [done|].
  destruct (signal n'); [done|].
  destruct ((attempt <? R) && negb (nonRetryable e)).
  - destruct (delay signal _ n') as [[rej|] n''].
    + cbn [fst snd]. apply Forall_app. split; [done|]. by repeat constructor.
    + specialize (IH (attempt + 1) n'').
      destruct (attempts _ _ _ _ _ _ _ _ remaining (attempt + 1) n'') as [[c rest] n3].
      cbn [fst snd] in IH |- *.
      apply Forall_app. split; [done|]. by repeat constructor.
  - cbn [fst snd]. apply Forall_app. split; [done|]. by repeat constructor.
Qed.

Lemma script_logs l screen todo c :
  script l screen = Running todo c -> Forall logs_only todo.
Proof.
  unfold DownloadService.script, downloadWithRetry.
  pose proof (attempts_logs (fun _ => false) (retryAttempts (args l))
                (retryBaseDelayMs (args l)) (effectiveThrottle l) screen
                (Z.to_nat (retryAttempts (args l))) 1 0) as Hlogs.
  destruct (attempts _ _ _ _ _ _ _ _ _ _ _) as [[c' effects] n].
  cbn [fst snd] in Hlogs. by intros [= <- <-].
Qed.

(** *** The limiter inside a run *)

Lemma same_frame_trans s1 s2 s3 :
  same_frame s1 s2 -> same_frame s2 s3 -> same_frame s1 s3.
Proof.
  unfold same_frame.
  intros (? & ? & ? & ? & ? & ? & ? & ?) (? & ? & ? & ? & ? & ? & ? & ?).
  repeat split; congruence.
Qed.

Lemma next_frame (st : Throttler.state nat) th o :
  Throttler.next st = (th, o) ->
  Throttler.maxConcurrency th = Throttler.maxConcurrency st
  /\ ((o = None /\ th = st)
      \/ exists j, o = Some j /\ Throttler.queue st = j :: Throttler.queue th).
Proof.
  unfold Throttler.next.
  destruct (_ >=? _); [intros [= <- <-]; eauto|].
  destruct (Throttler.queue st) as [|j rest] eqn:Hq; intros [= <- <-]; cbn; eauto.
Qed.

(** Calling [next] on a limiter whose queue fits the units, and starting
    what it hands out, keeps the core invariant. *)
Lemma core_next s st :
  processed s = succeeded s + failed s ->
  processed s = tally (units s) ->
  queue_shape (Throttler.queue st) (units s) ->
  (forall i todo c, units s !! i = Some (Running todo c) -> Forall logs_only todo) ->
  let s' := launch (Throttler.next st).2 (set_throttler (Throttler.next st).1 s) in
  core_invariant s'
  /\ same_frame s s'
  /\ length (units s') = length (units s)
  /\ Throttler.maxConcurrency (throttler s') = Throttler.maxConcurrency st.
Proof.
  intros Hsum Htally Hshape Hscripts.
  destruct (Throttler.next st) as [th o] eqn:Hnext. cbn [fst snd].
  destruct (next_frame _ _ _ Hnext) as [Hmax [[-> ->]|(j & -> & Hq)]]; cbn.
  { repeat split; try done. }
  rewrite Hq in Hshape.
  destruct (queue_shape_pop _ _ _ Hshape) as (Hj & Hrest & Hpop).
  unfold DownloadService.start_unit. cbn.
  destruct (resolvedScreens (locals s) !! j) as [screen|]; cbn.
  - set (p := if aborted s then Throwing else script (locals s) screen).
    assert (Hp : weight p = 0).
    { unfold p, DownloadService.script.
      destruct (aborted s); [done|]. by destruct (downloadWithRetry _ _ _ _ _ _ _ _) as [[??]?]. }
    destruct (Hpop p Hp) as [Hshape' Htally'].
    repeat split; cbn; try done.
    + by rewrite Htally'.
    + intros i todo c Hi.
      destruct (decide (j = i)) as [->|Hne].
      * rewrite list_lookup_insert_eq in Hi by (by eapply lookup_lt_Some).
        injection Hi as Hi. unfold p in Hi.
        destruct (aborted s); [done|]. by eapply script_logs.
      * rewrite list_lookup_insert_ne in Hi by done. by eapply Hscripts.
    + by rewrite length_insert.
  - repeat split; cbn; try done.
Qed.

Lemma settle_spec s :
  core_invariant s ->
  core_invariant (settle s)
  /\ same_frame s (settle s)
  /\ length (units (settle s)) = length (units s).
Proof.
  intros [Hsum Htally Hshape Hscripts].
  pose proof (core_next s (Throttler.State (Throttler.maxConcurrency (throttler s))
                             (Throttler.activeCount (throttler s) - 1)
                             (Throttler.queue (throttler s)))
                Hsum Htally Hshape Hscripts) as (Hcore & Hframe & Hlen & _).
  unfold DownloadService.settle, Throttler.release.
  destruct (Throttler.next _) as [th o]. by cbn [fst snd] in *.
Qed.

Lemma submit_spec s :
  core_invariant s ->
  core_invariant (submit s (length (units s)))
  /\ same_frame s (submit s (length (units s)))
  /\ length (units (submit s (length (units s)))) = S (length (units s))
  /\ Throttler.maxConcurrency (throttler (submit s (length (units s))))
     = Throttler.maxConcurrency (throttler s).
Proof.
  intros [Hsum Htally Hshape Hscripts].
  pose proof (core_next (set_units (units s ++ [Queued]) s)
                (Throttler.State (Throttler.maxConcurrency (throttler s))
                   (Throttler.activeCount (throttler s))
                   (Throttler.queue (throttler s) ++ [length (units s)])))
    as Hnext.
  cbn in Hnext.
  destruct Hnext as (Hcore & Hframe & Hlen & Hmax); try done.
  { rewrite tally_app. cbn. lia. }
  { by apply queue_shape_push. }
  { intros i todo c Hi. apply lookup_app_Some in Hi as [Hi|[_ Hi]].
    - by eapply Hscripts.
    - by destruct (i - length (units s))%nat as [|[|]]. }
  unfold DownloadService.submit, Throttler.enqueue.
  destruct (Throttler.next _) as [th o]. cbn [fst snd] in *.
  split; [done|]. split; [exact Hframe|]. split; [|exact Hmax].
  rewrite Hlen, length_app. cbn. lia.
Qed.

Lemma submit_all n : forall s,
  core_invariant s ->
  let s' := foldl submit s (seq (length (units s)) n) in
  core_invariant s'
  /\ same_frame s s'
  /\ length (units s') = (length (units s) + n)%nat
  /\ Throttler.maxConcurrency (throttler s') = Throttler.maxConcurrency (throttler s).
Proof.
  induction n as [|n IH]; intros s Hcore; cbn.
  - split; [done|]. split; [by repeat split|]. split; [lia|done].
  - destruct (submit_spec s Hcore) as (Hcore1 & Hframe1 & Hlen1 & Hmax1).
    specialize (IH _ Hcore1). rewrite Hlen1 in IH.
    destruct IH as (Hcore2 & Hframe2 & Hlen2 & Hmax2).
    split; [done|]. split.
    + by eapply same_frame_trans.
    + split; [lia|]. by rewrite Hmax2.
Qed.

(** *** One transition *)

Lemma all_settled_fulfilled s i u :
  run_invariant s -> all_settled s -> units s !! i = Some u -> u = Fulfilled.
Proof.
  intros Hinv Hall Hi. eapply forallb_fulfilled_lookup; [|exact Hi].
  by apply (run_settled _ Hinv).
Qed.

Lemma reports_frame s s' m :
  same_frame s s' -> reports s m -> reports s' m.
Proof.
  intros (_ & _ & _ & _ & _ & Hp & Hs & Hf). destruct m; cbn; try done.
  rewrite Hp, Hs, Hf. done.
Qed.

(** A started unit moves on: the unit of index [i], started and not yet
    at its end, takes the phase [p] in [s2]; the counters of [s2] add up and
    account for [p]; what [s2] has posted besides is no [done] message. *)
Lemma unit_moves s s2 i u p new :
  run_invariant s ->
  units s !! i = Some u -> u <> Queued -> u <> Fulfilled ->
  locals s2 = locals s -> main s2 = main s -> throttler s2 = throttler s ->
  units s2 = <[i := p]> (units s) ->
  processed s2 = processed s + weight p ->
  processed s2 = succeeded s2 + failed s2 ->
  (forall todo c, p = Running todo c -> Forall logs_only todo) ->
  port s2 = port s ++ new ->
  Forall (fun m => is_done m = false) new ->
  run_invariant s2 /\ run_invariant (settle s2).
Proof.
  intros Hinv Hi Hq Hf Hlocals Hmain Hthr Hunits Hproc Hsum Hlogs Hport Hnew.
  pose proof Hinv as [[Hsum0 Htally0 Hshape0 Hscripts0] Hlen0 Hset0 Hport0].
  assert (Hnot : ~ all_settled s).
  { intros Hall. apply Hf. by eapply all_settled_fulfilled. }
  assert (Hcore : core_invariant s2).
  { split.
    - done.
    - rewrite Hproc, Hunits, (tally_insert _ _ _ _ Hi), Htally0.
      destruct u; try done; cbn; lia.
    - rewrite Hthr, Hunits. by eapply queue_shape_insert.
    - intros j todo c Hj. rewrite Hunits in Hj.
      destruct (decide (i = j)) as [->|Hne].
      + rewrite list_lookup_insert_eq in Hj by (by eapply lookup_lt_Some).
        injection Hj as Hj. by eapply Hlogs.
      + rewrite list_lookup_insert_ne in Hj by done. by eapply Hscripts0. }
  assert (Hinv2 : run_invariant s2).
  { split.
    - done.
    - rewrite Hmain, Hlocals, Hunits, length_insert. exact Hlen0.
    - intros Hall. destruct Hnot. unfold all_settled in *. by rewrite Hmain in Hall.
    - rewrite Hmain, Hport.
      destruct (main s) as [| | |[]] eqn:Hm; try done;
        try (apply Forall_app; by split).
      destruct Hnot. unfold all_settled. rewrite Hm. auto. }
  split; [done|].
  destruct (settle_spec s2 Hcore) as (Hcore' & Hframe & Hlen').
  pose proof Hframe as (Hl & Hp & Hm & _).
  destruct Hinv2 as [_ Hlen2 Hset2 Hport2].
  split.
  - done.
  - by rewrite Hm, Hl, Hlen'.
  - intros Hall. destruct Hnot. unfold all_settled in *. by rewrite Hm, Hmain in Hall.
  - rewrite Hm, Hp.
    destruct (main s2) as [| | |[]] eqn:Hm2; try done.
    destruct Hnot. unfold all_settled. rewrite <- Hmain. auto.
Qed.

(** The [catch] of [run] ends the run with messages other than [done]
    and [progress]. *)
Lemma run_catch_spec e s :
  core_invariant s ->
  Forall (fun m => is_done m = false) (port s) ->
  let s' := run_catch e s in
  run_invariant s'
  /\ locals s' = locals s
  /\ exists new, port s' = port s ++ new /\ Forall (reports s') new.
Proof.
  intros [Hsum Htally Hshape Hscripts] Hport. unfold run_catch.
  destruct (aborted s); cbn.
  - split; [|split; [done|]].
    + split; cbn; try done.
      * intros [H|[H|H]]; discriminate H.
      * rewrite <- app_assoc. apply Forall_app. split; [done|]. by repeat constructor.
    + eexists. rewrite <- app_assoc. split; [reflexivity|]. by repeat constructor.
  - split; [|split; [done|]].
    + split; cbn; try done.
      * intros [H|[H|H]]; discriminate H.
      * apply Forall_app. split; [done|]. by repeat constructor.
    + eexists. split; [reflexivity|]. by repeat constructor.
Qed.

Lemma transition_spec l s s' :
  run_invariant s -> transition l s = Some s' ->
  run_invariant s'
  /\ locals s' = locals s
  /\ exists new, port s' = port s ++ new /\ Forall (reports s') new.
Proof.
  intros Hinv Hstep.
  pose proof Hinv as [[Hsum Htally Hshape Hscripts] Hlen Hset Hport].
  destruct l as [|i|i| |r|r]; cbn in Hstep.
  - (* Abort *)
    injection Hstep as <-.
    split; [|split; [done|exists []; by rewrite app_nil_r]].
    by split; [split|..].
  - (* Resume *)
    destruct (units s !! i) as [[|[|e todo] c| | |]|] eqn:Hi; try done.
    + destruct c as [b|e].
      * destruct (resolvedScreens (locals s) !! i) as [screen|]; [|done].
        injection Hstep as <-.
        set (s1 := complete screen b s).
        assert (H1 : locals s1 = locals s /\ main s1 = main s
                     /\ throttler s1 = throttler s /\ units s1 = units s
                     /\ processed s1 = processed s + 1
                     /\ processed s1 = succeeded s1 + failed s1
                     /\ exists new, port s1 = port s ++ new
                                    /\ Forall (fun m => is_done m = false) new
                                    /\ Forall (reports s1) new).
        { unfold s1, complete. destruct b; cbn.
          - repeat split; try done; try lia.
            eexists. split; [reflexivity|]. split; by repeat constructor.
          - repeat split; try done; try lia.
            eexists. rewrite <- app_assoc. split; [reflexivity|].
            split; by repeat constructor. }
        destruct H1 as (Hl1 & Hm1 & Ht1 & Hu1 & Hp1 & Hs1 & new & Hport1 & Hnew & Hrep).
        destruct (unit_moves s (set_units (<[i := Fulfilled]> (units s1)) s1)
                    i _ Fulfilled new Hinv Hi) as [Hinv2 Hinv'];
          cbn; try done; try lia; try (by rewrite Hu1).
        split; [done|].
        destruct (settle_spec _ (run_core _ Hinv2)) as (_ & Hframe & _).
        pose proof Hframe as (Hl & Hp & _). cbn in Hl, Hp.
        split; [by rewrite Hl|]. exists new. split; [by rewrite Hp|].
        eapply Forall_impl; [exact Hrep|]. intros m Hm.
        eapply reports_frame; [exact Hframe|]. by destruct m.
      * injection Hstep as <-.
        destruct (unit_moves s (reject_unit i e s) i _ Rejected [] Hinv Hi)
          as [Hinv2 Hinv']; cbn; try done; try lia; try (by rewrite app_nil_r).
        split; [done|].
        destruct (settle_spec _ (run_core _ Hinv2)) as (_ & Hframe & _).
        pose proof Hframe as (Hl & Hp & _). cbn in Hl, Hp.
        split; [by rewrite Hl|]. exists []. by rewrite Hp, app_nil_r.
    + injection Hstep as <-.
      pose proof (Hscripts _ _ _ Hi) as Hlogs.
      apply Forall_cons in Hlogs as [He Htodo].
      set (new := match e with Send m => [m] | _ => [] end).
      assert (Hnew : port (perform e s) = port s ++ new
                     /\ Forall (fun m => is_done m = false) new
                     /\ forall s0, Forall (reports s0) new).
      { unfold new. destruct e as [| | |m]; cbn; rewrite ?app_nil_r;
          try (split; [done|]; split; [done|]; by intros).
        destruct m; try done. split; [done|]. split; by repeat constructor. }
      destruct Hnew as (Hp & Hnd & Hrep).
      destruct (unit_moves s (set_units (<[i := Running todo c]> (units s)) (perform e s))
                  i _ (Running todo c) new Hinv Hi) as [Hinv2 _];
        cbn; try done; try (by destruct e); try (destruct e; cbn; lia);
        try (by intros ? ? [= <- <-]).
      split; [done|]. split; [by destruct e|]. exists new. split; [done|]. apply Hrep.
  - (* Reject *)
    assert (Hgo : forall u, units s !! i = Some u -> u <> Queued -> u <> Fulfilled ->
              run_invariant (settle (reject_unit i abortReason s))
              /\ locals (settle (reject_unit i abortReason s)) = locals s
              /\ exists new, port (settle (reject_unit i abortReason s)) = port s ++ new
                             /\ Forall (reports (settle (reject_unit i abortReason s))) new).
    { intros u Hi Hq Hf.
      destruct (unit_moves s (reject_unit i abortReason s) i _ Rejected [] Hinv Hi)
        as [Hinv2 Hinv']; cbn; try done; try lia; try (by rewrite app_nil_r).
      split; [done|].
      destruct (settle_spec _ (run_core _ Hinv2)) as (_ & Hframe & _).
      pose proof Hframe as (Hl & Hp & _). cbn in Hl, Hp.
      split; [by rewrite Hl|]. exists []. by rewrite Hp, app_nil_r. }
    destruct (units s !! i) as [[|todo c| | |]|] eqn:Hi; try done.
    + destruct (aborted s); [|done]. injection Hstep as <-. by eapply Hgo.
    + injection Hstep as <-. by eapply Hgo.
  - (* AllSettled *)
    destruct (main s) eqn:Hm; try done.
    assert (Hcatch : forall e,
              run_invariant (run_catch e s)
              /\ locals (run_catch e s) = locals s
              /\ exists new, port (run_catch e s) = port s ++ new
                             /\ Forall (reports (run_catch e s)) new).
    { intros e. by apply run_catch_spec. }
    destruct (rejection s) as [e|]; [injection Hstep as <-; apply Hcatch|].
    destruct (all_fulfilled s) eqn:Hall; [|done].
    destruct (aborted s); injection Hstep as <-; [apply Hcatch|].
    split; [|split; [done|eexists; split; [reflexivity|by repeat constructor]]].
    split; cbn; try done.
    apply Forall_app. split; [done|]. by repeat constructor.
  - (* Generated *)
    destruct (main s) eqn:Hm; try done.
    assert (Hall : all_fulfilled s = true) by (apply Hset; by left).
    destruct r as [e|]; injection Hstep as <-.
    + by apply run_catch_spec.
    + split; [|split; [done|exists []; by rewrite app_nil_r]].
      by split; cbn.
  - (* Downloaded *)
    destruct (main s) eqn:Hm; try done.
    assert (Hall : all_fulfilled s = true) by (apply Hset; right; by left).
    destruct r as [message|downloadId]; injection Hstep as <-.
    + split; [|split; [done|eexists; split; [reflexivity|by repeat constructor]]].
      split; cbn; try done.
      apply Forall_app. split; [done|]. by repeat constructor.
    + split; [|split; [done|eexists; split; [reflexivity|by repeat constructor]]].
      split; cbn; try done. by eexists _, _.
Qed.

(** *** From the call of [run] to its first suspension *)

Lemma downloadScreens_spec s :
  core_invariant s -> units s = [] -> main s = AwaitingUnits ->
  Throttler.queue (throttler s) = [] ->
  Forall (fun m => is_done m = false) (port s) ->
  let s' := downloadScreens s in
  run_invariant s'
  /\ locals s' = locals s
  /\ processed s' = processed s
  /\ (exists new, port s' = port s ++ new /\ Forall (reports s') new)
  /\ (1 <= effectiveConcurrency (locals s) ->
      main s' = AwaitingUnits
      /\ Throttler.maxConcurrency (throttler s') = effectiveConcurrency (locals s)
      /\ port s' = port s ++ [StatusPayload ("Downloading " +:+ pretty (total s)
                                              +:+ " screenshot(s)...")]).
Proof.
  intros Hcore Hunits Hmain Hqueue Hport. unfold DownloadService.downloadScreens.
  unfold Throttler.createThrottler.
  destruct (effectiveConcurrency (locals s) <? 1) eqn:Hcap.
  - destruct (run_catch_spec (new_Error "maxConcurrency must be a positive integer")
                s Hcore Hport) as (Hinv & Hl & new & Hp & Hrep).
    split; [done|]. split; [done|]. split.
    { unfold run_catch. by destruct (aborted s). }
    split; [eauto|]. apply Z.ltb_lt in Hcap. lia.
  - set (s1 := send _ (set_throttler _ s)).
    assert (Hcore1 : core_invariant s1).
    { destruct Hcore as [Hsum Htally _ Hscripts].
      split; cbn; try done. rewrite Hunits. apply queue_shape_nil. }
    assert (Hlen1 : length (units s1) = 0%nat) by (cbn; by rewrite Hunits).
    pose proof (submit_all (length (resolvedScreens (locals s1))) s1 Hcore1)
      as (Hcore' & Hframe & Hlen & Hmax).
    rewrite Hlen1 in Hlen, Hframe, Hcore', Hmax.
    change (foldl _ s1 (seq 0 (length (resolvedScreens (locals s1)))))
      with (foldl submit s1 (seq 0 (length (resolvedScreens (locals s1))))).
    set (s' := foldl submit s1 _) in *.
    destruct Hframe as (Hl & Hp & Hm & _ & _ & Hproc & _).
    split; [|split; [done|split; [done|split]]].
    + split.
      * done.
      * rewrite Hm. cbn. rewrite Hmain, Hl. exact Hlen.
      * unfold all_settled. rewrite Hm. cbn. rewrite Hmain.
        intros [H|[H|H]]; discriminate H.
      * rewrite Hm, Hp. cbn. rewrite Hmain.
        apply Forall_app. split; [done|]. by repeat constructor.
    + eexists. rewrite Hp. cbn. split; [reflexivity|]. by repeat constructor.
    + intros _. rewrite Hm, Hmax, Hp. by cbn.
Qed.

Lemma fresh_core l posted a m : core_invariant (fresh l posted a m).
Proof. split; cbn; try done. apply queue_shape_nil. Qed.

Lemma run_invariant_run o collected abortedSince :
  let s := run o collected abortedSince in
  run_invariant s /\ args (locals s) = o /\ Forall (reports s) (port s).
Proof.
  unfold DownloadService.run.
  set (a := abortedSince).
  set (collecting := match screens o with
                     | Some _ => []
                     | None => [StatusPayload "Collecting gallery metadata..."]
                     end).
  assert (Hcollecting : Forall (fun m => is_done m = false) collecting
                        /\ forall s, Forall (reports s) collecting).
  { unfold collecting. destruct (screens o); split; by repeat constructor. }
  destruct Hcollecting as [Hnd Hrep].
  destruct (match screens o with Some l => inr l | None => collected end)
    as [thrown|resolved].
  - destruct (run_catch_spec thrown
                (fresh (Build_Locals o [] (concurrency o) (throttleDelayMs o))
                   collecting a AwaitingUnits) (fresh_core _ _ _ _) Hnd)
      as (Hinv & Hl & new & Hp & Hnew).
    split; [exact Hinv|]. split; [by rewrite Hl|].
    rewrite Hp. apply Forall_app. split; [apply Hrep|exact Hnew].
  - destruct (bool_decide (length resolved = 0%nat)).
    + split; [|split; [done|]].
      * split; cbn; try done. apply fresh_core.
      * cbn. apply Forall_app. split; [apply Hrep|by repeat constructor].
    + match goal with
      | |- context [DownloadService.downloadScreens _ _ _ ?s0] => set (s := s0)
      end.
      assert (Hposted : Forall (fun m => is_done m = false) (port s)
                        /\ forall s', Forall (reports s') (port s)).
      { cbn. split.
        - repeat (apply Forall_app; split); try done.
          + by destruct (_ && _); repeat constructor.
          + by destruct (_ >? 0); repeat constructor.
          + by repeat constructor.
        - intros s'. repeat (apply Forall_app; split); try apply Hrep.
          + by destruct (_ && _); repeat constructor.
          + by destruct (_ >? 0); repeat constructor.
          + by repeat constructor. }
      destruct Hposted as [Hnd' Hrep'].
      destruct (downloadScreens_spec s (fresh_core _ _ _ _) eq_refl eq_refl eq_refl Hnd')
        as (Hinv & Hl & _ & (new & Hp & Hnew) & _).
      split; [exact Hinv|]. split; [by rewrite Hl|].
      rewrite Hp. apply Forall_app. split; [apply Hrep'|exact Hnew].
Qed.

Lemma run_labels_invariant ls : forall s s',
  run_invariant s -> run_labels ls s = Some s' ->
  run_invariant s' /\ locals s' = locals s.
Proof.
  induction ls as [|l ls IH]; intros s s' Hinv Hrun; cbn in Hrun.
  - by injection Hrun as <-.
  - destruct (transition l s) as [s1|] eqn:Hstep; [|done].
    destruct (transition_spec _ _ _ Hinv Hstep) as (Hinv1 & Hl1 & _).
    destruct (IH _ _ Hinv1 Hrun) as [Hinv' Hl']. split; [done|congruence].
Qed.

Lemma reports_adds_up s m :
  processed s = succeeded s + failed s -> reports s m -> adds_up m.
Proof. destruct m; cbn; try done. intros Hsum (-> & -> & ->). done. Qed.

Lemma run_labels_adds_up ls : forall s s',
  run_invariant s -> Forall adds_up (port s) -> run_labels ls s = Some s' ->
  Forall adds_up (port s').
Proof.
  induction ls as [|l ls IH]; intros s s' Hinv Hport Hrun; cbn in Hrun.
  - by injection Hrun as <-.
  - destruct (transition l s) as [s1|] eqn:Hstep; [|done].
    destruct (transition_spec _ _ _ Hinv Hstep) as (Hinv1 & _ & new & Hp & Hnew).
    apply (IH _ _ Hinv1); [|done].
    rewrite Hp. apply Forall_app. split; [done|].
    eapply Forall_impl; [exact Hnew|]. intros m.
    apply reports_adds_up. apply (core_sum _ (run_core _ Hinv1)).
Qed.

Lemma settled_processed s :
  run_invariant s -> all_settled s ->
  processed s = Z.of_nat (length (resolvedScreens (locals s))).
Proof.
  intros Hinv Hall.
  rewrite (core_tally _ (run_core _ Hinv)).
  rewrite (forallb_fulfilled_tally _ (run_settled _ Hinv Hall)).
  pose proof (run_units _ Hinv) as Hlen.
  destruct Hall as [Hm|[Hm|Hm]]; rewrite Hm in Hlen; by rewrite Hlen.
Qed.

(** C2.  In every state a run can reach, [processed] is the sum of
    [succeeded] and [failed], and every [progress] message posted so far
    has [completed] equal to the sum of its [succeeded] and [failed].
    Whatever the run does next, the messages that step posts include a
    [progress] message only with [completed], [succeeded] and [failed]
    equal to the counters as they are then, which add up.  Once every
    unit has been fulfilled and the signal was found quiet, [processed] is
    the number of screens. *)
Theorem progress_counters o collected abortedSince ls s :
  run_labels ls (run o collected abortedSince) = Some s ->
  processed s = succeeded s + failed s
  /\ Forall adds_up (port s)
  /\ (forall l s', transition l s = Some s' ->
        processed s' = succeeded s' + failed s'
        /\ exists new,
             port s' = port s ++ new
             /\ forall completed total currentId succeeded' failed',
                  In (ProgressPayload completed total currentId succeeded' failed') new ->
                  completed = processed s'
                  /\ succeeded' = succeeded s' /\ failed' = failed s')
  /\ (all_settled s ->
        processed s = Z.of_nat (length (resolvedScreens (locals s)))).
Proof.
  intros Hrun.
  destruct (run_invariant_run o collected abortedSince) as (Hinv0 & _ & Hrep0).
  destruct (run_labels_invariant _ _ _ Hinv0 Hrun) as [Hinv _].
  split; [apply (core_sum _ (run_core _ Hinv))|]. split.
  { eapply run_labels_adds_up; [exact Hinv0| |exact Hrun].
    eapply Forall_impl; [exact Hrep0|]. intros m.
    apply reports_adds_up. apply (core_sum _ (run_core _ Hinv0)). }
  split; [|by apply settled_processed].
  intros l s' Hstep.
  destruct (transition_spec _ _ _ Hinv Hstep) as (Hinv' & _ & new & Hp & Hnew).
  split; [apply (core_sum _ (run_core _ Hinv'))|].
  exists new. split; [done|].
  intros c t id su fa Hin.
  rewrite Forall_forall in Hnew. apply (Hnew _ (proj2 (list_elem_of_In _ _) Hin)).
Qed.

(** C9, as the code has it.  When a run has handed its archive to the
    sink and the sink has accepted it, the last message posted is a [done]
    message and no earlier message is one; its [total] and [succeeded]
    are the number of screens downloaded, its [failed] the number given
    up, and its [processed] their sum, which is the number of screens of
    the run. *)
Theorem done_is_last o collected abortedSince ls s :
  run_labels ls (run o collected abortedSince) = Some s ->
  main s = Returned Completed ->
  exists before downloadId,
    port s = before ++ [DonePayload (succeeded s) (failed s) downloadId
                          (Some (processed s)) (Some (succeeded s))]
    /\ Forall (fun m => is_done m = false) before
    /\ processed s = succeeded s + failed s
    /\ processed s = Z.of_nat (length (resolvedScreens (locals s))).
Proof.
  intros Hrun Hmain.
  destruct (run_invariant_run o collected abortedSince) as (Hinv0 & _ & _).
  destruct (run_labels_invariant _ _ _ Hinv0 Hrun) as [Hinv _].
  pose proof (run_port _ Hinv) as Hport. rewrite Hmain in Hport.
  destruct Hport as (before & downloadId & Hport & Hbefore).
  exists before, downloadId. split; [done|]. split; [done|].
  split; [apply (core_sum _ (run_core _ Hinv))|].
  apply settled_processed; [done|]. right. by right.
Qed.

Lemma downloadScreens_port s :
  units s = [] -> Throttler.queue (throttler s) = [] ->
  core_invariant s ->
  let s' := downloadScreens s in
  locals s' = locals s
  /\ ((1 <= effectiveConcurrency (locals s)
       /\ Throttler.maxConcurrency (throttler s') = effectiveConcurrency (locals s)
       /\ port s' = port s ++ [StatusPayload ("Downloading " +:+ pretty (total s)
                                               +:+ " screenshot(s)...")])
      \/ (effectiveConcurrency (locals s) < 1
          /\ (port s' = port s ++ [ErrorPayload "maxConcurrency must be a positive integer"]
              \/ port s' = port s ++ [StatusPayload "Download cancelled."; CancelledPayload]))).
Proof.
  intros Hunits Hqueue Hcore. unfold DownloadService.downloadScreens.
  unfold Throttler.createThrottler.
  destruct (effectiveConcurrency (locals s) <? 1) eqn:Hcap.
  - apply Z.ltb_lt in Hcap. unfold run_catch.
    destruct (aborted s); cbn; (split; [done|]); right; (split; [done|]).
    + right. by rewrite <- app_assoc.
    + by left.
  - apply Z.ltb_ge in Hcap.
    set (s1 := send _ (set_throttler _ s)).
    assert (Hcore1 : core_invariant s1).
    { destruct Hcore as [Hsum Htally _ Hscripts].
      split; cbn; try done. rewrite Hunits. apply queue_shape_nil. }
    assert (Hlen1 : length (units s1) = 0%nat) by (cbn; by rewrite Hunits).
    pose proof (submit_all (length (resolvedScreens (locals s1))) s1 Hcore1)
      as (_ & Hframe & _ & Hmax).
    rewrite Hlen1 in Hframe, Hmax.
    destruct Hframe as (Hl & Hp & _).
    split; [exact Hl|]. left. split; [done|]. split; [exact Hmax|exact Hp].
Qed.

Local Ltac not_the_notice H :=
  cbv [large_gallery_notice String.append] in H; discriminate H.

(** What [run] has done at its first suspension when there are screens. *)
Lemma run_started o collected abortedSince resolved :
  match screens o with Some l => inr l | None => collected end = inr resolved ->
  resolved <> [] ->
  let s := run o collected abortedSince in
  let count := Z.of_nat (length resolved) in
  let large := (count >=? LARGE_GALLERY_THRESHOLD) && (concurrency o >? 1) in
  let effective := if large then 1 else concurrency o in
  let throttle :=
    if large then Z.max (throttleDelayMs o) MIN_SEQUENTIAL_THROTTLE_MS
    else throttleDelayMs o in
  locals s = Build_Locals o resolved effective throttle
  /\ exists new,
       port s
       = (match screens o with
          | Some _ => []
          | None => [StatusPayload "Collecting gallery metadata..."]
          end)
         ++ (if large then [StatusPayload (large_gallery_notice count)] else [])
         ++ (if throttle >? 0
             then [LogPayload info ("Throttle delay set to " +:+ pretty throttle
                                      +:+ " ms between downloads.")]
             else [])
         ++ [StartPayload count effective] ++ new
       /\ ((1 <= effective
            /\ Throttler.maxConcurrency (throttler s) = effective
            /\ new = [StatusPayload ("Downloading " +:+ pretty count
                                       +:+ " screenshot(s)...")])
           \/ (effective < 1
               /\ (new = [ErrorPayload "maxConcurrency must be a positive integer"]
                   \/ new = [StatusPayload "Download cancelled."; CancelledPayload]))).
Proof.
  intros Hresolved Hne s count large effective throttle.
  unfold s, DownloadService.run. rewrite Hresolved.
  rewrite bool_decide_eq_false_2 by (by destruct resolved).
  fold count. fold large. fold effective. fold throttle.
  match goal with
  | |- context [DownloadService.downloadScreens _ _ _ ?s0] => set (s0' := s0)
  end.
  destruct (downloadScreens_port s0' eq_refl eq_refl (fresh_core _ _ _ _))
    as (Hl & Hport).
  split; [exact Hl|].
  destruct Hport as [(Hcap & Hmax & Hport)|(Hcap & Hport)].
  - eexists. split; [|left; split; [exact Hcap|split; [exact Hmax|reflexivity]]].
    rewrite Hport. unfold s0', fresh, total. cbn [port locals resolvedScreens].
    by rewrite <- !app_assoc.
  - destruct Hport as [Hport|Hport].
    + eexists. split; [|right; split; [exact Hcap|left; reflexivity]].
      rewrite Hport. unfold s0', fresh. cbn [port]. by rewrite <- !app_assoc.
    + eexists. split; [|right; split; [exact Hcap|right; reflexivity]].
      rewrite Hport. unfold s0', fresh. cbn [port]. by rewrite <- !app_assoc.
Qed.

(** With every slot taken and capacity 1, submissions queue up. *)
Lemma submit_queues k : forall s i q,
  throttler s = Throttler.State 1 1 q ->
  let s' := foldl submit s (seq i k) in
  units s' = units s ++ replicate k Queued
  /\ throttler s' = Throttler.State 1 1 (q ++ seq i k).
Proof.
  induction k as [|k IH]; intros s i q Hthr; cbn.
  - by rewrite !app_nil_r.
  - assert (Hstep : submit s i
                    = set_throttler (Throttler.State 1 1 (q ++ [i]))
                        (set_units (units s ++ [Queued]) s)).
    { unfold DownloadService.submit, Throttler.enqueue, Throttler.next.
      rewrite Hthr. reflexivity. }
    rewrite Hstep.
    destruct (IH (set_throttler (Throttler.State 1 1 (q ++ [i]))
                    (set_units (units s ++ [Queued]) s)) (S i) (q ++ [i]) eq_refl)
      as [Hunits Hthr'].
    cbn in Hunits. rewrite Hunits, Hthr'. by rewrite <- !app_assoc.
Qed.

(** A large gallery asked for with concurrency above 1: the first unit
    is started, with the raised throttle delay, and all others wait. *)
Lemma run_sequential o collected abortedSince first rest :
  match screens o with Some l => inr l | None => collected end = inr (first :: rest) ->
  800 <= Z.of_nat (length (first :: rest)) -> 1 < concurrency o ->
  let s := run o collected abortedSince in
  units s
  = (if abortedSince then Throwing
     else script (Build_Locals o (first :: rest) 1 (Z.max (throttleDelayMs o) 150)) first)
      :: replicate (length rest) Queued.
Proof.
  intros Hresolved Hcount Hconc s. unfold s, DownloadService.run.
  rewrite Hresolved.
  rewrite bool_decide_eq_false_2 by done.
  assert (Hlarge : (Z.of_nat (length (first :: rest)) >=? LARGE_GALLERY_THRESHOLD)
                   && (concurrency o >? 1) = true).
  { apply andb_true_intro. unfold LARGE_GALLERY_THRESHOLD.
    split; [apply Z.geb_le|apply Z.gtb_lt]; lia. }
  rewrite Hlarge.
  unfold DownloadService.downloadScreens, fresh.
  cbn -[DownloadService.submit pretty Z.max large_gallery_notice Z.gtb].
  match goal with
  | |- units (foldl _ (DownloadService.submit _ _ _ ?s0 0%nat) _) = _ =>
      set (s1 := DownloadService.submit boundFetch abortReason Date_parse s0 0%nat)
  end.
  assert (Hs1 : throttler s1 = Throttler.State 1 1 []
                /\ units s1
                   = [if abortedSince then Throwing
                      else script (Build_Locals o (first :: rest) 1
                                     (Z.max (throttleDelayMs o) 150)) first]).
  { unfold s1, DownloadService.submit, Throttler.enqueue, Throttler.next.
    cbn -[DownloadService.script pretty].
    unfold DownloadService.start_unit. cbn -[DownloadService.script pretty].
    by destruct abortedSince. }
  destruct Hs1 as [Hthr Hunits].
  destruct (submit_queues (length rest) s1 1%nat [] Hthr) as [-> _].
  by rewrite Hunits.
Qed.

(** C8.  Let a run have at least one screen.  The parameters of [run]
    stay as they were passed.  If there are 800 screens or more and the
    requested concurrency is above 1, the run goes on with concurrency 1
    (the limiter has capacity 1, [start] announces 1, and only the unit
    of the first screen is started) and with a throttle delay of the
    larger of the requested one and 150 ms (the delay that unit runs
    with), and a [status] message tells of the switch to sequential mode.
    If there are fewer than 800 screens or the requested concurrency is
    not above 1, the requested concurrency and throttle delay are the
    effective ones, [start] announces the requested concurrency, and no
    such message is posted. *)
Theorem large_gallery_downgrade o collected abortedSince resolved :
  match screens o with Some l => inr l | None => collected end = inr resolved ->
  resolved <> [] ->
  let s := run o collected abortedSince in
  let count := Z.of_nat (length resolved) in
  args (locals s) = o
  /\ resolvedScreens (locals s) = resolved
  /\ (800 <= count -> 1 < concurrency o ->
        effectiveConcurrency (locals s) = 1
        /\ effectiveThrottle (locals s) = Z.max (throttleDelayMs o) 150
        /\ Throttler.maxConcurrency (throttler s) = 1
        /\ In (StatusPayload (large_gallery_notice count)) (port s)
        /\ In (StartPayload count 1) (port s)
        /\ exists first,
             head resolved = Some first
             /\ units s
                = (if abortedSince then Throwing
                   else script (locals s) first)
                    :: replicate (length resolved - 1) Queued)
  /\ (count < 800 \/ concurrency o <= 1 ->
        effectiveConcurrency (locals s) = concurrency o
        /\ effectiveThrottle (locals s) = throttleDelayMs o
        /\ In (StartPayload count (concurrency o)) (port s)
        /\ ~ In (StatusPayload (large_gallery_notice count)) (port s)).
Proof.
  intros Hresolved Hne s count.
  destruct (run_started o collected abortedSince resolved Hresolved Hne)
    as (Hl & new & Hport & Hnew).
  fold s count in Hl, Hport, Hnew. rewrite Hl, Hport.
  cbn [args resolvedScreens effectiveConcurrency effectiveThrottle].
  split; [done|]. split; [done|].
  unfold LARGE_GALLERY_THRESHOLD, MIN_SEQUENTIAL_THROTTLE_MS in *. split.
  - intros Hcount Hconc.
    assert (Hlarge : (count >=? 800) && (concurrency o >? 1) = true).
    { apply andb_true_intro. split; [apply Z.geb_le|apply Z.gtb_lt]; lia. }
    rewrite Hlarge in *.
    split; [done|]. split; [done|]. split.
    { destruct Hnew as [(_ & Hmax & _)|(Hcap & _)]; [exact Hmax|lia]. }
    rewrite !in_app_iff. cbn [In]. split; [tauto|]. split; [tauto|].
    destruct resolved as [|first rest]; [done|]. exists first. split; [done|].
    unfold s. rewrite (run_sequential o collected abortedSince first rest Hresolved Hcount Hconc).
    cbn [length Nat.sub]. by rewrite Nat.sub_0_r.
  - intros Hsmall.
    assert (Hlarge : (count >=? 800) && (concurrency o >? 1) = false).
    { apply andb_false_iff. destruct Hsmall as [H|H].
      - left. rewrite Z.geb_leb. apply Z.leb_gt. lia.
      - right. rewrite Z.gtb_ltb. apply Z.ltb_ge. lia. }
    rewrite Hlarge in *.
    split; [done|]. split; [done|].
    rewrite !in_app_iff. cbn [In]. split; [tauto|].
    intros [Hin|[[]|[Hin|[[Hin|[]]|Hin]]]].
    + destruct (screens o); [done|]. destruct Hin as [Hin|[]]. not_the_notice Hin.
    + destruct (_ >? 0); [|done]. destruct Hin as [Hin|[]]. discriminate Hin.
    + discriminate Hin.
    + destruct Hnew as [(_ & _ & ->)|(_ & [-> | ->])].
      * destruct Hin as [Hin|[]]. not_the_notice Hin.
      * destruct Hin as [Hin|[]]. discriminate Hin.
      * destruct Hin as [Hin|[Hin|[]]]; [|discriminate Hin]. not_the_notice Hin.
Qed.

(** C4.  Let a run have one screen, whose first request is answered with
    status 403 and a JSON object whose [code] is ["account_trouble"]
    (with [retryAttempts >= 1] and [concurrency >= 1]).  Without
    cancellation, [downloadWithRetry] returns [false] after that single
    request, with no backoff and no further attempt, logging one warning
    that names the cause and differs from the warning logged when retries
    run out on a failed response.  The run then counts one failure and no
    success, and, the sink accepting the archive, ends with a [done]
    message. *)
Theorem account_trouble_fails_once o screen response downloadId collected :
  screens o = Some [screen] ->
  1 <= retryAttempts o ->
  1 <= concurrency o ->
  boundFetch (url screen) 1 = inr response ->
  ok response = false ->
  status response = 403 ->
  is_account_trouble (code_of (json response)) = true ->
  let warning := final_message screen (new_NonRetryableError (cannot_serve screen)) in
  (forall signal, (forall n, signal n = false) ->
     (downloadWithRetry boundFetch signal abortReason Date_parse (retryAttempts o)
        (retryBaseDelayMs o) (throttleDelayMs o) screen).1
     = (Returns false, [Fetch (url screen); Send (LogPayload warn warning)]))
  /\ (forall status',
        warning <> final_message screen (new_Error (failed_to_fetch screen status')))
  /\ exists s before,
       run_labels [Resume 0; Resume 0; Resume 0; AllSettled; Generated None;
                   Downloaded (inr downloadId)]
         (run o collected false) = Some s
       /\ main s = Returned Completed
       /\ succeeded s = 0 /\ failed s = 1 /\ processed s = 1
       /\ port s
          = before ++
            [LogPayload warn warning;
             LogPayload warn ("Giving up on " +:+ id36 screen +:+ " after "
                                +:+ pretty (retryAttempts o) +:+ " attempts.");
             ProgressPayload 1 1 (id36 screen) 0 1;
             StatusPayload "Packaging ZIP archive...";
             DonePayload 0 1 downloadId (Some 1) (Some 0)].
Proof.
  intros Hscreens HR Hconc Hreply Hok Hstatus Hcode warning.
  assert (Hunit : forall signal, (forall n, signal n = false) ->
            (downloadWithRetry boundFetch signal abortReason Date_parse (retryAttempts o)
               (retryBaseDelayMs o) (throttleDelayMs o) screen).1
            = (Returns false, [Fetch (url screen); Send (LogPayload warn warning)])).
  { intros signal quiet.
    by destruct (downloadWithRetry_account_trouble boundFetch signal abortReason
                   Date_parse (retryAttempts o) (retryBaseDelayMs o) (throttleDelayMs o)
                   screen response HR quiet Hreply Hok Hstatus Hcode). }
  split; [exact Hunit|]. split.
  { by destruct (downloadWithRetry_account_trouble boundFetch (fun _ => false)
                   abortReason Date_parse (retryAttempts o) (retryBaseDelayMs o)
                   (throttleDelayMs o) screen response HR (fun _ => eq_refl)
                   Hreply Hok Hstatus Hcode). }
  specialize (Hunit (fun _ => false) (fun _ => eq_refl)).
  destruct (downloadWithRetry boundFetch (fun _ => false) abortReason Date_parse
              (retryAttempts o) (retryBaseDelayMs o) (throttleDelayMs o) screen)
    as [[c e] n] eqn:Hd.
  cbn [fst] in Hunit. injection Hunit as -> ->.
  assert (Hge : forall a, a <= 0 -> (a >=? concurrency o) = false).
  { intros a Ha. rewrite Z.geb_leb. apply Z.leb_gt. lia. }
  assert (Hlt : (concurrency o <? 1) = false) by (apply Z.ltb_ge; lia).
  assert (Hrun0 : exists posted, run o collected false =
    {| locals := Build_Locals o [screen] (concurrency o) (throttleDelayMs o);
       throttler := Throttler.State (concurrency o) 1 [];
       units := [Running [Fetch (url screen); Send (LogPayload warn warning)]
                   (Returns false)];
       rejection := None; processed := 0; succeeded := 0; failed := 0; zip := [];
       port := posted; aborted := false; main := AwaitingUnits |}).
  { unfold DownloadService.run. rewrite Hscreens.
    change (bool_decide (length [screen] = 0%nat)) with false.
    change ((Z.of_nat (length [screen]) >=? LARGE_GALLERY_THRESHOLD)
            && (concurrency o >? 1)) with false.
    cbv iota.
    unfold DownloadService.downloadScreens, Throttler.createThrottler, fresh.
    cbn [locals effectiveConcurrency]. rewrite Hlt.
    cbn -[pretty Z.geb downloadWithRetry].
    unfold DownloadService.submit, Throttler.enqueue, Throttler.next.
    cbn -[pretty Z.geb downloadWithRetry].
    rewrite (Hge 0) by lia.
    cbn -[pretty Z.geb downloadWithRetry].
    unfold DownloadService.start_unit.
    cbn -[pretty Z.geb downloadWithRetry].
    unfold DownloadService.script. cbn [args locals effectiveThrottle]. rewrite Hd.
    eexists. reflexivity. }
  destruct Hrun0 as [posted ->].
  cbn -[pretty Z.geb DownloadService.settle].
  unfold DownloadService.settle, Throttler.release, Throttler.next.
  cbn -[pretty Z.geb].
  rewrite (Hge (1 - 1)) by lia.
  cbn -[pretty Z.geb].
  eexists _, posted. split; [reflexivity|].
  cbn -[pretty]. repeat (split; [reflexivity|]).
  by rewrite <- !app_assoc.
Qed.
End RunFacts.


(** One screen served at once: one [progress] message, one screen
    processed. *)
Lemma progress_counters_witness :
  exists s,
    DownloadScenario.served_run = Some s
    /\ DownloadService.processed s = 1
    /\ DownloadService.processed s
       = DownloadService.succeeded s + DownloadService.failed s
    /\ Forall DownloadService.adds_up (DownloadService.port s).
Proof.
  eexists. split; [vm_compute; reflexivity|]. split; [reflexivity|].
  destruct (progress_counters DownloadScenario.server DownloadService.new_AbortError
              DownloadScenario.no_dates
              (DownloadScenario.options 2 [DownloadScenario.shot "ok"]) (inr []) false
              (DownloadScenario.one_unit 2 (Some 7)) _ ltac:(vm_compute; reflexivity))
    as (Hsum & Hport & _).
  split; [exact Hsum|exact Hport].
Defined.

Lemma done_is_last_witness :
  exists s before downloadId,
    DownloadScenario.served_run = Some s
    /\ DownloadService.port s
       = before ++ [DownloadService.DonePayload 1 0 downloadId (Some 1) (Some 1)]
    /\ DownloadService.processed s = 1.
Proof.
  eexists.
  destruct (done_is_last DownloadScenario.server DownloadService.new_AbortError
              DownloadScenario.no_dates
              (DownloadScenario.options 2 [DownloadScenario.shot "ok"]) (inr []) false
              (DownloadScenario.one_unit 2 (Some 7)) _ ltac:(vm_compute; reflexivity)
              eq_refl)
    as (before & downloadId & Hport & _ & _ & Htotal).
  exists before, downloadId.
  split; [vm_compute; reflexivity|]. split; [exact Hport|exact Htotal].
Defined.

(** C9 as the claim states it fails: a run over one screen that is
    missing upstream ends with [done], whose [total] is 0, not 1; and the
    [done] of a run over no screen carries neither [processed] nor
    [succeeded]. *)
Lemma done_total_counterexample :
  (exists s,
     DownloadScenario.missing_run = Some s
     /\ DownloadService.main s = DownloadService.Returned DownloadService.Completed
     /\ length (DownloadService.resolvedScreens (DownloadService.locals s)) = 1%nat
     /\ last (DownloadService.port s)
        = Some (DownloadService.DonePayload 0 1 (Some 7) (Some 1) (Some 0)))
  /\ last (DownloadService.port DownloadScenario.empty_run)
     = Some (DownloadService.DonePayload 0 0 None None None).
Proof.
  split; [|reflexivity].
  eexists. split; [vm_compute; reflexivity|]. by repeat split.
Qed.

(** A gallery of 1000 screens asked for with concurrency 5. *)
Lemma large_gallery_downgrade_witness :
  let o := DownloadScenario.options 5 (replicate 1000 (DownloadScenario.shot "ok")) in
  let s := DownloadService.run DownloadScenario.server DownloadService.new_AbortError
             DownloadScenario.no_dates o (inr []) false in
  DownloadService.effectiveConcurrency (DownloadService.locals s) = 1
  /\ DownloadService.effectiveThrottle (DownloadService.locals s) = 150
  /\ Throttler.maxConcurrency (DownloadService.throttler s) = 1.
Proof.
  intros o s.
  destruct (large_gallery_downgrade DownloadScenario.server DownloadService.new_AbortError
              DownloadScenario.no_dates o (inr []) false
              (replicate 1000 (DownloadScenario.shot "ok")) eq_refl ltac:(discriminate))
    as (_ & _ & Hlarge & _).
  destruct Hlarge as (Hc & Ht & Hm & _).
  - rewrite length_replicate. lia.
  - cbn. lia.
  - split; [exact Hc|]. split; [exact Ht|exact Hm].
Defined.

(** The screen ["gone"]: one request, one failure, and [done]. *)
Lemma account_trouble_fails_once_witness :
  exists s,
    DownloadScenario.missing_run = Some s
    /\ DownloadService.main s = DownloadService.Returned DownloadService.Completed
    /\ DownloadService.succeeded s = 0 /\ DownloadService.failed s = 1.
Proof.
  destruct (account_trouble_fails_once DownloadScenario.server
              DownloadService.new_AbortError DownloadScenario.no_dates
              (DownloadScenario.options 2 [DownloadScenario.shot "gone"])
              (DownloadScenario.shot "gone") DownloadScenario.missing (Some 7)
              (inr []) eq_refl ltac:(cbn; lia) ltac:(cbn; lia)
              eq_refl eq_refl eq_refl eq_refl)
    as (_ & _ & s & before & Hrun & Hmain & Hs & Hf & _).
  exists s. split; [exact Hrun|]. split; [exact Hmain|]. split; [exact Hs|exact Hf].
Defined.

(* ===================================================================== *)
(** * More on the concurrency limiter *)
(* ===================================================================== *)

Section ThrottlerMore.
Import Throttler ThrottlerTrace.
Context {Task : Type} `{EqDecision Task}.
Implicit Types (s : sys Task) (e : event Task) (t : Task).

Lemma remove_first_perm t (l : list Task) :
  t ∈ l -> l ≡ₚ t :: remove_first t l.
Proof.
  induction l as [|x l IH]; intros Hin.
  - by apply elem_of_nil in Hin.
  - cbn. destruct (decide (x = t)) as [->|Hne]; [done|].
    apply elem_of_cons in Hin as [->|Hin]; [done|].
    rewrite (IH Hin) at 1. apply Permutation_swap.
Qed.

Lemma started_accounts evs : forall s s' (gone : list Task),
  started s ≡ₚ gone ++ executing s ->
  run_events evs s = Some s' ->
  started s' ≡ₚ (gone ++ settles evs) ++ executing s'.
Proof.
  induction evs as [|e evs IH]; intros s s' gone Hacc Hrun; cbn in Hrun.
  - injection Hrun as <-. cbn. by rewrite app_nil_r.
  - destruct (exec e s) as [s1|] eqn:He; [|done].
    destruct e as [t|t]; cbn in He.
    + destruct (enqueue t (thr s)) as [th o]. injection He as <-.
      change (settles (Submit t :: evs)) with (settles evs).
      apply (IH _ _ gone) in Hrun; [done|]. cbn.
      by rewrite Hacc, app_assoc.
    + destruct (decide (t ∈ executing s)) as [Hin|]; [|done].
      destruct (release (thr s)) as [th o]. injection He as <-.
      change (settles (Settle t :: evs)) with ([t] ++ settles evs).
      rewrite (app_assoc gone [t]).
      apply (IH _ _ (gone ++ [t])) in Hrun; [done|].
      cbn. rewrite Hacc. rewrite (remove_first_perm _ _ Hin) at 1.
      rewrite <- !app_assoc. cbn. apply Permutation_app_head.
      by rewrite app_comm_cons.
Qed.

(** X1.  Nothing is lost and nothing is run twice: at any moment the
    units submitted so far are, as a multiset, the units that have
    settled, the units executing and the units queued.  Hence once as
    many units have settled as were submitted, the limiter is idle:
    nothing executes, nothing waits, [activeCount] is 0, and every
    submitted unit has been started, in submission order. *)
Theorem throttler_accounts (N : Z) (evs : list (event Task))
    (s0 : state Task) s :
  createThrottler N = Some s0 ->
  run_events evs (init s0) = Some s ->
  submits evs ≡ₚ settles evs ++ executing s ++ queue (thr s)
  /\ (length (settles evs) = length (submits evs) ->
      executing s = [] /\ queue (thr s) = []
      /\ activeCount (thr s) = 0 /\ started s = submits evs).
Proof.
  intros Hnew Hrun.
  destruct (invariant_run evs _ _ (invariant_init _ _ Hnew) Hrun) as (Hinv & _ & Hsub).
  cbn in Hsub. destruct Hinv as [Hc Hb Hf Hq]. rewrite Hsub in Hf.
  pose proof (started_accounts evs (init s0) s [] (reflexivity _) Hrun) as Hacc.
  cbn in Hacc.
  assert (Hperm : submits evs ≡ₚ settles evs ++ executing s ++ queue (thr s)).
  { rewrite <- Hf, Hacc. by rewrite <- app_assoc. }
  split; [done|]. intros Hlen.
  apply Permutation_length in Hperm. rewrite !length_app in Hperm.
  assert (Hex : executing s = []) by (apply nil_length_inv; lia).
  assert (Hqu : queue (thr s) = []) by (apply nil_length_inv; lia).
  split; [done|]. split; [done|]. split.
  - by rewrite Hc, Hex.
  - by rewrite <- Hf, Hqu, app_nil_r.
Qed.

Lemma submits_only (ts : list Task) : forall s s',
  run_events (Submit <$> ts) s = Some s' ->
  executing s = started s -> executing s' = started s'.
Proof.
  induction ts as [|t ts IH]; intros s s' Hrun Heq; cbn in Hrun.
  - by injection Hrun as <-.
  - destruct (enqueue t (thr s)) as [th o].
    apply IH in Hrun; [done|]. cbn. by rewrite Heq.
Qed.

Lemma submits_fmap (ts : list Task) : submits (Submit <$> ts) = ts.
Proof.
  unfold submits. induction ts as [|t ts IH]; cbn; [done|]. by f_equal.
Qed.

(** X2.  A burst of submissions with no settlement in between (as
    [screens.map] makes) is always accepted, starts the first [N] units
    submitted and leaves all others queued in their order. *)
Theorem throttler_burst (N : Z) (ts : list Task) (s0 : state Task) :
  createThrottler N = Some s0 ->
  exists s,
    run_events (Submit <$> ts) (init s0) = Some s
    /\ executing s = take (Z.to_nat N) ts
    /\ queue (thr s) = drop (Z.to_nat N) ts.
Proof.
  intros Hnew.
  assert (Hruns : forall (l : list Task) s1,
            is_Some (run_events (Submit <$> l) s1)).
  { induction l as [|t l IH]; intros s1; cbn; [eauto|].
    destruct (enqueue t (thr s1)) as [th o]. apply IH. }
  destruct (Hruns ts (init s0)) as [s Hrun]. exists s. split; [done|].
  destruct (invariant_run _ _ _ (invariant_init _ _ Hnew) Hrun) as (Hinv & Hmax & Hsub).
  cbn in Hmax, Hsub. rewrite (max_init _ _ Hnew) in Hmax.
  rewrite submits_fmap in Hsub.
  destruct Hinv as [Hc Hb Hf Hq]. rewrite Hsub in Hf. rewrite Hmax in Hb, Hq.
  pose proof (submits_only ts _ _ Hrun eq_refl) as Hex.
  rewrite Hex in *.
  destruct (queue (thr s)) as [|u q] eqn:Hqueue.
  - rewrite app_nil_r in Hf. subst ts.
    rewrite take_ge, drop_ge by lia. done.
  - assert (Hfull : length (started s) = Z.to_nat N).
    { specialize (Hq ltac:(done)). lia. }
    rewrite <- Hf, <- Hfull. by rewrite take_app_length, drop_app_length.
Qed.
End ThrottlerMore.

(** Capacity 2 and three units: after [Submit 1; Submit 2; Submit 3;
    Settle 2; Settle 1; Settle 3] the limiter is idle. *)
Lemma throttler_accounts_witness :
  let evs := [Throttler.Submit 1%nat; Throttler.Submit 2%nat; Throttler.Submit 3%nat;
              Throttler.Settle 2%nat; Throttler.Settle 1%nat; Throttler.Settle 3%nat] in
  exists s,
    Throttler.run_events evs (Throttler.init (Throttler.State 2 0 [])) = Some s
    /\ Throttler.executing s = [] /\ Throttler.queue (Throttler.thr s) = []
    /\ Throttler.started s = [1%nat; 2%nat; 3%nat].
Proof.
  intros evs.
  pose (s := Throttler.Sys (Throttler.State 2 0 []) [] [1%nat; 2%nat; 3%nat]
                [1%nat; 2%nat; 3%nat]).
  exists s. split; [reflexivity|].
  assert (Hrun : Throttler.run_events evs (Throttler.init (Throttler.State 2 0 []))
                 = Some s) by reflexivity.
  destruct (throttler_accounts 2 evs (Throttler.State 2 0 []) s eq_refl Hrun)
    as [_ Hidle].
  destruct (Hidle eq_refl) as (Hex & Hqu & _ & Hst).
  split; [exact Hex|]. split; [exact Hqu|exact Hst].
Defined.

Lemma throttler_burst_witness :
  exists s,
    Throttler.run_events (Throttler.Submit <$> [10%nat; 11%nat; 12%nat; 13%nat; 14%nat])
      (Throttler.init (Throttler.State 2 0 [])) = Some s
    /\ Throttler.executing s = [10%nat; 11%nat]
    /\ Throttler.queue (Throttler.thr s) = [12%nat; 13%nat; 14%nat].
Proof.
  destruct (throttler_burst 2 [10%nat; 11%nat; 12%nat; 13%nat; 14%nat]
              (Throttler.State 2 0 []) eq_refl) as (s & Hrun & Hex & Hqu).
  exists s. split; [exact Hrun|]. split; [exact Hex|exact Hqu].
Defined.

(* ===================================================================== *)
(** * The port listener of the background page, and its caller *)
(* ===================================================================== *)

Section PortFacts.
Import Js Background BackgroundPort.
Context {Object Screens : Type}.
Context (StringToNumber : string -> number) (ObjectToNumber : Object -> number).

Local Abbreviation handle := (@BackgroundPort.handle Object Screens StringToNumber ObjectToNumber).
Local Abbreviation handle_all :=
  (@BackgroundPort.handle_all Object Screens StringToNumber ObjectToNumber).

Lemma handle_invariant e s s' out :
  listener_invariant s ->
  handle e s = Some (s', out) ->
  listener_invariant s'
  /\ (length (calls out) + inFlight s
      = length (settlements [e]) + inFlight s')%nat.
Proof.
  intros (Hle & Hact & Hctl) He. unfold listener_invariant.
  destruct s as [c a k]. cbn in *.
  assert (Hk : k = 0%nat \/ k = 1%nat) by lia.
  destruct e as [[options| |]| |rejected]; cbn in He.
  - unfold BackgroundPort.startDownload, Background.startDownload in He. cbn in He.
    destruct a; injection He as <- <-; cbn.
    + destruct Hk as [-> | ->]; [done|]. split; [|done]. split; [lia|].
      split; [done|]. done.
    + destruct Hk as [-> | ->]; [|done]. split; [|done]. split; [lia|].
      split; [done|]. split; intros; done.
  - injection He as <- <-. unfold cancelDownload. cbn.
    destruct c as [b|]; cbn; (split; [|done]); (split; [done|]); (split; [done|]).
    + split; [done|]. intros Hz. by apply Hctl in Hz.
    + done.
  - injection He as <- <-. cbn. done.
  - injection He as <- <-. unfold cancelDownload. cbn.
    destruct c as [b|]; cbn; (split; [|done]); (split; [done|]); (split; [done|]).
    + split; [done|]. intros Hz. by apply Hctl in Hz.
    + done.
  - destruct k as [|k]; [done|]. injection He as <- <-. cbn.
    assert (k = 0%nat) as -> by lia.
    split; [split; [lia|split; [done|by split]]|].
    destruct rejected as [m|]; [destruct c as [[|]|]|]; cbn; lia.
Qed.

Lemma handle_all_invariant evs : forall s s' out,
  listener_invariant s ->
  handle_all evs s = Some (s', out) ->
  listener_invariant s'
  /\ (length (calls out) + inFlight s
      = length (settlements evs) + inFlight s')%nat.
Proof.
  induction evs as [|e evs IH]; intros s s' out Hinv Hrun; cbn in Hrun.
  - injection Hrun as <- <-. done.
  - destruct (handle e s) as [[s1 out1]|] eqn:He; [|done].
    destruct (handle_all evs s1) as [[s2 out2]|] eqn:Hrest; [|done].
    injection Hrun as <- <-.
    destruct (handle_invariant _ _ _ _ Hinv He) as [Hinv1 Hn1].
    destruct (IH _ _ _ Hinv1 Hrest) as [Hinv2 Hn2].
    split; [done|].
    change (e :: evs) with ([e] ++ evs).
    unfold calls, settlements in *. rewrite !omap_app, !length_app. lia.
Qed.

(** X3.  On one port, at most one call of [run] is unsettled at any time,
    whatever messages, disconnections and settlements arrive and in
    whatever order; [activeTask] is set exactly while there is one, and so
    is the controller; every call made so far has settled or is the one
    under way.  While a call is unsettled a [download] message is answered
    with the error message and starts nothing (also after a [cancel],
    until the cancelled run has settled); otherwise it starts a run with
    a fresh controller.  A [cancel] message and a disconnection post
    nothing and settle nothing, and abort the controller of the run under
    way.  When a run rejects, its message is posted unless the controller
    was aborted, and the listener is back in its initial state. *)
Theorem listener_one_run (evs : list Event) s out :
  handle_all evs initial = Some (s, out) ->
  (inFlight s <= 1)%nat
  /\ activeTask s = bool_decide (inFlight s = 1%nat)
  /\ (controller s = None <-> inFlight s = 0%nat)
  /\ length (calls out) = (length (settlements evs) + inFlight s)%nat
  /\ (forall options,
        if activeTask s
        then handle (OnMessage (Download options)) s
             = Some (s, [PostError "A download is already running."])
        else exists args,
             handle (OnMessage (Download options)) s
             = Some ({| controller := Some false; activeTask := true; inFlight := 1 |},
                     [CallRun args]))
  /\ (forall e s' out',
        e = OnMessage Cancel \/ e = OnDisconnect ->
        handle e s = Some (s', out') ->
        out' = [] /\ inFlight s' = inFlight s /\ activeTask s' = activeTask s
        /\ controller s' = if activeTask s then Some true else None)
  /\ (forall rejected s' out',
        handle (Settled rejected) s = Some (s', out') ->
        s' = initial
        /\ out' = match rejected, controller s with
                  | Some message, Some false => [PostError message]
                  | _, _ => []
                  end).
Proof.
  intros Hrun.
  assert (Hinit : @listener_invariant initial).
  { split; [cbn; lia|]. split; [done|]. by split. }
  destruct (handle_all_invariant evs _ _ _ Hinit Hrun)
    as [(Hle & Hact & Hctl) Hn]. cbn in Hn.
  split; [done|]. split; [done|]. split; [done|]. split; [lia|].
  destruct s as [c a k]. cbn in *.
  assert (Hk : k = 0%nat \/ k = 1%nat) by lia.
  split; [|split].
  - intros options. destruct Hk as [-> | ->]; vm_compute in Hact; subst a; cbn; [|done].
    unfold BackgroundPort.startDownload. cbn. eauto.
  - intros e s' out' [-> | ->] He; cbn in He; injection He as <- <-;
      unfold cancelDownload; cbn;
      (destruct Hk as [-> | ->]; vm_compute in Hact; subst a; cbn;
       [ destruct Hctl as [_ ->]; done
       | destruct c as [b|]; [done|]; by destruct Hctl as [Hc _]; specialize (Hc eq_refl) ]).
  - intros rejected s' out' He. cbn in He.
    destruct Hk as [-> | ->]; [done|]. injection He as <- <-.
    split; [done|].
    destruct rejected as [m|]; [|done].
    destruct c as [[|]|]; [done|done|].
    by destruct Hctl as [Hc _]; specialize (Hc eq_refl).
Qed.

(** The panel's two getters are the background's normalisations of the
    text of the inputs. *)
Lemma getConcurrencyValue_normalizes input :
  Panel.getConcurrencyValue StringToNumber input
  = normalizeConcurrency StringToNumber ObjectToNumber (Str input).
Proof. done. Qed.

Lemma getThrottleValue_normalizes input :
  Panel.getThrottleValue StringToNumber input
  = normalizeThrottle StringToNumber ObjectToNumber (Str input).
Proof. done. Qed.

(** Normalising a number that is already in range gives it back. *)
Lemma normalizeConcurrency_fixed (c : Z) :
  1 <= c <= 10 ->
  normalizeConcurrency StringToNumber ObjectToNumber (Num (of_Z c)) = of_Z c.
Proof.
  intros Hc.
  destruct (normalizeConcurrency_spec StringToNumber ObjectToNumber (Num (of_Z c)))
    as [-> _].
  unfold expected_concurrency, clamp. cbn [Js.Number of_Z]. rewrite Qfloor_Z.
  f_equal. lia.
Qed.

Lemma normalizeThrottle_fixed (t : Z) :
  0 <= t <= 5000 ->
  normalizeThrottle StringToNumber ObjectToNumber (Num (of_Z t)) = of_Z t.
Proof.
  intros Ht.
  destruct (normalizeThrottle_spec StringToNumber ObjectToNumber (Num (of_Z t)))
    as [-> _].
  unfold expected_throttle. cbn [Js.Number of_Z]. rewrite Qfloor_Z.
  change 0%Q with (inject_Z 0). rewrite Qle_bool_inject_Z.
  destruct (0 <=? t) eqn:H0; [|lia]. f_equal. lia.
Qed.

(** X4.  From the panel to the background: whatever the three inputs of
    the panel hold, the request read from them carries an integer
    concurrency between 1 and 10 (1 when "sequential" is ticked) and an
    integer throttle between 0 and 5000, and the background, when idle,
    calls [run] with exactly that concurrency, with that throttle raised
    to 150 when the concurrency is 1 and unchanged otherwise, with the
    screens of the message, 3 attempts and a base delay of 500 ms: its own
    normalisation changes nothing the panel has computed. *)
Theorem panel_request_kept (sequentialChecked : bool)
    (concurrencyInput throttleInput : string) (screens : Screens) :
  let request :=
    Panel.getDownloadRequest StringToNumber sequentialChecked
      concurrencyInput throttleInput in
  exists c t : Z,
    Panel.concurrency request = of_Z c /\ 1 <= c <= 10
    /\ (sequentialChecked = true -> c = 1)
    /\ Panel.throttleMs request = of_Z t /\ 0 <= t <= 5000
    /\ Background.startDownload StringToNumber ObjectToNumber false
         (Panel.download_message request screens)
       = Run {| run_concurrency := of_Z c;
                run_retryAttempts := of_Z 3;
                run_retryBaseDelayMs := of_Z 500;
                run_throttleDelayMs := of_Z (if c =? 1 then Z.max t 150 else t);
                run_screens := Some screens |}.
Proof.
  intros request.
  destruct (normalizeConcurrency_spec StringToNumber ObjectToNumber (Str concurrencyInput))
    as [Hc Hcr].
  destruct (normalizeThrottle_spec StringToNumber ObjectToNumber (Str throttleInput))
    as [Ht Htr].
  set (c0 := expected_concurrency StringToNumber ObjectToNumber (Str concurrencyInput)) in *.
  set (t := expected_throttle StringToNumber ObjectToNumber (Str throttleInput)) in *.
  exists (if sequentialChecked then 1 else c0), t.
  assert (Hconc : Panel.concurrency request = of_Z (if sequentialChecked then 1 else c0)).
  { unfold request, Panel.getDownloadRequest. cbn [Panel.concurrency].
    destruct sequentialChecked; [done|].
    by rewrite getConcurrencyValue_normalizes. }
  assert (Hthr : Panel.throttleMs request = of_Z t).
  { unfold request, Panel.getDownloadRequest. cbn [Panel.throttleMs].
    by rewrite getThrottleValue_normalizes. }
  split; [done|]. split; [destruct sequentialChecked; lia|].
  split; [by intros ->|]. split; [done|]. split; [done|].
  unfold Background.startDownload, Panel.download_message.
  cbn [Background.concurrency Background.sequential Background.throttleMs
       Background.screens Js.Boolean].
  rewrite Hconc, Hthr.
  rewrite normalizeThrottle_fixed by done.
  assert (Hseq : Panel.sequential request = sequentialChecked) by done.
  rewrite Hseq.
  assert (Hsame : (if sequentialChecked then of_Z 1
                   else normalizeConcurrency StringToNumber ObjectToNumber
                          (Num (of_Z (if sequentialChecked then 1 else c0))))
                  = of_Z (if sequentialChecked then 1 else c0)).
  { destruct sequentialChecked; [done|]. by apply normalizeConcurrency_fixed. }
  rewrite Hsame, strict_eq_of_Z.
  unfold DEFAULT_SEQUENTIAL_THROTTLE_MS. rewrite Math_max_of_Z.
  by destruct (_ =? 1).
Qed.
End PortFacts.

(** Two [download] messages and a [cancel]: the second message is turned
    away, one run has been started, and it is still the one under way. *)
Lemma listener_one_run_witness :
  let options : @Background.DownloadMessage Empty_set (list nat) :=
    {| Background.concurrency := Js.Num (Js.of_Z 3);
       Background.sequential := Js.Bool false;
       Background.throttleMs := Js.Undefined;
       Background.screens := None |} in
  let evs := [BackgroundPort.OnMessage (BackgroundPort.Download options);
              BackgroundPort.OnMessage (BackgroundPort.Download options);
              BackgroundPort.OnMessage BackgroundPort.Cancel] in
  exists s out,
    BackgroundPort.handle_all (fun _ => Js.NaN) (fun o : Empty_set => match o with end)
      evs BackgroundPort.initial = Some (s, out)
    /\ (BackgroundPort.inFlight s <= 1)%nat
    /\ length (BackgroundPort.calls out) = 1%nat
    /\ out !! 1%nat = Some (BackgroundPort.PostError "A download is already running.").
Proof.
  intros options evs.
  pose (s := {| BackgroundPort.controller := Some true;
                BackgroundPort.activeTask := true;
                BackgroundPort.inFlight := 1 |}).
  assert (Hrun : exists out,
             BackgroundPort.handle_all (fun _ => Js.NaN)
               (fun o : Empty_set => match o with end) evs BackgroundPort.initial
             = Some (s, out)
             /\ out !! 1%nat
                = Some (BackgroundPort.PostError "A download is already running.")).
  { eexists. split; reflexivity. }
  destruct Hrun as (out & Hrun & Hsecond).
  exists s, out.
  destruct (listener_one_run _ _ evs s out Hrun) as (Hle & _ & _ & Hcalls & _).
  split; [exact Hrun|]. split; [exact Hle|]. split; [exact Hcalls|exact Hsecond].
Defined.

(* ===================================================================== *)
(** * The whole of [getAllScreens] *)
(* ===================================================================== *)

Section CollectorMore.
Import Js LightshotClient.
Context (fetchImpl : nat -> Params -> Error + Response) (today : string)
        (signal : option (nat -> bool)) (batchSize : Z).

Local Abbreviation loop := (getAllScreens_loop fetchImpl today signal).
Local Abbreviation page_of := (fun n cursor => fetchPage fetchImpl today n cursor batchSize).
Local Abbreviation entered := (iterates fetchImpl today signal batchSize).

(** Either the page stops the loop, or it names the next cursor and is
    not empty. *)
Lemma verdict_cases cursor page :
  (exists reason, verdict false cursor page = inl reason)
  \/ (exists next, verdict false cursor page = inr next /\ screens page <> []).
Proof.
  unfold verdict.
  destruct (screens page) as [|x l] eqn:Hs.
  - left. rewrite bool_decide_eq_true_2 by done. eauto.
  - rewrite bool_decide_eq_false_2 by done.
    destruct (truthy (nextCursor page)) as [c|].
    + destruct (decide (c = cursor)); [left|right]; eauto.
    + destruct (last (x :: l)) as [z|]; [|left; eauto].
      destruct (decide (id36 z = cursor)); [left|right]; eauto.
Qed.

(** A page that stops the loop makes it return what was gathered,
    the page included. *)
Lemma loop_stops fuel n cursor all page reason :
  aborted signal n = false ->
  page_of n cursor = inr page ->
  verdict false cursor page = inl reason ->
  loop (S fuel) n batchSize cursor all = Some (S n, inr (all ++ screens page)).
Proof.
  intros Hab Hpage Hv. cbn [getAllScreens_loop]. rewrite Hab, Hpage.
  unfold verdict in Hv.
  destruct (screens page) as [|x l] eqn:Hs.
  - rewrite bool_decide_eq_true_2 by done. by rewrite app_nil_r.
  - rewrite bool_decide_eq_false_2 in Hv by done.
    rewrite bool_decide_eq_false_2 by done.
    destruct (truthy (nextCursor page)) as [c|].
    + destruct (decide (c = cursor)) as [->|]; [|done].
      by rewrite String.eqb_refl.
    + destruct (last (x :: l)) as [z|]; [|done].
      destruct (decide (id36 z = cursor)) as [->|]; [|done].
      by rewrite String.eqb_refl.
Qed.

Lemma loop_settles fuel : forall n cursor all k r,
  entered n cursor all ->
  (n <= length all)%nat ->
  loop fuel n batchSize cursor all = Some (k, r) ->
  exists n' cursor' all',
    entered n' cursor' all'
    /\ (n' <= length all')%nat
    /\ ((aborted signal n' = true /\ k = n' /\ r = inr all')
        \/ (aborted signal n' = false /\ k = S n'
            /\ match page_of n' cursor' with
               | inl thrown => r = inl thrown
               | inr page =>
                   (exists reason, verdict false cursor' page = inl reason)
                   /\ r = inr (all' ++ screens page)
               end)).
Proof.
  induction fuel as [|fuel IH]; intros n cursor all k r Hit Hlen Hrun; [done|].
  destruct (aborted signal n) eqn:Hab.
  { cbn [getAllScreens_loop] in Hrun. rewrite Hab in Hrun. injection Hrun as <- <-.
    exists n, cursor, all. eauto 10. }
  destruct (page_of n cursor) as [thrown|page] eqn:Hpage.
  { cbn [getAllScreens_loop] in Hrun. rewrite Hab, Hpage in Hrun.
    injection Hrun as <- <-.
    exists n, cursor, all. split; [done|]. split; [done|]. right.
    by rewrite Hpage. }
  destruct (verdict_cases cursor page) as [[reason Hv]|(next & Hv & Hne)].
  - rewrite (loop_stops _ _ _ _ _ _ Hab Hpage Hv) in Hrun. injection Hrun as <- <-.
    exists n, cursor, all. split; [done|]. split; [done|]. right.
    rewrite Hpage. eauto.
  - assert (Hv' : verdict (aborted signal n) cursor page = inr next) by by rewrite Hab.
    rewrite (loop_continues _ _ _ _ _ _ _ _ _ _ Hpage Hv') in Hrun.
    eapply IH; [by eapply iterates_next| |exact Hrun].
    rewrite length_app. destruct (screens page); [done|]. cbn. lia.
Qed.

(** X5.  When [getAllScreens] settles, some iteration [n] of its loop
    was entered (after [n] requests that all went on) and one of three
    things happened there:
    - cancellation had been signalled: the call returns what was
      gathered, after [n] requests;
    - the request of that iteration failed ([fetchImpl] rejected, the
      status was not ok, the body was no JSON, or the reply was a refusal
      with items): the call rejects with that very error, and nothing of
      what was gathered is returned;
    - the page met a stop condition: the call returns what was gathered
      and that page.
    In each case the number of requests is at most one more than the
    number of screens gathered before the last request; a call that
    returns [got] has made at most [length got + 1] requests. *)
Theorem getAllScreens_settles fuel k r :
  getAllScreens fetchImpl today signal fuel batchSize = Some (k, r) ->
  (exists n cursor all,
    entered n cursor all
    /\ (n <= length all)%nat
    /\ ((aborted signal n = true /\ k = n /\ r = inr all)
        \/ (aborted signal n = false /\ k = S n
            /\ match page_of n cursor with
               | inl thrown => r = inl thrown
               | inr page =>
                   (exists reason, verdict false cursor page = inl reason)
                   /\ r = inr (all ++ screens page)
               end)))
  /\ (forall got, r = inr got -> (k <= S (length got))%nat).
Proof.
  intros Hrun.
  destruct (loop_settles fuel 0 "0" [] k r (iterates_first _ _ _ _) ltac:(cbn; lia) Hrun)
    as (n & cursor & all & Hit & Hlen & Hcases).
  split; [by exists n, cursor, all|].
  intros got ->.
  destruct Hcases as [(_ & -> & [= <-])|(_ & -> & Hpage)]; [lia|].
  destruct (page_of n cursor) as [|page]; [done|].
  destruct Hpage as [_ [= ->]]. rewrite length_app. lia.
Qed.

(** X6.  Against a server that answers every request with a page that
    meets no stop condition (it is not empty and names a cursor other
    than the one asked with), the loop ends only by cancellation: with no
    signal, or one that never fires, the call is still running after any
    number of iterations; and if the signal is first seen aborted at the
    head of iteration [m], the call returns after exactly [m] requests
    with at least [m] screens. *)
Theorem getAllScreens_runs_on :
  (forall n cursor, exists page next,
      page_of n cursor = inr page
      /\ verdict false cursor page = inr next) ->
  (forall fuel, (forall n, (n < fuel)%nat -> aborted signal n = false) ->
     getAllScreens fetchImpl today signal fuel batchSize = None)
  /\ (forall m fuel,
        (forall n, (n < m)%nat -> aborted signal n = false) ->
        aborted signal m = true ->
        (m < fuel)%nat ->
        exists got,
          getAllScreens fetchImpl today signal fuel batchSize = Some (m, inr got)
          /\ (m <= length got)%nat).
Proof.
  intros Hserver.
  assert (Hgo : forall m, (forall n, (n < m)%nat -> aborted signal n = false) ->
            exists cursor all, entered m cursor all /\ (m <= length all)%nat).
  { induction m as [|m IH]; intros Hquiet.
    - exists "0", []. split; [constructor|done].
    - destruct IH as (cursor & all & Hit & Hlen); [intros; apply Hquiet; lia|].
      destruct (Hserver m cursor) as (page & next & Hpage & Hv).
      exists next, (all ++ screens page). split.
      + eapply iterates_next; [done|done|]. rewrite Hquiet by lia. done.
      + destruct (verdict_cases cursor page) as [[reason Hr]|(next' & _ & Hne)];
          [congruence|].
        rewrite length_app. destruct (screens page); [done|]. cbn. lia. }
  split.
  - intros fuel Hquiet.
    destruct (Hgo fuel Hquiet) as (cursor & all & Hit & _).
    pose proof (loop_reaches _ _ _ _ _ _ _ Hit 0%nat) as Heq.
    rewrite Nat.add_0_r in Heq. by rewrite Heq.
  - intros m fuel Hquiet Hab Hfuel.
    destruct (Hgo m Hquiet) as (cursor & all & Hit & Hlen).
    exists all. split; [|done].
    pose proof (loop_reaches _ _ _ _ _ _ _ Hit (fuel - m)%nat) as Heq.
    replace (m + (fuel - m))%nat with fuel in Heq by lia. rewrite Heq.
    destruct (fuel - m)%nat as [|f] eqn:Hf; [lia|].
    cbn [getAllScreens_loop]. by rewrite Hab.
Qed.
End CollectorMore.

Section CollectorRuns.
Import Js LightshotClient.

(** The listing of two screens: the call returns them after two requests,
    the second page being the empty one that stops the loop. *)
Lemma getAllScreens_settles_witness :
  exists n cursor all,
    iterates CollectorScenario.two_screens "today" None 20 n cursor all
    /\ (n <= length all)%nat /\ n = 1%nat /\ cursor = "b".
Proof.
  destruct (getAllScreens_settles CollectorScenario.two_screens "today" None 20 5
              2%nat (inr [toScreenMeta "today" (CollectorScenario.shot "a");
                          toScreenMeta "today" (CollectorScenario.shot "b")])
              eq_refl) as [(n & cursor & all & Hit & Hlen & Hcases) _].
  exists n, cursor, all.
  assert (Hn : n = 1%nat).
  { destruct Hcases as [(Hab & _)|(_ & Hk & _)]; [discriminate Hab|]. by injection Hk. }
  split; [exact Hit|]. split; [exact Hlen|]. split; [exact Hn|].
  subst n. inversion Hit as [|? ? ? page ? Hit0 Hpage Hv]; subst.
  inversion Hit0; subst. cbn in Hpage. injection Hpage as <-. cbn in Hv. by injection Hv.
Defined.

(** The endless listing, with a signal that fires before the fourth
    iteration: the call returns after three requests. *)
Lemma getAllScreens_runs_on_witness :
  getAllScreens EndlessScenario.endless "today" None 50 20 = None
  /\ exists got,
       getAllScreens EndlessScenario.endless "today" (Some (fun n => (3 <=? n)%nat)) 50 20
       = Some (3%nat, inr got).
Proof.
  assert (Hserver : forall n cursor, exists page next,
             fetchPage EndlessScenario.endless "today" n cursor 20 = inr page
             /\ verdict false cursor page = inr next).
  { intros n cursor. unfold fetchPage, EndlessScenario.endless, verdict. cbn.
    destruct (String.eqb cursor "0") eqn:H0; cbn.
    - apply String.eqb_eq in H0 as ->. by eexists _, _.
    - destruct (String.eqb cursor "x") eqn:Hx; cbn.
      + apply String.eqb_eq in Hx as ->. by eexists _, _.
      + apply String.eqb_neq in Hx. eexists _, "x". split; [reflexivity|].
        unfold candidateScreens, continuation, result_of, nullish, truthy. cbn.
        by destruct (decide ("x" = cursor)). }
  split.
  - apply (getAllScreens_runs_on _ _ None _ Hserver). done.
  - destruct (getAllScreens_runs_on _ _ (Some (fun n => (3 <=? n)%nat)) _
                Hserver) as [_ Hcut].
    destruct (Hcut 3%nat 50%nat) as (got & Hrun & _).
    + intros n Hn. unfold aborted. apply Nat.leb_gt. lia.
    + done.
    + lia.
    + by exists got.
Defined.
End CollectorRuns.

(* ===================================================================== *)
(** * The whole of [downloadWithRetry] *)
(* ===================================================================== *)

Section FetcherMore.
Import Js DownloadService FetcherTrace.
Context (boundFetch : string -> Z -> Error + Response)
        (signal : nat -> bool)
        (abortReason : Error)
        (Date_parse : string -> option Z)
        (R base throttle : Z) (screen : ScreenMeta).

Local Abbreviation try_block :=
  (DownloadService.try_block boundFetch signal abortReason Date_parse throttle screen).
Local Abbreviation attempts :=
  (DownloadService.attempts boundFetch signal abortReason Date_parse R base throttle screen).
Local Abbreviation attempt_error := (DownloadService.attempt_error boundFetch screen).
Local Abbreviation fails_retryably := (DownloadService.fails_retryably boundFetch screen).
Local Abbreviation retries := (FetcherTrace.retries boundFetch R base screen).
Local Abbreviation stored := (FetcherTrace.stored screen Date_parse).
Local Abbreviation served := (FetcherTrace.served boundFetch screen).

Lemma zipped_app (a b : list Effect) : zipped (a ++ b) = zipped a ++ zipped b.
Proof. apply omap_app. Qed.

Lemma logged_app (a b : list Effect) : logged (a ++ b) = logged a ++ logged b.
Proof. apply omap_app. Qed.

Lemma waited_app (a b : list Effect) : waited (a ++ b) = waited a + waited b.
Proof.
  unfold waited. induction a as [|[] a IH]; cbn; try done; rewrite IH; lia.
Qed.

(** One attempt under any signal. *)
Lemma try_block_cases attempt n :
  match try_block attempt n with
  | (Returns true, effects, n') =>
      exists buffer, served attempt buffer /\ zipped effects = [stored buffer]
                     /\ logged effects = []
  | (Returns false, _, _) => False
  | (Throws e, effects, n') =>
      logged effects = []
      /\ (length (zipped effects) <= 1)%nat
      /\ (signal n' = false -> zipped effects = [])
  end.
Proof.
  unfold DownloadService.try_block.
  destruct (signal n); [by split; [|split; [cbn; lia|]]|].
  destruct (boundFetch (url screen) attempt) as [e|r] eqn:Hr;
    [by split; [|split; [cbn; lia|]]|].
  destruct (ok r) eqn:Hok; cbn [negb].
  - destruct (arrayBuffer r) as [e|buffer] eqn:Hb; [by split; [|split; [cbn; lia|]]|].
    assert (Hserved : served attempt buffer) by by exists r.
    destruct (throttle >? 0).
    + unfold delay. destruct (throttle <=? 0); [by eexists|].
      destruct (signal (S (S n))) eqn:H2; [by eexists|].
      destruct (signal (S (S (S n)))) eqn:H3; [|by eexists].
      split; [done|]. split; [cbn; lia|]. by rewrite H3.
    + by eexists.
  - destruct (status r =? 403); [|by split; [|split; [cbn; lia|]]].
    destruct (is_account_trouble _); by split; [|split; [cbn; lia|]].
Qed.

Lemma delay_rejects ms n e n' :
  delay signal ms n = (Some e, n') -> signal n' = true.
Proof.
  unfold delay. destruct (ms <=? 0); [done|].
  destruct (signal n); [done|].
  destruct (signal (S n)) eqn:Hs; [|done]. by intros [= _ <-].
Qed.

Lemma attempts_cases remaining : forall attempt n,
  attempt + Z.of_nat remaining = R + 1 ->
  match attempts remaining attempt n with
  | (Returns true, effects, _) =>
      exists k buffer, attempt <= k <= R /\ served k buffer
                       /\ zipped effects = [stored buffer]
  | (Returns false, effects, _) =>
      zipped effects = []
      /\ ((0 < remaining)%nat ->
          exists e, last (logged effects) = Some (LogPayload warn (final_message screen e)))
  | (Throws e, effects, n') =>
      signal n' = true /\ (length (zipped effects) <= 1)%nat
  end.
Proof.
  induction remaining as [|remaining IH]; intros attempt n Hsum.
  { cbn. split; [done|lia]. }
  cbn [DownloadService.attempts].
  pose proof (try_block_cases attempt n) as Htry.
  destruct (try_block attempt n) as [[[[|]|e] effects] n']; [|done|].
  { destruct Htry as (buffer & Hs & Hz & _). exists attempt, buffer.
    split; [lia|done]. }
  destruct Htry as (Hlog & Hle & Hz).
  destruct (signal n') eqn:Hn'; [done|].
  specialize (Hz eq_refl).
  destruct ((attempt <? R) && negb (nonRetryable e)) eqn:Hretry.
  - apply andb_true_iff in Hretry as [Hlt%Z.ltb_lt _].
    destruct (delay signal _ n') as [[rej|] n''] eqn:Hd.
    + split; [by eapply delay_rejects|].
      rewrite zipped_app, Hz. cbn. lia.
    + specialize (IH (attempt + 1) n'' ltac:(lia)).
      destruct (attempts remaining (attempt + 1) n'') as [[[[|]|e'] rest] n3].
      * destruct IH as (k & buffer & Hk & Hs & Hz').
        exists k, buffer. split; [lia|]. split; [done|].
        by rewrite !zipped_app, Hz, Hz'.
      * destruct IH as [Hz' Hlast]. split; [by rewrite !zipped_app, Hz, Hz'|].
        intros _.
        destruct remaining as [|remaining].
        { (* no attempt is left only when [attempt = R] *)
          exfalso. lia. }
        destruct Hlast as [e0 Hlast]; [lia|]. exists e0.
        by rewrite !logged_app, !last_app, Hlast.
      * destruct IH as [Hs Hle']. split; [done|].
        rewrite !zipped_app, Hz. cbn. done.
  - split; [by rewrite zipped_app, Hz|].
    intros _. exists e. rewrite logged_app, Hlog. done.
Qed.

(** X7.  Whatever the server and the signal do, one call of
    [downloadWithRetry] with at least one attempt allowed
    - rejects only when the signal is aborted at that moment;
    - returns [true] only after storing exactly one file in the archive:
      the body of an ok response to one of its requests, under the name
      [screenshot_<id>.png], dated by the screen's date when that parses;
    - returns [false] only without having stored anything, and its last
      message is then the "Final failure" warning;
    - stores at most one file in any case, and posts nothing but log
      lines. *)
Theorem downloadWithRetry_outcome :
  1 <= R ->
  let '(completion, effects, n) :=
    downloadWithRetry boundFetch signal abortReason Date_parse R base throttle screen in
  match completion with
  | Returns true =>
      exists k buffer, 1 <= k <= R /\ served k buffer
                       /\ zipped effects = [stored buffer]
  | Returns false =>
      zipped effects = []
      /\ exists e, last (logged effects) = Some (LogPayload warn (final_message screen e))
  | Throws _ => signal n = true
  end
  /\ (length (zipped effects) <= 1)%nat
  /\ Forall logs_only effects.
Proof.
  intros HR. unfold downloadWithRetry.
  pose proof (attempts_cases (Z.to_nat R) 1 0 ltac:(lia)) as Hcases.
  pose proof (attempts_logs boundFetch abortReason Date_parse signal R base throttle
                screen (Z.to_nat R) 1 0) as Hlogs.
  destruct (attempts (Z.to_nat R) 1 0) as [[[[|]|e] effects] n]; cbn [fst snd] in Hlogs.
  - destruct Hcases as (k & buffer & Hk & Hs & Hz).
    split; [by exists k, buffer|]. split; [by rewrite Hz|done].
  - destruct Hcases as [Hz Hlast]. split; [|split; [by rewrite Hz; cbn; lia|done]].
    split; [done|]. apply Hlast. lia.
  - destruct Hcases as [Hs Hle]. done.
Qed.

Section Quiet.
Hypothesis quiet : forall n, signal n = false.

Lemma try_block_fails attempt n e :
  attempt_error attempt = Some e ->
  exists n', try_block attempt n = (Throws e, [Fetch (url screen)], n').
Proof.
  unfold DownloadService.try_block, DownloadService.attempt_error.
  rewrite quiet.
  destruct (boundFetch (url screen) attempt) as [e'|r]; [intros [= ->]; eauto|].
  destruct (negb (ok r)).
  - destruct (status r =? 403); cbn [andb]; [|intros [= <-]; eauto].
    destruct (is_account_trouble _); intros [= <-]; eauto.
  - destruct (arrayBuffer r); [intros [= ->]; eauto|done].
Qed.

Lemma try_block_serves attempt n :
  attempt_error attempt = None ->
  exists buffer n',
    served attempt buffer
    /\ try_block attempt n
       = (Returns true,
          [Fetch (url screen);
           ZipFile ("screenshot_" +:+ id36 screen +:+ ".png") buffer
             (parseLightshotDate Date_parse (date screen))]
            ++ (if throttle >? 0 then [Delay throttle] else []), n').
Proof.
  unfold DownloadService.try_block, DownloadService.attempt_error, FetcherTrace.served.
  rewrite quiet.
  destruct (boundFetch (url screen) attempt) as [e'|r]; [done|].
  destruct (ok r) eqn:Hok; cbn [negb].
  - destruct (arrayBuffer r) as [|buffer] eqn:Hb; [done|]. intros _.
    destruct (throttle >? 0).
    + destruct (delay_quiet signal quiet throttle (S (S n))) as [n' ->].
      exists buffer, n'. split; [by exists r|done].
    + exists buffer, (S (S n)). split; [by exists r|done].
  - destruct (status r =? 403); cbn [andb]; [|done].
    by destruct (is_account_trouble _).
Qed.

Lemma attempts_retries k : forall remaining attempt n,
  (forall j, attempt <= j < attempt + Z.of_nat k -> fails_retryably j) ->
  attempt + Z.of_nat k <= R ->
  exists n',
    attempts (k + remaining) attempt n
    = ((attempts remaining (attempt + Z.of_nat k) n').1.1,
       retries k attempt ++ (attempts remaining (attempt + Z.of_nat k) n').1.2,
       (attempts remaining (attempt + Z.of_nat k) n').2).
Proof.
  induction k as [|k IH]; intros remaining attempt n Hfail Hle.
  - exists n. rewrite Z.add_0_r. cbn.
    by destruct (attempts remaining attempt n) as [[??]?].
  - destruct (Hfail attempt ltac:(lia)) as (e & He & Hre).
    change (S k + remaining)%nat with (S (k + remaining)).
    cbn [DownloadService.attempts FetcherTrace.retries].
    destruct (try_block_fails attempt n e He) as [n' ->].
    rewrite quiet, Hre, He.
    assert (Hlt : (attempt <? R) = true) by (apply Z.ltb_lt; lia).
    rewrite Hlt. cbn [andb negb].
    destruct (delay_quiet signal quiet (base * 2 ^ (attempt - 1)) n') as [n'' ->].
    destruct (IH remaining (attempt + 1) n'') as [n3 Hrest].
    { intros j Hj. apply Hfail. lia. }
    { lia. }
    replace (attempt + 1 + Z.of_nat k) with (attempt + Z.of_nat (S k)) in Hrest by lia.
    exists n3. rewrite Hrest. cbn [fst snd]. done.
Qed.

Lemma waited_retries k : forall attempt,
  1 <= attempt ->
  (forall j, attempt <= j < attempt + Z.of_nat k -> fails_retryably j) ->
  waited (retries k attempt)
  = base * (2 ^ (attempt - 1 + Z.of_nat k) - 2 ^ (attempt - 1)).
Proof.
  induction k as [|k IH]; intros attempt Hone Hfail.
  - cbn. rewrite Z.add_0_r. lia.
  - destruct (Hfail attempt ltac:(lia)) as (e & He & _).
    cbn [FetcherTrace.retries]. rewrite He, waited_app, IH; [|lia|intros; apply Hfail; lia].
    cbn [waited foldr].
    replace (attempt - 1 + Z.of_nat (S k)) with (Z.succ (attempt - 1 + Z.of_nat k)) by lia.
    replace (attempt + 1 - 1 + Z.of_nat k) with (Z.succ (attempt - 1 + Z.of_nat k)) by lia.
    replace (attempt + 1 - 1) with (Z.succ (attempt - 1)) by lia.
    rewrite !Z.pow_succ_r by lia. ring.
Qed.

(** X8.  With no cancellation, let attempts [1 .. k-1] fail retryably
    and [k <= retryAttempts].  Then all the call does is, in order: for
    each failed attempt [j] its request, the warning
    "Retry j/retryAttempts for <id>: <message>" and a backoff of
    [retryBaseDelayMs * 2^(j-1)] ms, and then
    - if attempt [k] is served: its request, the file stored in the
      archive, and the throttle delay when positive; it returns [true];
    - if attempt [k] fails and is the last one allowed, or fails in a
      way that must not be retried: its request and the warning
      "Final failure for <id>: <message>"; it returns [false].
    The backoffs add up to [retryBaseDelayMs * (2^(k-1) - 1)] ms. *)
Theorem downloadWithRetry_trace (k : Z) :
  1 <= k <= R ->
  (forall j, 1 <= j < k -> fails_retryably j) ->
  let outcome :=
    downloadWithRetry boundFetch signal abortReason Date_parse R base throttle screen in
  match attempt_error k with
  | None =>
      exists buffer,
        served k buffer
        /\ outcome.1
           = (Returns true,
              retries (Z.to_nat (k - 1)) 1
                ++ [Fetch (url screen);
                    ZipFile ("screenshot_" +:+ id36 screen +:+ ".png") buffer
                      (parseLightshotDate Date_parse (date screen))]
                ++ (if throttle >? 0 then [Delay throttle] else []))
  | Some e =>
      nonRetryable e = true \/ k = R ->
      outcome.1
      = (Returns false,
         retries (Z.to_nat (k - 1)) 1
           ++ [Fetch (url screen);
               Send (LogPayload warn (final_message screen e))])
  end
  /\ waited (retries (Z.to_nat (k - 1)) 1) = base * (2 ^ (k - 1) - 1).
Proof.
  intros Hk Hfail outcome. split.
  - destruct (attempts_retries (Z.to_nat (k - 1)) (S (Z.to_nat (R - k))) 1 0)
      as [n' Hrun].
    { intros j Hj. apply Hfail. lia. }
    { lia. }
    replace (Z.to_nat (k - 1) + S (Z.to_nat (R - k)))%nat with (Z.to_nat R) in Hrun by lia.
    replace (1 + Z.of_nat (Z.to_nat (k - 1))) with k in Hrun by lia.
    unfold outcome, downloadWithRetry. rewrite Hrun. cbn [fst snd].
    cbn [DownloadService.attempts].
    destruct (attempt_error k) as [e|] eqn:He.
    + intros Hstop. destruct (try_block_fails k n' e He) as [n'' ->].
      rewrite quiet.
      assert (Hno : (k <? R) && negb (nonRetryable e) = false).
      { destruct Hstop as [-> | ->]; [by rewrite andb_false_r|].
        by rewrite Z.ltb_irrefl. }
      rewrite Hno. done.
    + destruct (try_block_serves k n' He) as (buffer & n'' & Hs & ->).
      exists buffer. done.
  - rewrite waited_retries; [|lia|intros j Hj; apply Hfail; lia].
    replace (1 - 1 + Z.of_nat (Z.to_nat (k - 1))) with (k - 1) by lia.
    done.
Qed.
End Quiet.
End FetcherMore.

Section FetcherRuns.
Import Js DownloadService FetcherTrace.

(** The screen served at the third attempt, cancelled during the first
    backoff: the call rejects, and the signal is aborted then. *)
Lemma downloadWithRetry_outcome_witness :
  let signal := fun n : nat => (2 <=? n)%nat in
  let outcome :=
    downloadWithRetry DownloadScenario.server signal new_AbortError
      DownloadScenario.no_dates 3 500 150 (DownloadScenario.shot "slow") in
  outcome.1.1 = Throws new_AbortError /\ signal outcome.2 = true.
Proof.
  intros signal outcome.
  pose proof (downloadWithRetry_outcome DownloadScenario.server signal new_AbortError
                DownloadScenario.no_dates 3 500 150 (DownloadScenario.shot "slow")
                ltac:(lia)) as Hout.
  fold outcome in Hout.
  assert (Hrun : exists effects, outcome = (Throws new_AbortError, effects, 2%nat)).
  { eexists. reflexivity. }
  destruct Hrun as [effects Hrun]. rewrite Hrun in Hout |- *.
  destruct Hout as [Hsignal _]. split; [reflexivity|exact Hsignal].
Defined.

(** The same screen with no cancellation: two retries with backoffs of
    500 and 1000 ms, then the download. *)
Lemma downloadWithRetry_trace_witness :
  waited (retries DownloadScenario.server 3 500 (DownloadScenario.shot "slow") 2 1) = 1500
  /\ (downloadWithRetry DownloadScenario.server (fun _ => false) new_AbortError
        DownloadScenario.no_dates 3 500 150 (DownloadScenario.shot "slow")).1.1
     = Returns true.
Proof.
  destruct (downloadWithRetry_trace DownloadScenario.server (fun _ => false)
              new_AbortError DownloadScenario.no_dates 3 500 150
              (DownloadScenario.shot "slow") (fun _ => eq_refl) 3 ltac:(lia))
    as [Hcase Hwait].
  - intros j Hj. assert (j = 1 \/ j = 2) as [-> | ->] by lia.
    + eexists. split; reflexivity.
    + eexists. split; reflexivity.
  - split; [exact Hwait|].
    change (attempt_error DownloadScenario.server (DownloadScenario.shot "slow") 3)
      with (@None Error) in Hcase.
    destruct Hcase as (buffer & _ & Hout). by rewrite Hout.
Defined.
End FetcherRuns.

(* ===================================================================== *)
(** * A run as a whole *)
(* ===================================================================== *)

Section RunMore.
Import Js DownloadService FetcherTrace RunTrace.
Context (boundFetch : string -> Z -> Error + Response)
        (abortReason : Error)
        (Date_parse : string -> option Z).

Implicit Types (s : RunState) (us : list UnitPhase) (u p : UnitPhase).

Local Abbreviation script := (DownloadService.script boundFetch abortReason Date_parse).
Local Abbreviation launch := (DownloadService.launch boundFetch abortReason Date_parse).
Local Abbreviation submit := (DownloadService.submit boundFetch abortReason Date_parse).
Local Abbreviation settle := (DownloadService.settle boundFetch abortReason Date_parse).
Local Abbreviation transition := (DownloadService.transition boundFetch abortReason Date_parse).
Local Abbreviation run_labels := (DownloadService.run_labels boundFetch abortReason Date_parse).
Local Abbreviation downloadScreens :=
  (DownloadService.downloadScreens boundFetch abortReason Date_parse).
Local Abbreviation run := (DownloadService.run boundFetch abortReason Date_parse).

(** *** Sums over the units *)

Lemma sum_of_app w us vs : sum_of w (us ++ vs) = sum_of w us + sum_of w vs.
Proof. unfold sum_of. induction us as [|u us IH]; cbn; lia. Qed.

Lemma sum_of_insert w us : forall i u p,
  us !! i = Some u -> sum_of w (<[i := p]> us) = sum_of w us - w u + w p.
Proof.
  unfold sum_of.
  induction us as [|x us IH]; intros [|i] u p Hi; cbn in *; try done.
  - injection Hi as ->. lia.
  - rewrite (IH _ _ _ Hi). lia.
Qed.

Lemma sum_of_fulfilled w us :
  w Fulfilled = 0 ->
  forallb (fun u => match u with Fulfilled => true | _ => false end) us = true ->
  sum_of w us = 0.
Proof.
  intros Hw. unfold sum_of. induction us as [|[] us IH]; cbn; try done.
  intros H. rewrite IH by done. lia.
Qed.

Lemma sum_of_one w u : sum_of w [u] = w u.
Proof. unfold sum_of. cbn. lia. Qed.

Local Arguments sum_of : simpl never.
Local Arguments in_flight : simpl never.

Lemma tally_length us : 0 <= tally us <= Z.of_nat (length us).
Proof. induction us as [|[] us IH]; cbn [tally weight length]; lia. Qed.

(** *** What a unit is handed when it starts *)

Lemma script_shape l screen :
  exists effects c,
    script l screen = Running effects c
    /\ zip_ok (Running effects c) /\ owed (Running effects c) = 0
    /\ Forall logs_only effects.
Proof.
  unfold DownloadService.script, downloadWithRetry.
  set (R := retryAttempts (args l)).
  pose proof (attempts_logs boundFetch abortReason Date_parse (fun _ => false) R
                (retryBaseDelayMs (args l)) (effectiveThrottle l) screen
                (Z.to_nat R) 1 0) as Hlogs.
  destruct (decide (1 <= R)) as [HR|HR].
  - pose proof (attempts_cases boundFetch (fun _ => false) abortReason Date_parse R
                  (retryBaseDelayMs (args l)) (effectiveThrottle l) screen
                  (Z.to_nat R) 1 0 ltac:(lia)) as Hcases.
    destruct (attempts _ _ _ _ _ _ _ _ _ _ _) as [[[[|]|e] effects] n];
      cbn [fst snd] in Hlogs.
    + destruct Hcases as (k & buffer & _ & _ & Hz).
      eexists _, _. split; [done|]. cbn. rewrite Hz. cbn. split; [lia|]. split; [lia|done].
    + destruct Hcases as [Hz _]. eexists _, _. split; [done|]. cbn. done.
    + by destruct Hcases as [Hs _].
  - replace (Z.to_nat R) with 0%nat in * by lia. cbn.
    eexists _, _. split; [done|]. cbn. done.
Qed.

(** *** The limiter inside a run *)

Lemma start_measures s screen :
  let p := if aborted s then Throwing else script (locals s) screen in
  busy p = 1 /\ owed p = 0 /\ rejected p = 0 /\ zip_ok p
  /\ (aborted s = true -> p = Throwing).
Proof.
  destruct (aborted s); cbn; [done|].
  destruct (script_shape (locals s) screen) as (effects & c & -> & Hok & Howed & _).
  done.
Qed.

(** The units that wait are those from some index on; a unit that does
    not wait and is replaced by one that does not leaves it so. *)
Lemma prefix_insert us (q : nat) i u p :
  (forall j v, us !! j = Some v -> (v = Queued <-> (length us - q <= j)%nat)) ->
  us !! i = Some u -> u <> Queued -> p <> Queued ->
  forall j v, <[i := p]> us !! j = Some v ->
    (v = Queued <-> (length (<[i := p]> us) - q <= j)%nat).
Proof.
  intros Hpre Hi Hu Hp j v Hj. rewrite length_insert.
  destruct (decide (i = j)) as [->|Hne].
  - rewrite list_lookup_insert_eq in Hj by (by eapply lookup_lt_Some).
    injection Hj as <-. pose proof (Hpre _ _ Hi) as Hiff. tauto.
  - rewrite list_lookup_insert_ne in Hj by done. by apply Hpre.
Qed.

(** Calling [next] and starting what it hands out. *)
Lemma launch_trace s :
  queue_shape (Throttler.queue (throttler s)) (units s) ->
  limiter_ok 0 s -> ledger_ok s ->
  let s' := launch (Throttler.next (throttler s)).2
              (set_throttler (Throttler.next (throttler s)).1 s) in
  limiter_ok 0 s' /\ ledger_ok s'
  /\ (aborted s = true ->
      forall i u, units s !! i = Some u -> held_back u ->
        exists u', units s' !! i = Some u' /\ held_back u').
Proof.
  intros Hshape [Hact Hbound Hcap Hlen Hpre] [Hzok Hzip Hcounts Hprog Htot Hterm].
  assert (Hsame : let s' := set_throttler (throttler s) s in
            limiter_ok 0 s' /\ ledger_ok s'
            /\ (aborted s = true ->
                forall i u, units s !! i = Some u -> held_back u ->
                  exists u', units s' !! i = Some u' /\ held_back u')).
  { cbn. split; [by split|]. split; [by split|]. eauto. }
  unfold Throttler.next.
  destruct (_ >=? _) eqn:Hge; [exact Hsame|].
  destruct (Throttler.queue (throttler s)) as [|j rest] eqn:Hq; [exact Hsame|].
  clear Hsame. cbn [fst snd DownloadService.launch].
  destruct (queue_shape_pop _ _ _ Hshape) as (Hj & _ & _).
  unfold DownloadService.start_unit. cbn.
  destruct (resolvedScreens (locals s) !! j) as [screen|] eqn:Hscreen.
  2:{ apply lookup_lt_Some in Hj. apply lookup_ge_None in Hscreen. lia. }
  destruct (start_measures s screen) as (Hbusy & Howed & Hrej & Hok & Hthrow).
  set (p := if aborted s then Throwing else script (locals s) screen) in *.
  split; [|split].
  - split; cbn.
    + unfold in_flight in *. rewrite (sum_of_insert _ _ _ _ _ Hj), Hbusy. cbn. lia.
    + lia.
    + right. destruct Hcap as [Hnil|Hcap]; [|done]. by rewrite Hnil in Hj.
    + by rewrite length_insert.
    + destruct Hshape as (a & Ha & Hqs & _).
      destruct (length (units s) - a)%nat as [|n] eqn:Hn; [done|].
      cbn in Hqs. injection Hqs as -> ->.
      cbn [length] in Hpre. rewrite length_seq in Hpre |- *.
      intros j' u Hj'. rewrite length_insert.
      destruct (decide (a = j')) as [<-|Hne].
      * rewrite list_lookup_insert_eq in Hj' by (by eapply lookup_lt_Some).
        injection Hj' as <-. split; [intros Heq; by rewrite Heq in Hbusy|lia].
      * rewrite list_lookup_insert_ne in Hj' by done.
        rewrite (Hpre _ _ Hj'). lia.
  - split; cbn; try done.
    + by apply Forall_insert.
    + rewrite !(sum_of_insert _ _ _ _ _ Hj), Howed, Hrej. cbn. lia.
  - intros Hab i u Hi Hheld. cbn.
    destruct (decide (j = i)) as [->|Hne].
    + exists p. split; [|rewrite (Hthrow Hab); by right; left].
      apply list_lookup_insert_eq. by eapply lookup_lt_Some.
    + exists u. by rewrite list_lookup_insert_ne.
Qed.

(** The [finally] callback of a unit that has come to its end. *)
Lemma settle_trace s :
  queue_shape (Throttler.queue (throttler s)) (units s) ->
  limiter_ok 1 s -> ledger_ok s ->
  trace_invariant (settle s)
  /\ (aborted s = true ->
      forall i u, units s !! i = Some u -> held_back u ->
        exists u', units (settle s) !! i = Some u' /\ held_back u').
Proof.
  intros Hshape [Hact Hbound Hcap Hlen Hpre] [Hzok Hzip Hcounts Hprog Htot Hterm].
  pose proof (launch_trace
                (set_throttler
                   (Throttler.State (Throttler.maxConcurrency (throttler s))
                      (Throttler.activeCount (throttler s) - 1)
                      (Throttler.queue (throttler s))) s)) as Hlaunch.
  cbn in Hlaunch.
  unfold DownloadService.settle, Throttler.release.
  destruct (Throttler.next _) as [th o]. cbn [fst snd] in Hlaunch.
  destruct Hlaunch as (Hlim & Hled & Hheld).
  - done.
  - split; cbn; try done; lia.
  - by split.
  - split; [by split|]. exact Hheld.
Qed.

(** [throttler(...)] for the next screen. *)
Lemma submit_trace s :
  queue_shape (Throttler.queue (throttler s)) (units s) ->
  (length (units s) < length (resolvedScreens (locals s)))%nat ->
  Throttler.maxConcurrency (throttler s) = effectiveConcurrency (locals s) ->
  trace_invariant s ->
  trace_invariant (submit s (length (units s))).
Proof.
  intros Hshape Hlt Hmax [[Hact Hbound Hcap Hlen Hpre] [Hzok Hzip Hcounts Hprog Htot Hterm]].
  pose proof (launch_trace
                (set_throttler
                   (Throttler.State (Throttler.maxConcurrency (throttler s))
                      (Throttler.activeCount (throttler s))
                      (Throttler.queue (throttler s) ++ [length (units s)]))
                   (set_units (units s ++ [Queued]) s))) as Hlaunch.
  cbn in Hlaunch.
  unfold DownloadService.submit, Throttler.enqueue.
  destruct (Throttler.next _) as [th o]. cbn [fst snd] in Hlaunch.
  destruct Hlaunch as (Hlim & Hled & _).
  - by apply queue_shape_push.
  - split; cbn.
    + unfold in_flight in *. rewrite sum_of_app, sum_of_one. cbn. lia.
    + done.
    + by right.
    + rewrite length_app. cbn. lia.
    + rewrite !length_app. cbn [length].
      replace (length (units s) + 1 - (length (Throttler.queue (throttler s)) + 1))%nat
        with (length (units s) - length (Throttler.queue (throttler s)))%nat by lia.
      intros j u Hj. apply lookup_app_Some in Hj as [Hj|[Hge Hj]]; [by apply Hpre|].
      destruct (j - length (units s))%nat as [|[|]]; [|done|done].
      injection Hj as <-. split; [lia|done].
  - split; cbn; try done.
    + apply Forall_app. split; [done|]. by repeat constructor.
    + rewrite !sum_of_app, !sum_of_one. cbn. lia.
  - by split.
Qed.

(** *** The port *)

Lemma completions_app a b : completions (a ++ b) = completions a ++ completions b.
Proof. apply omap_app. Qed.

Lemma terminals_app a b : terminals (a ++ b) = terminals a ++ terminals b.
Proof. apply omap_app. Qed.

Lemma count_up_succ n : 0 <= n -> count_up (n + 1) = count_up n ++ [n + 1].
Proof.
  intros Hn. unfold count_up.
  replace (Z.to_nat (n + 1)) with (S (Z.to_nat n)) by lia.
  rewrite seq_S, fmap_app. cbn. do 2 f_equal. lia.
Qed.

Lemma zipped_cons e todo :
  zipped (e :: todo)
  = match e with
    | ZipFile name data date => (name, data, date) :: zipped todo
    | _ => zipped todo
    end.
Proof. by destruct e. Qed.

Local Arguments zipped : simpl never.
Local Arguments completions : simpl never.
Local Arguments terminals : simpl never.
Local Arguments count_up : simpl never.

(** The [catch] of [run] posts the one message that ends the run. *)
Lemma run_catch_trace e s :
  trace_invariant s -> terminals (port s) = [] ->
  trace_invariant (run_catch e s).
Proof.
  intros [[Hact Hbound Hcap Hlen Hpre] [Hzok Hzip Hcounts Hprog Htot Hterm]] Hnone.
  unfold run_catch. destruct (aborted s).
  - split; [by split|]. split; cbn; try done.
    + by rewrite <- app_assoc, completions_app, app_nil_r.
    + rewrite <- app_assoc. apply Forall_app. split; [done|]. by repeat constructor.
    + exists CancelledPayload. by rewrite <- app_assoc, terminals_app, Hnone.
  - split; [by split|]. split; cbn; try done.
    + by rewrite completions_app, app_nil_r.
    + apply Forall_app. split; [done|]. by repeat constructor.
    + exists (ErrorPayload (message e)). by rewrite terminals_app, Hnone.
Qed.

(** *** One transition *)

Lemma settle_frame s :
  main (settle s) = main s /\ aborted (settle s) = aborted s
  /\ port (settle s) = port s /\ locals (settle s) = locals s.
Proof.
  unfold DownloadService.settle, Throttler.release, Throttler.next.
  destruct (_ >=? _); [done|]. cbn.
  destruct (Throttler.queue (throttler s)) as [|j rest]; [done|]. cbn.
  unfold DownloadService.start_unit. cbn.
  by destruct (resolvedScreens (locals s) !! j).
Qed.

Lemma owed_range u : zip_ok u -> 0 <= owed u <= 1.
Proof. destruct u as [|todo [[|]|]| | |]; cbn; lia. Qed.

(** A unit that has come to its end gives its slot back. *)
Lemma unit_ends s s2 i u p :
  run_invariant s -> trace_invariant s ->
  units s !! i = Some u -> busy u = 1 ->
  units s2 = <[i := p]> (units s) -> busy p = 0 -> p <> Queued ->
  locals s2 = locals s -> throttler s2 = throttler s ->
  ledger_ok s2 ->
  trace_invariant (settle s2)
  /\ (aborted s2 = true -> (held_back u -> held_back p) ->
      forall j v, units s !! j = Some v -> held_back v ->
        exists v', units (settle s2) !! j = Some v' /\ held_back v').
Proof.
  intros Hrun [[Hact Hbound Hcap Hlen Hpre] _] Hi Hu Hunits Hp Hpq Hlocals Hthr Hledger.
  assert (Hnq : u <> Queued) by (intros ->; done).
  destruct (settle_trace s2) as [Htrace Hheld].
  - rewrite Hthr, Hunits. eapply queue_shape_insert; [|done|done].
    apply (core_queue _ (run_core _ Hrun)).
  - split.
    + rewrite Hthr, Hunits. unfold in_flight in *.
      rewrite (sum_of_insert _ _ _ _ _ Hi). lia.
    + by rewrite Hthr.
    + right. rewrite Hthr, Hlocals. destruct Hcap as [Hnil|Hcap]; [|done].
      by rewrite Hnil in Hi.
    + by rewrite Hunits, length_insert, Hlocals.
    + rewrite Hthr, Hunits. by eapply prefix_insert.
  - done.
  - split; [done|]. intros Hab Hpheld j v Hj Hv.
    destruct (decide (i = j)) as [->|Hne].
    + assert (v = u) as -> by congruence.
      apply (Hheld Hab j p); [|by apply Hpheld]. rewrite Hunits.
      apply list_lookup_insert_eq. by eapply lookup_lt_Some.
    + apply (Hheld Hab j v); [|done]. by rewrite Hunits, list_lookup_insert_ne.
Qed.

Lemma reject_ledger s i u e :
  ledger_ok s -> units s !! i = Some u -> busy u = 1 ->
  ledger_ok (reject_unit i e s).
Proof.
  intros [Hzok Hzip Hcounts Hprog Htot Hterm] Hi Hu.
  assert (Hrange : 0 <= owed u <= 1).
  { apply owed_range. eapply Forall_lookup_1; [exact Hzok|exact Hi]. }
  assert (Hrej : rejected u = 0) by by destruct u.
  split; cbn; try done.
  - by apply Forall_insert.
  - rewrite !(sum_of_insert _ _ _ _ _ Hi), Hrej. cbn. lia.
Qed.

(** One transition keeps the invariant; and once the signal is aborted
    no unit is started for good: a unit that has not begun a download
    never does. *)
Lemma transition_trace l s s' :
  run_invariant s -> trace_invariant s ->
  transition l s = Some s' ->
  trace_invariant s'
  /\ (aborted s = true ->
      forall j v, units s !! j = Some v -> held_back v ->
        exists v', units s' !! j = Some v' /\ held_back v').
Proof.
  intros Hrun Htrace Hstep.
  pose proof Htrace as [[Hact Hbound Hcap Hlen Hpre] [Hzok Hzip Hcounts Hprog Htot Hterm]].
  assert (Hkeep : forall s1, units s1 = units s ->
            aborted s = true ->
            forall j v, units s !! j = Some v -> held_back v ->
              exists v', units s1 !! j = Some v' /\ held_back v').
  { intros s1 -> _ j v Hj Hv. eauto. }
  destruct l as [|i|i| |r|r]; cbn in Hstep.
  - (* Abort *)
    injection Hstep as <-. split; [split; by split|by apply Hkeep].
  - (* Resume *)
    destruct (units s !! i) as [[|[|e todo] c| | |]|] eqn:Hi; try done.
    + destruct c as [b|e].
      * destruct (resolvedScreens (locals s) !! i) as [screen|]; [|done].
        injection Hstep as <-.
        destruct (unit_ends s (set_units (<[i:=Fulfilled]> (units (complete screen b s)))
                                 (complete screen b s))
                    i _ Fulfilled Hrun Htrace Hi) as [Hinv Hheld]; try done;
          [by destruct b|by destruct b|by destruct b| |].
        { destruct Hcounts as (Hs & Hf & Hp).
          destruct b; split; cbn; try done; try lia; try (by apply Forall_insert).
          -- rewrite !(sum_of_insert _ _ _ _ _ Hi). cbn. unfold zipped. cbn. lia.
          -- by rewrite completions_app, Hprog, count_up_succ.
          -- apply Forall_app. split; [done|]. by repeat constructor.
          -- destruct (main s); by rewrite terminals_app, app_nil_r.
          -- rewrite !(sum_of_insert _ _ _ _ _ Hi). cbn. lia.
          -- by rewrite <- app_assoc, completions_app, Hprog, count_up_succ.
          -- rewrite <- app_assoc. apply Forall_app. split; [done|]. by repeat constructor.
          -- destruct (main s); by rewrite <- app_assoc, terminals_app, app_nil_r. }
        split; [done|]. intros Hab. apply Hheld; [by destruct b|].
        by intros [|[|]].
      * injection Hstep as <-.
        destruct (unit_ends s (reject_unit i e s) i _ Rejected Hrun Htrace Hi)
          as [Hinv Hheld]; try done.
        { by eapply reject_ledger. }
        split; [done|]. intros Hab. apply Hheld; [done|]. by intros [|[|]].
    + injection Hstep as <-.
      pose proof (core_scripts _ (run_core _ Hrun) _ _ _ Hi) as Hlogs.
      apply Forall_cons in Hlogs as [He _].
      pose proof (Forall_lookup_1 _ _ _ _ Hzok Hi) as Hok.
      assert (Hzipped : match c with
                        | Returns true => True
                        | _ => match e with ZipFile _ _ _ => False | _ => True end
                        end).
      { destruct c as [[|]|]; [done|..]; cbn in Hok; rewrite zipped_cons in Hok;
          by destruct e. }
      assert (Howed : owed (Running (e :: todo) c)
                      = owed (Running todo c)
                        - match e with ZipFile _ _ _ => 1 | _ => 0 end).
      { destruct c as [[|]|]; cbn; rewrite ?zipped_cons; destruct e; cbn; lia. }
      assert (Hok' : zip_ok (Running todo c)).
      { destruct c as [[|]|]; cbn in *; rewrite zipped_cons in Hok;
          destruct e; cbn in *; try done; lia. }
      split; [split|].
      * split; destruct e; cbn; try done;
          try (unfold in_flight in *; rewrite (sum_of_insert _ _ _ _ _ Hi); cbn; lia);
          try (by rewrite length_insert);
          try (right; destruct Hcap as [Hnil|Hcap]; [by rewrite Hnil in Hi|done]);
          by eapply prefix_insert.
      * split.
        -- apply Forall_insert; [by destruct e|done].
        -- destruct e; cbn; rewrite !(sum_of_insert _ _ _ _ _ Hi), Howed;
             cbn; rewrite ?length_app; cbn; lia.
        -- by destruct e.
        -- destruct e as [| | |m]; cbn; try done.
           destruct m; try done. by rewrite completions_app, app_nil_r.
        -- destruct e as [| | |m]; cbn; try done.
           apply Forall_app. split; [done|]. destruct m; by repeat constructor.
        -- destruct e as [| | |m]; cbn; try done.
           destruct m; try done. destruct (main s); by rewrite terminals_app, app_nil_r.
      * intros _ j v Hj Hv. cbn.
        destruct (decide (i = j)) as [->|Hne].
        -- rewrite Hi in Hj. injection Hj as <-. by destruct Hv as [|[|]].
        -- exists v. by rewrite list_lookup_insert_ne.
  - (* Reject *)
    assert (Hgo : forall u, units s !! i = Some u -> busy u = 1 ->
              trace_invariant (settle (reject_unit i abortReason s))
              /\ (aborted s = true ->
                  forall j v, units s !! j = Some v -> held_back v ->
                    exists v', units (settle (reject_unit i abortReason s)) !! j = Some v'
                               /\ held_back v')).
    { intros u Hi Hu.
      destruct (unit_ends s (reject_unit i abortReason s) i u Rejected Hrun Htrace Hi)
        as [Hinv Hheld]; try done.
      { by eapply reject_ledger. }
      split; [done|]. intros Hab. apply Hheld; [done|]. intros _. by right; right. }
    destruct (units s !! i) as [[|todo c| | |]|] eqn:Hi; try done.
    + destruct (aborted s); [|done]. injection Hstep as <-. by eapply Hgo.
    + injection Hstep as <-. by eapply Hgo.
  - (* AllSettled *)
    destruct (main s) eqn:Hm; try done.
    assert (Hcatch : forall e,
              trace_invariant (run_catch e s)
              /\ (aborted s = true ->
                  forall j v, units s !! j = Some v -> held_back v ->
                    exists v', units (run_catch e s) !! j = Some v' /\ held_back v')).
    { intros e. split; [by apply run_catch_trace|].
      apply Hkeep. unfold run_catch. by destruct (aborted s). }
    destruct (rejection s) as [e|]; [injection Hstep as <-; apply Hcatch|].
    destruct (all_fulfilled s); [|done].
    destruct (aborted s) eqn:Hab; injection Hstep as <-.
    { exact (Hcatch abortReason). }
    split; [|done].
    split; [by split|]. split; cbn; try done.
    + by rewrite completions_app, app_nil_r.
    + apply Forall_app. split; [done|]. by repeat constructor.
    + by rewrite terminals_app, app_nil_r.
  - (* Generated *)
    destruct (main s) eqn:Hm; try done.
    destruct r as [e|]; injection Hstep as <-.
    + split; [by apply run_catch_trace|].
      apply Hkeep. unfold run_catch. by destruct (aborted s).
    + split; [|by apply Hkeep]. split; [by split|]. by split; cbn.
  - (* Downloaded *)
    destruct (main s) eqn:Hm; try done.
    destruct r as [message|downloadId]; injection Hstep as <-.
    + split; [|by apply Hkeep]. split; [by split|]. split; cbn; try done.
      * by rewrite completions_app, app_nil_r.
      * apply Forall_app. split; [done|]. by repeat constructor.
      * eexists. by rewrite terminals_app, Hterm.
    + split; [|by apply Hkeep]. split; [by split|]. split; cbn; try done.
      * by rewrite completions_app, app_nil_r.
      * apply Forall_app. split; [done|]. by repeat constructor.
      * eexists. by rewrite terminals_app, Hterm.
Qed.

(** *** From the call of [run] on *)

Lemma fresh_trace l posted a m :
  completions posted = [] -> Forall (of_total (Z.of_nat (length (resolvedScreens l)))) posted ->
  match m with
  | Returned how => exists t, terminals posted = [t] /\ ends how t
  | _ => terminals posted = []
  end ->
  trace_invariant (fresh l posted a m).
Proof.
  intros Hprog Htot Hterm. split; split; cbn; try done; try lia.
  by left.
Qed.

Lemma submit_all_trace n : forall s,
  core_invariant s -> trace_invariant s ->
  Throttler.maxConcurrency (throttler s) = effectiveConcurrency (locals s) ->
  (length (units s) + n <= length (resolvedScreens (locals s)))%nat ->
  trace_invariant (foldl submit s (seq (length (units s)) n)).
Proof.
  induction n as [|n IH]; intros s Hcore Htrace Hmax Hlen; cbn; [done|].
  destruct (submit_spec boundFetch abortReason Date_parse s Hcore)
    as (Hcore1 & Hframe1 & Hlen1 & Hmax1).
  pose proof Hframe1 as (Hl1 & _).
  assert (Htrace1 : trace_invariant (submit s (length (units s)))).
  { apply submit_trace; [apply (core_queue _ Hcore)|lia|done|done]. }
  specialize (IH _ Hcore1 Htrace1). rewrite Hlen1, Hl1, Hmax1 in IH.
  apply IH; [done|lia].
Qed.

Lemma downloadScreens_trace l posted a :
  completions posted = [] -> terminals posted = [] ->
  Forall (of_total (Z.of_nat (length (resolvedScreens l)))) posted ->
  trace_invariant (downloadScreens (fresh l posted a AwaitingUnits)).
Proof.
  intros Hprog Hterm Htot.
  assert (Hfresh : trace_invariant (fresh l posted a AwaitingUnits))
    by by apply fresh_trace.
  unfold DownloadService.downloadScreens, Throttler.createThrottler.
  cbn [locals fresh].
  destruct (effectiveConcurrency l <? 1) eqn:Hcap.
  { by apply run_catch_trace. }
  apply Z.ltb_ge in Hcap.
  set (s1 := send _ (set_throttler _ _)).
  assert (Hcore1 : core_invariant s1).
  { split; cbn; try done. apply queue_shape_nil. }
  assert (Htrace1 : trace_invariant s1).
  { split; split; cbn; try done; try lia; try (by left).
    - by rewrite completions_app, app_nil_r.
    - apply Forall_app. split; [done|]. by repeat constructor.
    - by rewrite terminals_app, app_nil_r. }
  apply (submit_all_trace (length (resolvedScreens l)) s1 Hcore1 Htrace1); cbn; [done|lia].
Qed.

Lemma run_trace o collected abortedSince :
  trace_invariant (run o collected abortedSince).
Proof.
  unfold DownloadService.run.
  set (collecting := match screens o with
                     | Some _ => []
                     | None => [StatusPayload "Collecting gallery metadata..."]
                     end).
  assert (Hc : completions collecting = [] /\ terminals collecting = []
               /\ forall t, Forall (of_total t) collecting).
  { unfold collecting. destruct (screens o); repeat split; by repeat constructor. }
  destruct Hc as (Hcp & Hct & Hctot).
  destruct (match screens o with Some l => inr l | None => collected end)
    as [thrown|resolved].
  { apply run_catch_trace; [by apply fresh_trace|done]. }
  destruct (bool_decide (length resolved = 0%nat)).
  { apply fresh_trace.
    - by rewrite completions_app, Hcp.
    - apply Forall_app. split; [done|]. by repeat constructor.
    - eexists. rewrite terminals_app, Hct. done. }
  apply downloadScreens_trace.
  - rewrite !completions_app, Hcp. cbn.
    destruct (_ && _); destruct (_ >? 0); done.
  - rewrite !terminals_app, Hct. cbn.
    destruct (_ && _); destruct (_ >? 0); done.
  - repeat (apply Forall_app; split); try done.
    + destruct (_ && _); by repeat constructor.
    + destruct (_ >? 0); by repeat constructor.
    + by repeat constructor.
Qed.

Lemma run_labels_trace ls : forall s s',
  run_invariant s -> trace_invariant s -> run_labels ls s = Some s' ->
  run_invariant s' /\ trace_invariant s' /\ locals s' = locals s.
Proof.
  induction ls as [|l ls IH]; intros s s' Hrun Htrace Hsteps; cbn in Hsteps.
  - by injection Hsteps as <-.
  - destruct (transition l s) as [s1|] eqn:Hstep; [|done].
    destruct (transition_spec boundFetch abortReason Date_parse _ _ _ Hrun Hstep)
      as (Hrun1 & Hl1 & _).
    destruct (transition_trace _ _ _ Hrun Htrace Hstep) as [Htrace1 _].
    destruct (IH _ _ Hrun1 Htrace1 Hsteps) as (Hrun' & Htrace' & Hl').
    split; [done|]. split; [done|congruence].
Qed.

Lemma reached o collected abortedSince ls s :
  run_labels ls (run o collected abortedSince) = Some s ->
  run_invariant s /\ trace_invariant s
  /\ locals s = locals (run o collected abortedSince).
Proof.
  intros Hsteps.
  destruct (run_invariant_run boundFetch abortReason Date_parse o collected abortedSince)
    as (Hrun & _).
  by eapply run_labels_trace; [|apply run_trace|].
Qed.

(** *** What a transition does to the main line and to the signal *)

Lemma transition_frame l s s' :
  transition l s = Some s' ->
  (aborted s = true -> aborted s' = true)
  /\ match l with
     | Abort | Resume _ | Reject _ => main s' = main s
     | AllSettled =>
         main s = AwaitingUnits
         /\ if aborted s then main s' = Returned WasCancelled
            else main s' = Packaging \/ main s' = Returned Failed
     | Generated _ => main s = Packaging
     | Downloaded _ => main s = HandingOff
     end.
Proof.
  intros Hstep.
  destruct l as [|i|i| |r|r]; cbn in Hstep.
  - by injection Hstep as <-.
  - destruct (units s !! i) as [[|[|e todo] c| | |]|]; try done.
    + destruct c as [b|e].
      * destruct (resolvedScreens (locals s) !! i) as [screen|]; [|done].
        injection Hstep as <-.
        destruct (settle_frame (set_units (<[i:=Fulfilled]> (units (complete screen b s)))
                                  (complete screen b s))) as (-> & -> & _).
        by destruct b.
      * injection Hstep as <-.
        by destruct (settle_frame (reject_unit i e s)) as (-> & -> & _).
    + injection Hstep as <-. by destruct e.
  - assert (Hgo : (aborted s = true ->
                   aborted (settle (reject_unit i abortReason s)) = true)
                  /\ main (settle (reject_unit i abortReason s)) = main s).
    { by destruct (settle_frame (reject_unit i abortReason s)) as (-> & -> & _). }
    destruct (units s !! i) as [[|todo c| | |]|]; try done.
    + destruct (aborted s) eqn:Hab; [|done]. injection Hstep as <-.
      destruct Hgo as [Hgo ->]. split; [intros _; by apply Hgo|done].
    + by injection Hstep as <-.
  - destruct (main s) eqn:Hm; try done.
    unfold run_catch in Hstep.
    destruct (rejection s) as [e|].
    + destruct (aborted s) eqn:Hab; injection Hstep as <-; cbn; eauto.
    + destruct (all_fulfilled s); [|done].
      destruct (aborted s) eqn:Hab; injection Hstep as <-; cbn; eauto.
  - destruct (main s) eqn:Hm; try done.
    unfold run_catch in Hstep.
    destruct r as [e|]; [destruct (aborted s) eqn:Hab|]; by injection Hstep as <-.
  - destruct (main s) eqn:Hm; try done.
    destruct r as [message|downloadId]; by injection Hstep as <-.
Qed.

(** *** The theorems *)

Lemma sum_of_nonneg w us : Forall (fun u => 0 <= w u) us -> 0 <= sum_of w us.
Proof.
  unfold sum_of. induction 1 as [|u us Hu _ IH]; cbn; lia.
Qed.

Lemma in_flight_nonneg us : 0 <= in_flight us.
Proof.
  apply sum_of_nonneg, Forall_forall. intros u _. destruct u; cbn; lia.
Qed.

Lemma owed_nonneg us : Forall zip_ok us -> 0 <= sum_of owed us.
Proof.
  intros Hok. apply sum_of_nonneg. eapply Forall_impl; [exact Hok|].
  intros u Hu. by apply owed_range.
Qed.

(** Every unit counts once at most: as fulfilled, as rejected, or for
    the file it has stored. *)
Lemma units_account us :
  Forall zip_ok us ->
  tally us + sum_of owed us + sum_of rejected us <= Z.of_nat (length us).
Proof.
  unfold sum_of. induction 1 as [|u us Hu _ IH]; [done|].
  pose proof (owed_range u Hu).
  cbn [tally foldr length]. destruct u; cbn [weight owed rejected] in *; lia.
Qed.

(** The capacity [run] settles on. *)
Lemma run_capacity o collected abortedSince :
  let l := locals (run o collected abortedSince) in
  effectiveConcurrency l
  = if (Z.of_nat (length (resolvedScreens l)) >=? LARGE_GALLERY_THRESHOLD)
       && (concurrency o >? 1)
    then 1 else concurrency o.
Proof.
  destruct (match screens o with Some l => inr l | None => collected end)
    as [thrown|resolved] eqn:Hres.
  - unfold DownloadService.run, run_catch. rewrite Hres.
    by destruct abortedSince.
  - destruct resolved as [|x resolved].
    + unfold DownloadService.run. rewrite Hres. done.
    + destruct (run_started boundFetch abortReason Date_parse o collected abortedSince
                  (x :: resolved) Hres ltac:(done)) as [-> _].
      done.
Qed.

(** X9.  At every moment of a run the limiter's counter is the number of
    units inside their function (started and not settled), and that
    number never exceeds the concurrency [run] was called with, nor 1
    when there are 800 screens or more. *)
Theorem run_in_flight o collected abortedSince ls s :
  run_labels ls (run o collected abortedSince) = Some s ->
  Throttler.activeCount (throttler s) = in_flight (units s)
  /\ 0 <= in_flight (units s) <= Z.max 0 (effectiveConcurrency (locals s))
  /\ in_flight (units s) <= Z.max 0 (concurrency o)
  /\ (LARGE_GALLERY_THRESHOLD <= Z.of_nat (length (resolvedScreens (locals s))) ->
      in_flight (units s) <= 1).
Proof.
  intros Hsteps.
  destruct (reached _ _ _ _ _ Hsteps) as (_ & [[Hact Hbound Hcap _ _] _] & Hl).
  pose proof (run_capacity o collected abortedSince) as Heff.
  cbv zeta in Heff. rewrite <- Hl in Heff.
  pose proof (in_flight_nonneg (units s)) as Hpos.
  assert (Hle : in_flight (units s) <= Z.max 0 (effectiveConcurrency (locals s))).
  { destruct Hcap as [Hnil|Hcap]; [|lia].
    rewrite Hnil. change (in_flight []) with 0. lia. }
  split; [lia|]. split; [lia|].
  destruct (Z.of_nat (length (resolvedScreens (locals s))) >=? LARGE_GALLERY_THRESHOLD)
    eqn:Hlarge; destruct (concurrency o >? 1) eqn:Hconc; cbn [andb] in Heff;
    unfold LARGE_GALLERY_THRESHOLD in *; lia.
Qed.

(** X10.  During a run [zip.file] has been called at least as often as
    successes have been counted and at most as often as there are
    screens; once every unit has been fulfilled and the signal was found
    quiet (from "Packaging ZIP archive..." on) it has been called exactly
    [succeeded] times, and [succeeded + failed] is the number of
    screens. *)
Theorem run_archive o collected abortedSince ls s :
  run_labels ls (run o collected abortedSince) = Some s ->
  succeeded s <= Z.of_nat (length (zip s)) <= total s
  /\ (all_settled s ->
      Z.of_nat (length (zip s)) = succeeded s
      /\ succeeded s + failed s = total s).
Proof.
  intros Hsteps.
  destruct (reached _ _ _ _ _ Hsteps)
    as (Hrun & [[_ _ _ Hlen _] [Hzok Hzip (Hs & Hf & Hp) _ _ _]] & _).
  pose proof (owed_nonneg _ Hzok) as Howed.
  pose proof (units_account _ Hzok) as Hacc.
  pose proof (core_sum _ (run_core _ Hrun)) as Hsum.
  pose proof (core_tally _ (run_core _ Hrun)) as Htally.
  unfold total. split; [lia|].
  intros Hall.
  pose proof (run_settled _ Hrun Hall) as Hful.
  rewrite (sum_of_fulfilled owed _ eq_refl Hful) in Hzip.
  rewrite (sum_of_fulfilled rejected _ eq_refl Hful) in Hzip.
  pose proof (settled_processed _ Hrun Hall) as Hproc.
  lia.
Qed.

(** X11.  The [progress] messages of a run count up: the k-th one posted
    has [completed = k], so there are exactly [processed] of them, each
    carries the number of screens as [total], and [completed] never
    exceeds it. *)
Theorem run_progress o collected abortedSince ls s :
  run_labels ls (run o collected abortedSince) = Some s ->
  completions (port s) = count_up (processed s)
  /\ length (completions (port s)) = Z.to_nat (processed s)
  /\ 0 <= processed s <= total s
  /\ Forall (of_total (total s)) (port s).
Proof.
  intros Hsteps.
  destruct (reached _ _ _ _ _ Hsteps)
    as (Hrun & [[_ _ _ Hlen _] [_ _ (Hs & Hf & Hp) Hprog Htot _]] & _).
  pose proof (core_tally _ (run_core _ Hrun)) as Htally.
  pose proof (tally_length (units s)) as Hrange.
  split; [done|]. split.
  - rewrite Hprog. unfold count_up. by rewrite length_fmap, length_seq.
  - split; [|done]. unfold total. lia.
Qed.

(** X12.  A run posts no message that ends it ([done], [error],
    [cancelled]) before [run] returns, and exactly one when it returns:
    [done] with [processed] and [succeeded] when the archive was handed
    over, the bare [done] with zeros when there was nothing to download,
    [error] when it failed, [cancelled] when it was cancelled.  Units
    still running after that post nothing of the kind. *)
Theorem run_one_terminal o collected abortedSince ls s :
  run_labels ls (run o collected abortedSince) = Some s ->
  match main s with
  | Returned how =>
      (exists m, terminals (port s) = [m] /\ ends how m)
      /\ forall ls' s', run_labels ls' s = Some s' ->
           main s' = Returned how /\ terminals (port s') = terminals (port s)
  | _ => terminals (port s) = []
  end.
Proof.
  intros Hsteps.
  destruct (reached _ _ _ _ _ Hsteps) as (Hrun & Htrace & _).
  pose proof Htrace as [_ [_ _ _ _ _ Hterm]].
  destruct (main s) as [| | |how] eqn:Hm; try done.
  split; [done|].
  intros ls'. clear Hsteps. revert s Hrun Htrace Hm Hterm.
  induction ls' as [|l ls' IH]; intros s Hrun Htrace Hm Hterm s' Hsteps';
    cbn in Hsteps'.
  - by injection Hsteps' as <-.
  - destruct (transition l s) as [s1|] eqn:Hstep; [|done].
    destruct (transition_frame _ _ _ Hstep) as [_ Hmain].
    assert (Hm1 : main s1 = Returned how).
    { destruct l; try (by rewrite Hmain); rewrite Hm in Hmain;
        try done; by destruct Hmain. }
    destruct (transition_spec boundFetch abortReason Date_parse _ _ _ Hrun Hstep)
      as (Hrun1 & _).
    destruct (transition_trace _ _ _ Hrun Htrace Hstep) as [Htrace1 _].
    pose proof Htrace1 as [_ [_ _ _ _ _ Hterm1]]. rewrite Hm1 in Hterm1.
    destruct (IH s1 Hrun1 Htrace1 Hm1 Hterm1 s' Hsteps') as [Hm' Ht'].
    split; [done|]. rewrite Ht'.
    destruct (transition_spec boundFetch abortReason Date_parse _ _ _ Hrun Hstep)
      as (_ & _ & new & Hport & _).
    destruct Hterm as (m & Hone & _). destruct Hterm1 as (m1 & Hone1 & _).
    rewrite Hport, terminals_app, Hone in Hone1.
    destruct (terminals new) as [|x xs] eqn:Hnew; [|done].
    by rewrite Hport, terminals_app, Hnew, app_nil_r.
Qed.

(** X13.  Cancellation signalled while [run] awaits its units wins: from
    then on [run] can only end with [cancelled], no [done] message is ever
    posted, and no unit that had not begun a download by then (it was
    waiting in the limiter's queue, or had been started under the aborted
    signal) ever begins one: it waits, is started only to throw, or is
    rejected. *)
Theorem run_cancel_wins o collected abortedSince ls s :
  run_labels ls (run o collected abortedSince) = Some s ->
  aborted s = true -> main s = AwaitingUnits ->
  forall ls' s', run_labels ls' s = Some s' ->
    (main s' = AwaitingUnits \/ main s' = Returned WasCancelled)
    /\ Forall (fun m => is_done m = false) (port s')
    /\ forall i u, units s !! i = Some u -> held_back u ->
         exists u', units s' !! i = Some u' /\ held_back u'.
Proof.
  intros Hsteps Hab Hm ls' s' Hsteps'.
  destruct (reached _ _ _ _ _ Hsteps) as (Hrun & Htrace & _).
  assert (Hgen : forall ls' s1 s',
            run_invariant s1 -> trace_invariant s1 -> aborted s1 = true ->
            (main s1 = AwaitingUnits \/ main s1 = Returned WasCancelled) ->
            run_labels ls' s1 = Some s' ->
            run_invariant s'
            /\ (main s' = AwaitingUnits \/ main s' = Returned WasCancelled)
            /\ forall i u, units s1 !! i = Some u -> held_back u ->
                 exists u', units s' !! i = Some u' /\ held_back u').
  { clear. induction ls' as [|l ls' IH]; intros s1 s' Hrun Htrace Hab Hm Hsteps;
      cbn in Hsteps.
    - injection Hsteps as <-. eauto.
    - destruct (transition l s1) as [s2|] eqn:Hstep; [|done].
      destruct (transition_frame _ _ _ Hstep) as [Hab2 Hmain].
      destruct (transition_spec boundFetch abortReason Date_parse _ _ _ Hrun Hstep)
        as (Hrun2 & _).
      destruct (transition_trace _ _ _ Hrun Htrace Hstep) as [Htrace2 Hheld].
      assert (Hm2 : main s2 = AwaitingUnits \/ main s2 = Returned WasCancelled).
      { destruct l; try (by rewrite Hmain).
        - destruct Hmain as [_ Hmain]. rewrite Hab in Hmain. by right.
        - destruct Hm as [Hm|Hm]; by rewrite Hm in Hmain.
        - destruct Hm as [Hm|Hm]; by rewrite Hm in Hmain. }
      destruct (IH s2 s' Hrun2 Htrace2 (Hab2 Hab) Hm2 Hsteps) as (Hrun' & Hm' & Hheld').
      split; [done|]. split; [done|].
      intros i u Hi Hu.
      destruct (Hheld Hab i u Hi Hu) as (u2 & Hi2 & Hu2). eauto. }
  destruct (Hgen ls' s s' Hrun Htrace Hab (or_introl Hm) Hsteps')
    as (Hrun' & Hm' & Hheld).
  split; [done|]. split.
  - pose proof (run_port _ Hrun') as Hport.
    by destruct Hm' as [Hm'|Hm']; rewrite Hm' in Hport.
  - exact Hheld.
Qed.

(** X14.  What the panel makes of the [done] message of a run: whenever
    a run ends with [done], the content script reads from it a number of
    processed screens that is the sum of the successes and failures it
    reads; after a download these are the run's own counters and the
    number processed is the number of screens, although the [total] field
    of the message holds the successes only. *)
Theorem done_read_by_panel o collected abortedSince ls s how :
  run_labels ls (run o collected abortedSince) = Some s ->
  main s = Returned how -> how = Completed \/ how = NothingToDo ->
  exists m processed' succeeded' failed',
    terminals (port s) = [m]
    /\ read_done m = Some (processed', succeeded', failed')
    /\ processed' = succeeded' + failed'
    /\ (how = Completed ->
        processed' = total s /\ succeeded' = succeeded s /\ failed' = failed s
        /\ exists downloadId,
             m = DonePayload (succeeded s) (failed s) downloadId
                   (Some (total s)) (Some (succeeded s))).
Proof.
  intros Hsteps Hm Hhow.
  destruct (reached _ _ _ _ _ Hsteps) as (Hrun & [_ [_ _ _ _ _ Hterm]] & _).
  rewrite Hm in Hterm. destruct Hterm as (m & Hone & Hends).
  destruct Hhow as [-> | ->].
  - pose proof (run_port _ Hrun) as Hport. rewrite Hm in Hport.
    destruct Hport as (before & downloadId & Hport & Hbefore).
    assert (Hnone : terminals before ++ [DonePayload (succeeded s) (failed s) downloadId
                                           (Some (processed s)) (Some (succeeded s))]
                    = [m]).
    { by rewrite <- Hone, Hport, terminals_app. }
    pose proof (settled_processed s Hrun) as Hproc.
    unfold all_settled in Hproc. rewrite Hm in Hproc.
    specialize (Hproc ltac:(auto)).
    pose proof (core_sum _ (run_core _ Hrun)) as Hsum.
    destruct (terminals before) as [|x [|y xs]]; cbn in Hnone; [|done|done].
    injection Hnone as <-.
    eexists _, _, _, _. split; [done|]. split; [reflexivity|]. cbn.
    split; [lia|]. intros _. unfold total. rewrite <- Hproc.
    split; [done|]. split; [done|]. split; [done|]. by exists downloadId.
  - destruct m as [| | | |t f d p su| |]; try done.
    destruct d, p, su; try done. destruct Hends as [-> ->].
    eexists _, _, _, _. split; [done|]. split; [reflexivity|]. cbn.
    split; [lia|]. done.
Qed.

(** X15.  The units are started in the order of the screens: at every
    moment of a run there is a [k] such that the units of the first [k]
    screens have been started (they are running, fulfilled or rejected,
    and none of them waits again), while the units of the screens from
    [k] on, as far as they have been submitted, wait in the limiter's
    queue in that order. *)
Theorem run_starts_in_order o collected abortedSince ls s :
  run_labels ls (run o collected abortedSince) = Some s ->
  exists k : nat,
    (k <= length (units s) <= length (resolvedScreens (locals s)))%nat
    /\ Throttler.queue (throttler s) = seq k (length (units s) - k)
    /\ forall j u, units s !! j = Some u -> (u = Queued <-> (k <= j)%nat).
Proof.
  intros Hsteps.
  destruct (reached _ _ _ _ _ Hsteps) as (Hrun & [[_ _ _ Hlen Hpre] _] & _).
  destruct (core_queue _ (run_core _ Hrun)) as (k & Hk & Hq & _).
  exists k. split; [lia|]. split; [done|].
  rewrite Hq, length_seq in Hpre.
  replace (length (units s) - (length (units s) - k))%nat with k in Hpre by lia.
  exact Hpre.
Qed.

Lemma of_Z_inj (a b : Z) : of_Z a = of_Z b -> a = b.
Proof. unfold of_Z, inject_Z. by intros [= ->]. Qed.

(** X16.  A run started by the background listener never fails for its
    parameters.  Let [run] be called with the numbers [startDownload]
    computes from a [download] message, whatever the message holds, and
    with at least one screen.  Then [run] reaches [await Promise.all]: the
    limiter is made with a capacity between 1 and 10 (the error
    "maxConcurrency must be a positive integer" cannot occur), one unit
    per screen is submitted, each unit is allowed 3 attempts with a base
    delay of 500 ms and a throttle delay between 0 and 5000 ms, of at
    least 150 ms when the capacity is 1, and no message that ends the run
    has been posted. *)
Theorem listener_run_starts {Object : Type}
    (StringToNumber : string -> number) (ObjectToNumber : Object -> number)
    (options : @Background.DownloadMessage Object (list ScreenMeta))
    (call : @Background.RunArguments (list ScreenMeta))
    o collected abortedSince resolved :
  Background.startDownload StringToNumber ObjectToNumber false options
  = Background.Run call ->
  Background.run_concurrency call = of_Z (concurrency o) ->
  Background.run_retryAttempts call = of_Z (retryAttempts o) ->
  Background.run_retryBaseDelayMs call = of_Z (retryBaseDelayMs o) ->
  Background.run_throttleDelayMs call = of_Z (throttleDelayMs o) ->
  match screens o with Some l => inr l | None => collected end = inr resolved ->
  resolved <> [] ->
  let s := run o collected abortedSince in
  main s = AwaitingUnits
  /\ length (units s) = length resolved
  /\ 1 <= effectiveConcurrency (locals s) <= 10
  /\ Throttler.maxConcurrency (throttler s) = effectiveConcurrency (locals s)
  /\ retryAttempts (args (locals s)) = 3
  /\ retryBaseDelayMs (args (locals s)) = 500
  /\ 0 <= effectiveThrottle (locals s) <= 5000
  /\ (effectiveConcurrency (locals s) = 1 -> 150 <= effectiveThrottle (locals s))
  /\ terminals (port s) = [].
Proof.
  intros Hstart Hc Hr Hb Ht Hres Hne s.
  unfold Background.startDownload in Hstart. injection Hstart as <-.
  cbn [Background.run_concurrency Background.run_retryAttempts
       Background.run_retryBaseDelayMs Background.run_throttleDelayMs] in Hc, Hr, Hb, Ht.
  destruct (normalizeConcurrency_spec StringToNumber ObjectToNumber
              (Background.concurrency options)) as [Hnc Hncr].
  destruct (normalizeThrottle_spec StringToNumber ObjectToNumber
              (Background.throttleMs options)) as [Hnt Hntr].
  rewrite Hnc in Hc, Ht. rewrite Hnt in Ht.
  set (c0 := Background.expected_concurrency _ _ _) in *.
  set (t0 := Background.expected_throttle _ _ _) in *.
  apply of_Z_inj in Hr, Hb.
  assert (Hopts : 1 <= concurrency o <= 10
                  /\ 0 <= throttleDelayMs o <= 5000
                  /\ (concurrency o = 1 -> 150 <= throttleDelayMs o)).
  { unfold Background.DEFAULT_SEQUENTIAL_THROTTLE_MS in Ht.
    destruct (Boolean (Background.sequential options)).
    - apply of_Z_inj in Hc. rewrite strict_eq_of_Z, Math_max_of_Z in Ht.
      apply of_Z_inj in Ht. cbn in Ht. lia.
    - apply of_Z_inj in Hc. rewrite strict_eq_of_Z in Ht.
      destruct (c0 =? 1) eqn:Hone.
      + rewrite Math_max_of_Z in Ht. apply of_Z_inj in Ht. lia.
      + apply of_Z_inj in Ht. apply Z.eqb_neq in Hone. lia. }
  destruct Hopts as (Hcr & Htr & Hseq).
  destruct (run_started boundFetch abortReason Date_parse o collected abortedSince
              resolved Hres Hne) as [Hlocals _].
  fold s in Hlocals. cbv zeta in Hlocals.
  set (large := (Z.of_nat (length resolved) >=? LARGE_GALLERY_THRESHOLD)
                && (concurrency o >? 1)) in *.
  assert (Hmain : main s = AwaitingUnits
                  /\ Throttler.maxConcurrency (throttler s)
                     = effectiveConcurrency (locals s)).
  { rewrite Hlocals. unfold s, DownloadService.run. rewrite Hres.
    rewrite bool_decide_eq_false_2 by (by destruct resolved).
    fold large.
    match goal with
    | |- context [DownloadService.downloadScreens _ _ _ ?s0] => set (s0' := s0)
    end.
    destruct (downloadScreens_spec boundFetch abortReason Date_parse s0'
                (fresh_core _ _ _ _) eq_refl eq_refl eq_refl)
      as (_ & _ & _ & _ & Hok).
    { unfold s0', fresh. cbn [port].
      repeat (apply Forall_app; split).
      - destruct (screens o); by repeat constructor.
      - destruct large; by repeat constructor.
      - destruct (_ >? 0); by repeat constructor.
      - by repeat constructor. }
    destruct Hok as (Hm & Hmax & _).
    { unfold s0', fresh. cbn [locals effectiveConcurrency]. destruct large; lia. }
    split; [exact Hm|]. rewrite Hmax. done. }
  destruct Hmain as [Hmain Hmax].
  destruct (run_invariant_run boundFetch abortReason Date_parse o collected abortedSince)
    as (Hrun & _).
  fold s in Hrun.
  pose proof (run_units _ Hrun) as Hunits. rewrite Hmain, Hlocals in Hunits.
  destruct (run_trace o collected abortedSince) as [_ [_ _ _ _ _ Hterm]].
  fold s in Hterm. rewrite Hmain in Hterm.
  split; [done|]. split; [exact Hunits|].
  rewrite Hmax, Hlocals. cbn [effectiveConcurrency effectiveThrottle args locals].
  unfold MIN_SEQUENTIAL_THROTTLE_MS.
  split; [destruct large; lia|]. split; [done|]. split; [done|]. split; [done|].
  split; [destruct large; lia|]. split; [|done].
  destruct large eqn:Hlarge; [lia|]. exact Hseq.
Qed.
End RunMore.

Section RunWitnesses.
Import Js DownloadService FetcherTrace RunTrace.

Local Abbreviation run_of := (run DownloadScenario.server new_AbortError DownloadScenario.no_dates).
Local Abbreviation labels_of :=
  (run_labels DownloadScenario.server new_AbortError DownloadScenario.no_dates).

(** Three screens with concurrency 2, cancelled after the first request:
    two units are inside their function. *)
Lemma run_in_flight_witness :
  exists s,
    labels_of CancelScenario.cancelled (run_of CancelScenario.three (inr []) false) = Some s
    /\ Throttler.activeCount (throttler s) = 2
    /\ in_flight (units s) <= 2.
Proof.
  eexists. split; [vm_compute; reflexivity|].
  destruct (run_in_flight DownloadScenario.server new_AbortError DownloadScenario.no_dates
              CancelScenario.three (inr []) false CancelScenario.cancelled _
              ltac:(vm_compute; reflexivity)) as (Hact & _ & Hle & _).
  split; [reflexivity|exact Hle].
Defined.

(** The run over the one screen ["ok"]: one file in the archive. *)
Lemma run_archive_witness :
  exists s,
    DownloadScenario.served_run = Some s
    /\ Z.of_nat (length (zip s)) = succeeded s
    /\ succeeded s = 1.
Proof.
  eexists. split; [vm_compute; reflexivity|].
  destruct (run_archive DownloadScenario.server new_AbortError DownloadScenario.no_dates
              (DownloadScenario.options 2 [DownloadScenario.shot "ok"]) (inr []) false
              (DownloadScenario.one_unit 2 (Some 7)) _ ltac:(vm_compute; reflexivity))
    as (_ & Hall).
  destruct Hall as [Hzip _]; [right; right; reflexivity|].
  split; [exact Hzip|reflexivity].
Defined.

(** The same run: one [progress] message, with [completed = 1]. *)
Lemma run_progress_witness :
  exists s,
    DownloadScenario.served_run = Some s
    /\ completions (port s) = [1]
    /\ length (completions (port s)) = 1%nat.
Proof.
  eexists. split; [vm_compute; reflexivity|].
  destruct (run_progress DownloadScenario.server new_AbortError DownloadScenario.no_dates
              (DownloadScenario.options 2 [DownloadScenario.shot "ok"]) (inr []) false
              (DownloadScenario.one_unit 2 (Some 7)) _ ltac:(vm_compute; reflexivity))
    as (Hcount & Hlen & _).
  split; [exact Hcount|exact Hlen].
Defined.

(** The run over the screen ["gone"] ends with one [done] message. *)
Lemma run_one_terminal_witness :
  exists s m,
    DownloadScenario.missing_run = Some s
    /\ terminals (port s) = [m]
    /\ ends Completed m.
Proof.
  eexists.
  pose proof (run_one_terminal DownloadScenario.server new_AbortError
                DownloadScenario.no_dates
                (DownloadScenario.options 2 [DownloadScenario.shot "gone"]) (inr []) false
                (DownloadScenario.one_unit 2 (Some 7)) _ ltac:(vm_compute; reflexivity))
    as Hterm.
  cbn [main] in Hterm. destruct Hterm as [(m & Hone & Hends) _].
  exists m. split; [vm_compute; reflexivity|]. split; [exact Hone|exact Hends].
Defined.

(** The cancelled run wound up: it ends with [cancelled], and the third
    unit, which was waiting, has only been started to throw. *)
Lemma run_cancel_wins_witness :
  exists s s',
    labels_of CancelScenario.cancelled (run_of CancelScenario.three (inr []) false) = Some s
    /\ labels_of CancelScenario.wound_up s = Some s'
    /\ main s' = Returned WasCancelled
    /\ Forall (fun m => is_done m = false) (port s')
    /\ units s !! 2%nat = Some Queued
    /\ exists u, units s' !! 2%nat = Some u /\ held_back u.
Proof.
  eexists. eexists. split; [vm_compute; reflexivity|].
  split; [vm_compute; reflexivity|].
  destruct (run_cancel_wins DownloadScenario.server new_AbortError DownloadScenario.no_dates
              CancelScenario.three (inr []) false CancelScenario.cancelled _
              ltac:(vm_compute; reflexivity) eq_refl eq_refl
              CancelScenario.wound_up _ ltac:(vm_compute; reflexivity))
    as (_ & Hport & Hheld).
  split; [reflexivity|]. split; [exact Hport|]. split; [reflexivity|].
  apply (Hheld 2%nat Queued); [reflexivity|left; reflexivity].
Defined.

(** The same run at the moment of the cancellation: the units of the two
    first screens have been started, the third waits. *)
Lemma run_starts_in_order_witness :
  exists s k,
    labels_of CancelScenario.cancelled (run_of CancelScenario.three (inr []) false) = Some s
    /\ Throttler.queue (throttler s) = seq k (length (units s) - k)
    /\ (units s !! 2%nat = Some Queued <-> (k <= 2)%nat).
Proof.
  eexists.
  destruct (run_starts_in_order DownloadScenario.server new_AbortError
              DownloadScenario.no_dates CancelScenario.three (inr []) false
              CancelScenario.cancelled _ ltac:(vm_compute; reflexivity))
    as (k & _ & Hqueue & Hprefix).
  exists k. split; [vm_compute; reflexivity|]. split; [exact Hqueue|].
  split.
  - intros Hq. by apply (Hprefix 2%nat Queued Hq).
  - intros _. reflexivity.
Defined.

(** A [download] message asking for 7 streams and no throttle, one
    screen. *)
Lemma listener_run_starts_witness :
  let options : @Background.DownloadMessage Empty_set (list ScreenMeta) :=
    {| Background.concurrency := Num (of_Z 7);
       Background.sequential := Bool false;
       Background.throttleMs := Undefined;
       Background.screens := Some [DownloadScenario.shot "ok"] |} in
  let s := run_of (DownloadScenario.options 7 [DownloadScenario.shot "ok"]) (inr []) false in
  main s = AwaitingUnits
  /\ Throttler.maxConcurrency (throttler s) = 7
  /\ terminals (port s) = [].
Proof.
  intros options s.
  destruct (listener_run_starts DownloadScenario.server new_AbortError
              DownloadScenario.no_dates (fun _ => NaN)
              (fun o : Empty_set => match o with end) options _
              (DownloadScenario.options 7 [DownloadScenario.shot "ok"]) (inr []) false
              [DownloadScenario.shot "ok"]
              eq_refl eq_refl eq_refl eq_refl eq_refl eq_refl ltac:(discriminate))
    as (Hmain & _ & _ & Hmax & _ & _ & _ & _ & Hterm).
  split; [exact Hmain|]. split; [exact Hmax|exact Hterm].
Defined.

(** The run over the screen ["gone"]: the panel reads one screen
    processed, none succeeded, one failed. *)
Lemma done_read_by_panel_witness :
  exists s m,
    DownloadScenario.missing_run = Some s
    /\ terminals (port s) = [m]
    /\ read_done m = Some (1, 0, 1).
Proof.
  eexists.
  destruct (done_read_by_panel DownloadScenario.server new_AbortError
              DownloadScenario.no_dates
              (DownloadScenario.options 2 [DownloadScenario.shot "gone"]) (inr []) false
              (DownloadScenario.one_unit 2 (Some 7)) _ Completed
              ltac:(vm_compute; reflexivity) eq_refl (or_introl eq_refl))
    as (m & p & su & f & Hone & Hread & _ & Hdone).
  destruct (Hdone eq_refl) as (-> & -> & -> & _).
  exists m. split; [vm_compute; reflexivity|]. split; [exact Hone|exact Hread].
Defined.
End RunWitnesses.

(* ===================================================================== *)
(** * [encodeToBase64] and [delay] *)
(* ===================================================================== *)

Section EncodeFacts.
Import Base64.
Context (btoa : string -> string).

Lemma chunkSize_pos : (0 < chunkSize)%nat.
Proof. unfold chunkSize. lia. Qed.

Lemma fromCharCode_app (a b : list Byte.byte) :
  fromCharCode (a ++ b) = fromCharCode a +:+ fromCharCode b.
Proof.
  unfold fromCharCode, String.string_of_list_byte.
  induction a as [|x a IH]; [done|].
  change (String (Ascii.ascii_of_byte x)
            (String.string_of_list_ascii (List.map Ascii.ascii_of_byte (a ++ b)))
          = String (Ascii.ascii_of_byte x)
              (String.string_of_list_ascii (List.map Ascii.ascii_of_byte a)
                 +:+ String.string_of_list_ascii (List.map Ascii.ascii_of_byte b))).
  by rewrite IH.
Qed.

Lemma append_assoc (a b c : string) : (a +:+ b) +:+ c = a +:+ (b +:+ c).
Proof.
  induction a as [|x a IH]; [done|].
  change (String x ((a +:+ b) +:+ c) = String x (a +:+ (b +:+ c))).
  by rewrite IH.
Qed.

Lemma append_empty_r (a : string) : a +:+ "" = a.
Proof.
  induction a as [|x a IH]; [done|].
  change (String x (a +:+ "") = String x a). by rewrite IH.
Qed.

Local Opaque chunkSize.

Lemma encode_loop_rest fuel : forall bytes offset binary,
  (length bytes - offset < fuel)%nat ->
  encode_loop fuel bytes offset binary
  = Some (binary +:+ fromCharCode (drop offset bytes)).
Proof.
  induction fuel as [|fuel IH]; intros bytes offset binary Hfuel; [lia|].
  cbn [encode_loop].
  destruct (offset <? length bytes)%nat eqn:Hlt.
  - apply Nat.ltb_lt in Hlt. pose proof chunkSize_pos as Hpos.
    rewrite IH by lia. rewrite append_assoc. do 2 f_equal.
    unfold subarray.
    replace (offset + chunkSize - offset)%nat with chunkSize by lia.
    rewrite <- fromCharCode_app. f_equal.
    by rewrite <- drop_drop, take_drop.
  - apply Nat.ltb_ge in Hlt. rewrite drop_ge by done.
    by rewrite append_empty_r.
Qed.

(** X17.  Cutting the bytes into chunks of 0x8000 changes nothing: given
    fuel for its loop, [encodeToBase64] returns [btoa] of the binary
    string that has one character per byte of the input, every byte once
    and in order, whatever the length of the input (empty, a multiple of
    the chunk size, or not). *)
Theorem encodeToBase64_whole (bytes : list Byte.byte) (fuel : nat) :
  (length bytes < fuel)%nat ->
  encodeToBase64 btoa fuel bytes = Some (btoa (fromCharCode bytes)).
Proof.
  intros Hfuel. unfold encodeToBase64.
  rewrite encode_loop_rest by lia. done.
Qed.
End EncodeFacts.

(** Three bytes, the identity in place of [btoa]. *)
Lemma encodeToBase64_whole_witness :
  Base64.encodeToBase64 id 4 [Byte.x61; Byte.x62; Byte.x63] = Some "abc".
Proof.
  exact (encodeToBase64_whole id [Byte.x61; Byte.x62; Byte.x63] 4 ltac:(cbn; lia)).
Defined.

Section DelayFacts.
Import Js Delay.

(** X18.  The promise of [delay(ms, signal)] settles once and leaves
    nothing behind: of the two callbacks the executor sets up (none when
    [ms <= 0], where the promise is resolved at once) at most one ever
    runs; the promise resolves if that is the timeout and rejects with
    the [AbortError] if it is the abort listener; and once it has settled
    the timeout is cleared or spent and the listener is off the signal. *)
Theorem delay_settles_once (ms : Z) (evs : list Event) (s : state) :
  steps evs (delay ms) = Some s ->
  (length evs <= 1)%nat
  /\ (0 < ms -> evs = [] -> promise s = None /\ timer s = true /\ listener s = true)
  /\ promise s
     = match evs with
       | [] => if ms <=? 0 then Some Resolves else None
       | Timeout :: _ => Some Resolves
       | AbortEvent :: _ => Some (Rejects DownloadService.new_AbortError)
       end
  /\ (is_Some (promise s) -> timer s = false /\ listener s = false).
Proof.
  unfold delay. intros Hsteps.
  destruct (ms <=? 0) eqn:Hms.
  - destruct evs as [|[] evs]; cbn in Hsteps; [|done|done].
    injection Hsteps as <-. apply Z.leb_le in Hms.
    cbn. repeat split; try done; try lia.
  - destruct evs as [|e evs]; cbn in Hsteps.
    + injection Hsteps as <-. cbn. repeat split; try done; try lia;
        by intros [? ?].
    + destruct e; cbn in Hsteps; (destruct evs as [|[] evs]; cbn in Hsteps; [|done|done]);
        injection Hsteps as <-; cbn; repeat split; try done; try lia.
Qed.
End DelayFacts.

(** A delay of 500 ms whose signal fires first. *)
Lemma delay_settles_once_witness :
  exists s,
    Delay.steps [Delay.AbortEvent] (Delay.delay 500) = Some s
    /\ Delay.promise s = Some (Delay.Rejects DownloadService.new_AbortError)
    /\ Delay.timer s = false.
Proof.
  eexists. split; [reflexivity|].
  destruct (delay_settles_once 500 [Delay.AbortEvent] _ eq_refl)
    as (_ & _ & Hpromise & Hclean).
  split; [exact Hpromise|]. apply Hclean. cbn. eauto.
Defined.
